(** * statuteparser: the structural parser and the cross-reference resolver

    A shallow embedding of [statute_to_json/tools/parse_statute.py] and
    [statute_to_json/tools/resolve_links.py].

    Python [str] values are modelled as [string]: the UTF-8 bytes of the
    text.  The character classes ([\s], [\d], [\b], [isupper], case folding,
    ...) are the ASCII ones, so the embedding is exact on ASCII text; the
    only non-ASCII characters the code itself names are the header sign of
    [HEADER_CFR]/[HEADER_USC] (matched byte for byte) and the no-break space
    that [normalize] replaces.

    Outside ASCII Python's classes are wider (every Unicode blank is [\s],
    [re.IGNORECASE] folds the long s, [isdigit] accepts superscripts), so
    a theorem that says what a function returns for a given text either
    holds of the wider classes as well or has the hypothesis [Py.is_ascii].

    Python dictionaries with a fixed set of keys are records; a key that
    may be missing is an [option] field.  A raised exception is [None] in
    the [option] monad: the [ValueError] of [int] on a string beyond the
    interpreter's digit limit, [LEVEL_ORDER.index] on an unknown level, an
    empty stack.  The interpreter's recursion limit is not modelled: the
    theorems about the markup encoding and about the resolver speak of the
    results that [build_uslm_node], [flatten_nodes] and [build_paths] return
    on a tree that the interpreter can walk. *)

From Stdlib Require Import String Ascii List Bool Arith PeanoNat NArith Lia.
From Stdlib Require Import QArith_base.
From Stdlib Require DecimalString.
Import ListNotations.

#[local] Set Warnings "-register-all".

Local Open Scope list_scope.
Local Open Scope nat_scope.
Local Open Scope string_scope.

(* ------------------------------------------------------------------ *)
(** ** Python string primitives *)

Module Py.

Definition code (c : ascii) : nat := nat_of_ascii c.

Definition between (lo hi : nat) (c : ascii) : bool :=
  (lo <=? code c)%nat && (code c <=? hi)%nat.

Definition is_lower (c : ascii) : bool := between 97 122 c.
Definition is_upper (c : ascii) : bool := between 65 90 c.
Definition is_alpha (c : ascii) : bool := is_lower c || is_upper c.
Definition is_digit (c : ascii) : bool := between 48 57 c.
(** [\w] *)
Definition is_word (c : ascii) : bool :=
  is_alpha c || is_digit c || (code c =? 95)%nat.
(** [\s] and [str.isspace]: TAB, LF, VT, FF, CR, FS, GS, RS, US, SPACE. *)
Definition is_space (c : ascii) : bool :=
  between 9 13 c || between 28 31 c || (code c =? 32)%nat.

Definition lower_char (c : ascii) : ascii :=
  if is_upper c then ascii_of_nat (code c + 32) else c.
Definition upper_char (c : ascii) : ascii :=
  if is_lower c then ascii_of_nat (code c - 32) else c.

Fixpoint smap (f : ascii -> ascii) (s : string) : string :=
  match s with
  | EmptyString => EmptyString
  | String c s' => String (f c) (smap f s')
  end.

Definition lower (s : string) : string := smap lower_char s.
Definition upper (s : string) : string := smap upper_char s.

Fixpoint all_chars (p : ascii -> bool) (s : string) : bool :=
  match s with
  | EmptyString => true
  | String c s' => p c && all_chars p s'
  end.

Definition nonempty (s : string) : bool :=
  match s with EmptyString => false | _ => true end.

(** [s.isascii()]: on such a text the character classes above are the
    ones of Python's [str] methods and of [re] on [str] patterns. *)
Definition is_ascii (s : string) : bool :=
  all_chars (fun c => (code c <? 128)%nat) s.

(** [str.isdigit], and [isalpha() and islower()], [isalpha() and isupper()]. *)
Definition isdigit (s : string) : bool := nonempty s && all_chars is_digit s.
Definition isalpha_islower (s : string) : bool :=
  nonempty s && all_chars is_lower s.
Definition isalpha_isupper (s : string) : bool :=
  nonempty s && all_chars is_upper s.

Fixpoint srev_app (s acc : string) : string :=
  match s with
  | EmptyString => acc
  | String c s' => srev_app s' (String c acc)
  end.
Definition srev (s : string) : string := srev_app s EmptyString.

Fixpoint drop_while (p : ascii -> bool) (s : string) : string :=
  match s with
  | EmptyString => EmptyString
  | String c s' => if p c then drop_while p s' else s
  end.

(** [s.strip(chars)] for a set of characters given as a predicate. *)
Definition strip_by (p : ascii -> bool) (s : string) : string :=
  srev (drop_while p (srev (drop_while p s))).
Definition rstrip_by (p : ascii -> bool) (s : string) : string :=
  srev (drop_while p (srev s)).

Definition strip (s : string) : string := strip_by is_space s.

Definition is_paren (c : ascii) : bool :=
  Ascii.eqb c "(" || Ascii.eqb c ")".
(** [s.strip("()")] *)
Definition strip_parens (s : string) : string := strip_by is_paren s.

(** Slices [s[:n]] and [s[n:]]; Python clamps an index past the end. *)
Fixpoint take (n : nat) (s : string) : string :=
  match n, s with
  | S n', String c s' => String c (take n' s')
  | _, _ => EmptyString
  end.
Fixpoint drop (n : nat) (s : string) : string :=
  match n, s with
  | S n', String _ s' => drop n' s'
  | _, _ => s
  end.

(** [s.split(sep)] for a one-character separator. *)
Fixpoint split_on (sep : ascii) (s : string) : list string :=
  match s with
  | EmptyString => [EmptyString]
  | String c s' =>
      if Ascii.eqb c sep then EmptyString :: split_on sep s'
      else match split_on sep s' with
           | [] => [String c EmptyString]
           | p :: ps => String c p :: ps
           end
  end.

(** [sep.join(parts)] *)
Definition join (sep : string) (parts : list string) : string :=
  String.concat sep parts.

(** [len(s)]: the number of code points, that is of bytes that are not
    UTF-8 continuation bytes. *)
Fixpoint len (s : string) : nat :=
  match s with
  | EmptyString => 0
  | String c s' => (if between 128 191 c then 0 else 1) + len s'
  end.

(** [s.replace(old, new)] where [old] is the two-byte encoding of one
    character. *)
Fixpoint replace2 (a b : ascii) (new : string) (s : string) : string :=
  match s with
  | String c ((String d s'') as s') =>
      if Ascii.eqb c a && Ascii.eqb d b then new ++ replace2 a b new s''
      else String c (replace2 a b new s')
  | _ => s
  end.

(** [int(s)] for a string of decimal digits; [None] is [ValueError].  The
    code calls [int] only on a [\d+] group and after [isdigit()], so the
    one way to the error is the interpreter's limit on the length of the
    string, [sys.int_max_str_digits], 4300 digits unless configured
    otherwise; leading zeros count. *)
Definition digit_value (c : ascii) : N := N.of_nat (code c - 48).
Fixpoint int_digits (acc : N) (s : string) : N :=
  match s with
  | EmptyString => acc
  | String c s' => int_digits (10 * acc + digit_value c)%N s'
  end.
Definition int_max_str_digits : nat := 4300.
Definition int (s : string) : option N :=
  if isdigit s && (String.length s <=? int_max_str_digits)%nat
  then Some (int_digits 0%N s) else None.

(** [str(n)] for a non-negative integer. *)
Definition str_of_int (n : N) : string := DecimalString.NilZero.string_of_uint (N.to_uint n).

(** [x or default] for strings. *)
Definition or_else (s default : string) : string :=
  if nonempty s then s else default.

End Py.

(* ------------------------------------------------------------------ *)
(** ** The fragment of Python's [re] that the two modules use

    A backtracking matcher in continuation-passing style: alternatives are
    tried left to right, quantifiers are greedy, a group keeps the text of
    its last successful iteration. *)

Module Re.

Inductive regex : Type :=
| Eps
| Chr (p : ascii -> bool)          (* one character of a class *)
| Cat (r1 r2 : regex)
| Alt (r1 r2 : regex)
| Star (r : regex)                 (* greedy [r*] *)
| Grp (n : nat) (r : regex)        (* capturing group number [n] *)
| Bol                              (* [^] without MULTILINE *)
| BolM                             (* [^] under [(?m)] *)
| EolM                             (* [$] under [(?m)] *)
| WordB.                           (* [\b] *)

Record mstate : Type := mkState {
  ms_prev : option ascii;                 (* the character before the cursor *)
  ms_rest : string;                       (* the text from the cursor on *)
  ms_pos : nat;                           (* the cursor *)
  ms_caps : list (nat * (nat * string))   (* group -> (start, text) *)
}.

Definition set_cap (n : nat) (start : mstate) (stop : mstate) : mstate :=
  mkState (ms_prev stop) (ms_rest stop) (ms_pos stop)
    ((n, (ms_pos start, Py.take (ms_pos stop - ms_pos start) (ms_rest start)))
       :: ms_caps stop).

Definition word_before (st : mstate) : bool :=
  match ms_prev st with Some c => Py.is_word c | None => false end.
Definition word_after (st : mstate) : bool :=
  match ms_rest st with String c _ => Py.is_word c | EmptyString => false end.

Definition newline : ascii := "010"%char.

(** The iterations of a greedy star: one more round of [step] if it moves
    the cursor, else the rest of the pattern.  [n] bounds the rounds; every
    round consumes a character, so the characters left to read are enough. *)
Fixpoint star_loop (step : mstate -> (mstate -> option mstate) -> option mstate)
  (n : nat) (st : mstate) (k : mstate -> option mstate) {struct n}
  : option mstate :=
  match n with
  | O => k st
  | S n' =>
      match step st (fun st' => if (ms_pos st <? ms_pos st')%nat
                                then star_loop step n' st' k else None) with
      | Some res => Some res
      | None => k st
      end
  end.

Fixpoint rmatch (r : regex) (st : mstate) (k : mstate -> option mstate)
  {struct r} : option mstate :=
  match r with
  | Eps => k st
  | Chr p =>
      match ms_rest st with
      | String c rest =>
          if p c then k (mkState (Some c) rest (S (ms_pos st)) (ms_caps st))
          else None
      | EmptyString => None
      end
  | Cat r1 r2 => rmatch r1 st (fun st' => rmatch r2 st' k)
  | Alt r1 r2 =>
      match rmatch r1 st k with
      | Some res => Some res
      | None => rmatch r2 st k
      end
  | Star r' => star_loop (rmatch r') (String.length (ms_rest st)) st k
  | Grp n r' => rmatch r' st (fun st' => k (set_cap n st st'))
  | Bol => if (ms_pos st =? 0)%nat then k st else None
  | BolM =>
      match ms_prev st with
      | None => k st
      | Some c => if Ascii.eqb c newline then k st else None
      end
  | EolM =>
      match ms_rest st with
      | EmptyString => k st
      | String c _ => if Ascii.eqb c newline then k st else None
      end
  | WordB => if xorb (word_before st) (word_after st) then k st else None
  end.

(** Derived forms. *)
Definition plus (r : regex) : regex := Cat r (Star r).
Definition opt (r : regex) : regex := Alt r Eps.
Fixpoint seq (rs : list regex) : regex :=
  match rs with
  | [] => Eps
  | [r] => r
  | r :: rs' => Cat r (seq rs')
  end.
Fixpoint alts (rs : list regex) : regex :=
  match rs with
  | [] => Chr (fun _ => false)
  | [r] => r
  | r :: rs' => Alt r (alts rs')
  end.
Definition chr (c : ascii) : regex := Chr (Ascii.eqb c).
(** a literal character under IGNORECASE *)
Definition chr_ci (c : ascii) : regex :=
  Chr (fun x => Ascii.eqb (Py.lower_char x) (Py.lower_char c)).
Fixpoint lit (s : string) : regex :=
  match s with
  | EmptyString => Eps
  | String c EmptyString => chr c
  | String c s' => Cat (chr c) (lit s')
  end.
Fixpoint lit_ci (s : string) : regex :=
  match s with
  | EmptyString => Eps
  | String c EmptyString => chr_ci c
  | String c s' => Cat (chr_ci c) (lit_ci s')
  end.
Definition space : regex := Chr Py.is_space.          (* [\s] *)
Definition digit : regex := Chr Py.is_digit.          (* [\d], [[0-9]] *)
Definition dot : regex :=                             (* [.] *)
  Chr (fun c => negb (Ascii.eqb c newline)).

(** A match object: [start()], [end()] and the groups; the whole pattern is
    group 0. *)
Record rmatch_obj : Type := mkMatch {
  m_start : nat;
  m_end : nat;
  m_caps : list (nat * (nat * string))
}.

Fixpoint cap_lookup (n : nat) (caps : list (nat * (nat * string)))
  : option (nat * string) :=
  match caps with
  | [] => None
  | (m, v) :: caps' => if (n =? m)%nat then Some v else cap_lookup n caps'
  end.

(** [m.group(n)]; [None] when the group did not take part in the match. *)
Definition group (n : nat) (m : rmatch_obj) : option string :=
  option_map snd (cap_lookup n (m_caps m)).

(** [m.group(n)] of a group that always takes part. *)
Definition group_str (n : nat) (m : rmatch_obj) : string :=
  match group n m with Some s => s | None => EmptyString end.

(** One attempt at the cursor. *)
Definition match_here (r : regex) (prev : option ascii) (rest : string)
  (pos : nat) : option rmatch_obj :=
  match rmatch (Grp 0 r) (mkState prev rest pos []) (fun st => Some st) with
  | Some st => Some (mkMatch pos (ms_pos st) (ms_caps st))
  | None => None
  end.

(** [re.match(r, s)] *)
Definition match_ (r : regex) (s : string) : option rmatch_obj :=
  match_here r None s 0.

(** [r.search(s)]: the leftmost match. *)
Fixpoint search_from (r : regex) (prev : option ascii) (rest : string)
  (pos : nat) : option rmatch_obj :=
  match match_here r prev rest pos with
  | Some m => Some m
  | None =>
      match rest with
      | EmptyString => None
      | String c rest' => search_from r (Some c) rest' (S pos)
      end
  end.
Definition search (r : regex) (s : string) : option rmatch_obj :=
  search_from r None s 0.

(** [r.finditer(s)]: the non-overlapping matches from left to right; [skip]
    counts the characters of the previous match still to pass over. *)
Fixpoint finditer_from (r : regex) (prev : option ascii) (rest : string)
  (pos skip : nat) : list rmatch_obj :=
  match skip with
  | S skip' =>
      match rest with
      | EmptyString => []
      | String c rest' => finditer_from r (Some c) rest' (S pos) skip'
      end
  | O =>
      match match_here r prev rest pos with
      | Some m =>
          m :: match rest with
               | EmptyString => []
               | String c rest' =>
                   finditer_from r (Some c) rest' (S pos)
                     (pred (m_end m - pos))
               end
      | None =>
          match rest with
          | EmptyString => []
          | String c rest' => finditer_from r (Some c) rest' (S pos) 0
          end
      end
  end.
Definition finditer (r : regex) (s : string) : list rmatch_obj :=
  finditer_from r None s 0 0.

(** [re.findall(r, s)] for a pattern with one group. *)
Definition findall1 (r : regex) (s : string) : list string :=
  map (group_str 1) (finditer r s).

(** [re.sub(r, repl, s)] for a constant replacement. *)
Fixpoint sub_pieces (repl : string) (ms : list rmatch_obj) (s : string)
  (from : nat) : string :=
  match ms with
  | [] => Py.drop from s
  | m :: ms' =>
      Py.take (m_start m - from) (Py.drop from s) ++ repl
        ++ sub_pieces repl ms' s (m_end m)
  end.
Definition sub (r : regex) (repl : string) (s : string) : string :=
  sub_pieces repl (finditer r s) s 0.

(** [re.split(r, s, maxsplit=1)] for a pattern without groups. *)
Definition split1 (r : regex) (s : string) : list string :=
  match search r s with
  | Some m => [Py.take (m_start m) s; Py.drop (m_end m) s]
  | None => [s]
  end.

End Re.

(* ------------------------------------------------------------------ *)
(** ** The data model: documents, nodes and links *)

(** A JSON value that the core only passes through ([spans], [meta]). *)
Inductive json : Type :=
| JNull
| JStr (s : string)
| JArr (items : list json)
| JObj (fields : list (string * json)).

(** A node dictionary [{id, label, level, heading, text, children}]. *)
Inductive Node : Type :=
  mkNode (id label level : string) (heading : option string) (text : string)
         (children : list Node).

Definition node_id (n : Node) : string :=
  match n with mkNode i _ _ _ _ _ => i end.
Definition node_label (n : Node) : string :=
  match n with mkNode _ l _ _ _ _ => l end.
Definition node_level (n : Node) : string :=
  match n with mkNode _ _ l _ _ _ => l end.
Definition node_heading (n : Node) : option string :=
  match n with mkNode _ _ _ h _ _ => h end.
Definition node_text (n : Node) : string :=
  match n with mkNode _ _ _ _ t _ => t end.
Definition node_children (n : Node) : list Node :=
  match n with mkNode _ _ _ _ _ c => c end.

Definition set_text (t : string) (n : Node) : Node :=
  match n with mkNode i l lv h _ c => mkNode i l lv h t c end.
(** [parent["children"].append(child)] *)
Definition add_child (parent child : Node) : Node :=
  match parent with
  | mkNode i l lv h t c => mkNode i l lv h t (c ++ [child])%list
  end.

(** The [title] of a source descriptor is an [int] or a [str]. *)
Inductive TitleVal : Type :=
| TInt (n : N)
| TStr (s : string).

(** [str(title)] *)
Definition title_str (t : TitleVal) : string :=
  match t with
  | TInt n => Py.str_of_int n
  | TStr s => s
  end.

Record Source : Type := mkSource {
  src_work : string;
  src_title : TitleVal;
  src_section : string
}.

Record Link : Type := mkLink {
  lk_source : string;
  lk_target : string;
  lk_relation : string;
  lk_scope : string;
  lk_ref_text : string;
  lk_confidence : Q
}.

(** The document dictionary; [None] is a key that is not in it. *)
Record Document : Type := mkDocument {
  doc_id : option string;
  doc_type : option string;
  doc_source : option Source;
  doc_heading : option (option string);
  doc_nodes : option (list Node);
  doc_links : option (list Link);
  doc_spans : option json;
  doc_meta : option json
}.

(** An element of [xml.etree.ElementTree]: tag, text, tail and children. *)
Inductive Element : Type :=
  mkElement (tag : string) (text tail : option string)
            (children : list Element).

Definition elem_tag (e : Element) : string :=
  match e with mkElement t _ _ _ => t end.
Definition elem_text (e : Element) : option string :=
  match e with mkElement _ t _ _ => t end.
Definition elem_tail (e : Element) : option string :=
  match e with mkElement _ _ t _ => t end.
Definition elem_children (e : Element) : list Element :=
  match e with mkElement _ _ _ c => c end.

Record ParseResult : Type := mkParseResult {
  document : Document;
  needs_llm_assist : bool
}.

(* ------------------------------------------------------------------ *)
(** ** parse_statute.py *)

Module ParseStatute.
Import Re.

Definition in_set (set : string) (c : ascii) : bool :=
  negb (Py.all_chars (fun x => negb (Ascii.eqb x c)) set).

Definition label_pattern (body : regex) : regex :=
  seq [Bol; chr "("; Grp 1 body; chr ")"; space].

Definition LABEL_PATTERNS : list (string * regex) :=
  [ ("item", label_pattern (Cat (Chr Py.is_lower) (Chr Py.is_lower)));
    ("subitem", label_pattern (Cat (Chr Py.is_upper) (Chr Py.is_upper)));
    ("clause", label_pattern (plus (Chr (in_set "ivxlcdm"))));
    ("subclause", label_pattern (plus (Chr (in_set "IVXLCDM"))));
    ("paragraph", label_pattern (plus digit));
    ("subparagraph", label_pattern (Chr Py.is_upper));
    ("subsection", label_pattern (Chr Py.is_lower)) ].

Definition LEVEL_ORDER : list string :=
  [ "section"; "subsection"; "paragraph"; "subparagraph"; "clause";
    "subclause"; "item"; "subitem" ].

(** [LEVEL_ORDER.index(level)]; [None] is [ValueError]. *)
Fixpoint index_of (x : string) (l : list string) : option nat :=
  match l with
  | [] => None
  | y :: l' =>
      if String.eqb x y then Some 0 else option_map S (index_of x l')
  end.

(** The sign that both header patterns require between title and section. *)
Definition SIGN : string := "ยง".

Definition tab : ascii := "009"%char.
Definition formfeed : ascii := "012"%char.
Definition cr : ascii := "013"%char.

(** [(?m)^(\d+)\s*CFR\s*<sign>\s*([0-9]+\.[0-9\-]+)\s*(<rest>)$], where
    [<rest>] is the greedy [.*]. *)
Definition HEADER_CFR : regex :=
  seq [ BolM; Grp 1 (plus digit); Star space; lit "CFR"; Star space;
        lit SIGN; Star space;
        Grp 2 (seq [ plus digit; chr ".";
                     plus (Chr (fun c => Py.is_digit c || Ascii.eqb c "-")) ]);
        Star space; Grp 3 (Star dot); EolM ].

(** [(?m)^(\d+)\s*(U\.?S\.?C\.?)?\s*<sign>\s*([0-9A-Za-z\-]+)\s*(<rest>)$] *)
Definition HEADER_USC : regex :=
  seq [ BolM; Grp 1 (plus digit); Star space;
        opt (Grp 2 (seq [ chr "U"; opt (chr "."); chr "S"; opt (chr ".");
                          chr "C"; opt (chr ".") ]));
        Star space; lit SIGN; Star space;
        Grp 3 (plus (Chr (fun c => Py.is_digit c || Py.is_alpha c
                                   || Ascii.eqb c "-")));
        Star space; Grp 4 (Star dot); EolM ].

Definition nl : string := String newline EmptyString.

Definition normalize (text : string) : string :=
  let text := Py.replace2 "194"%char "160"%char " " text in
  let text :=
    sub (plus (Chr (fun c => Ascii.eqb c tab || Ascii.eqb c formfeed
                             || Ascii.eqb c cr))) " " text in
  let text := sub (seq [chr " "; chr " "; Star (chr " ")]) " " text in
  let text := sub (Cat (opt (chr cr)) (chr newline)) nl text in
  Py.strip text.

Fixpoint first_label (pats : list (string * regex)) (line : string)
  : option string * option string * nat :=
  match pats with
  | [] => (None, None, 0)
  | (level, pattern) :: pats' =>
      match match_ pattern line with
      | Some m => (Some level, group 1 m, m_end m)
      | None => first_label pats' line
      end
  end.

Definition detect_label (line : string)
  : option string * option string * nat :=
  first_label LABEL_PATTERNS line.

(** [body.strip() or None] *)
Definition strip_or_none (s : string) : option string :=
  let t := Py.strip s in if Py.nonempty t then Some t else None.

Definition first_isupper (s : string) : bool :=
  match s with String c _ => Py.is_upper c | EmptyString => false end.

Definition heading_and_body (body : string) : option string * string :=
  let candidate := Py.strip body in
  if negb (Py.nonempty candidate) then (None, "")
  else
    match split1 (Cat (chr ".") (plus space)) candidate with
    | [heading_candidate; rest] =>
        let heading_candidate := Py.strip heading_candidate in
        if Py.nonempty heading_candidate
           && (Py.len heading_candidate <=? 80)%nat
           && first_isupper heading_candidate
        then (Some heading_candidate, Py.strip rest)
        else (None, candidate)
    | _ => (None, candidate)
    end.

(** [stack] is the Python list: the section root first, the innermost open
    node last. *)
Definition make_node_id (base_id : string) (stack : list Node)
  (label : string) : string :=
  let paren := fun l : string => "(" ++ l ++ ")" in
  let suffix_parts :=
    app (map (fun n => paren (Py.strip_parens (node_label n)))
             (tl stack))
        [paren label] in
  base_id ++ Py.join "" suffix_parts.

Definition new_node (base_id : string) (stack : list Node)
  (level label : string) (heading_text : option string)
  (body_text : string) : Node :=
  mkNode (make_node_id base_id stack label) ("(" ++ label ++ ")") level
         heading_text (Py.strip body_text) [].

(** In the line loop the stack of open nodes is written top first,
    [top :: below], with the section root last.  Python appends a new node
    to its parent's [children] when it is created and goes on mutating it
    while it is on the stack; here an open node is put into its parent's
    [children] when it leaves the stack ([pop_while], or [close_all] after
    the last line).  No node gets a sibling before it has left the stack, so
    the order of the children is the same.

    [while len(stack) > 1 and
       LEVEL_ORDER.index(stack[-1]["level"]) >= level_idx: stack.pop()] *)
Fixpoint pop_while (level_idx : nat) (top : Node) (below : list Node)
  : option (list Node) :=
  match below with
  | [] => Some [top]
  | parent :: rest =>
      match index_of (node_level top) LEVEL_ORDER with
      | None => None
      | Some i =>
          if (level_idx <=? i)%nat
          then pop_while level_idx (add_child parent top) rest
          else Some (top :: below)
      end
  end.

(** [level, label, pos = detect_label(line)] when [level and label]. *)
Definition labelled (line : string) : option (string * string * nat) :=
  match detect_label line with
  | (Some level, Some label, pos) =>
      if Py.nonempty level && Py.nonempty label
      then Some (level, label, pos) else None
  | _ => None
  end.

(** The body of [for line in lines]; [None] is a raised exception. *)
Definition step (base_id header_line : string) (stack : list Node)
  (line : string) : option (list Node) :=
  if String.eqb (Py.strip line) (Py.strip header_line) then Some stack
  else
    match stack with
    | [] => None
    | top :: below =>
        match labelled line with
        | Some (level, label, pos) =>
            match index_of level LEVEL_ORDER with
            | None => None
            | Some level_idx =>
                match pop_while level_idx top below with
                | None => None
                | Some stack' =>
                    let remainder := Py.strip (Py.drop pos line) in
                    let '(heading_text, body_text) :=
                      heading_and_body remainder in
                    let node :=
                      new_node base_id (rev stack') level label
                               heading_text body_text in
                    let node :=
                      if Py.nonempty (node_text node) then node
                      else set_text remainder node in
                    Some (node :: stack')
                end
            end
        | None =>
            let addition := Py.strip line in
            if Py.nonempty addition then
              if Py.nonempty (node_text top)
              then Some (set_text (node_text top ++ " " ++ addition) top
                           :: below)
              else Some (set_text addition top :: below)
            else Some stack
        end
    end.

Fixpoint run_lines (base_id header_line : string) (stack : list Node)
  (lines : list string) : option (list Node) :=
  match lines with
  | [] => Some stack
  | line :: lines' =>
      match step base_id header_line stack line with
      | None => None
      | Some stack' => run_lines base_id header_line stack' lines'
      end
  end.

(** The section root once every open node is in its parent's children. *)
Fixpoint close_all (top : Node) (below : list Node) : Node :=
  match below with
  | [] => top
  | parent :: rest => close_all (add_child parent top) rest
  end.

Definition degraded_text (source_type citation_hint : string) : ParseResult :=
  mkParseResult
    (mkDocument (Some (Py.or_else citation_hint "unknown"))
                (Some (Py.lower source_type))
                (Some (mkSource (Py.upper source_type)
                                (TStr (Py.or_else citation_hint "")) ""))
                None (Some []) None None None)
    true.

(** The header match that [parse] uses: [m_cfr] for a CFR source, [m_usc]
    for every other one. *)
Definition m_cfr (source_type text : string) : option rmatch_obj :=
  if String.eqb (Py.upper source_type) "CFR" then search HEADER_CFR text
  else None.
Definition m_usc (source_type text : string) : option rmatch_obj :=
  if negb (String.eqb (Py.upper source_type) "CFR")
  then search HEADER_USC text else None.

(** The text branch of [parse], after the header has matched. *)
Definition build_text (text base_id doc_type : string) (source : Source)
  (heading : option string) (header_line : string) : option ParseResult :=
  let lines :=
    filter (fun ln => Py.nonempty (Py.strip ln)) (Py.split_on newline text) in
  let section_node := mkNode base_id "" "section" heading "" [] in
  match run_lines base_id header_line [section_node] lines with
  | Some (top :: below) =>
      Some (mkParseResult
              (mkDocument (Some base_id) (Some doc_type) (Some source)
                          (Some heading) (Some [close_all top below])
                          (Some []) (Some (JArr [])) (Some (JObj [])))
              false)
  | _ => None
  end.

Definition parse_text (source_text source_type citation_hint : string)
  : option ParseResult :=
  let text := normalize source_text in
  match m_cfr source_type text with
  | Some m =>
      let title := group_str 1 m in
      let section := group_str 2 m in
      let heading_line := strip_or_none (group_str 3 m) in
      match Py.int title with
      | None => None
      | Some t =>
          build_text text ("cfr:" ++ title ++ ":" ++ section) "regulation"
                     (mkSource "CFR" (TInt t) section) heading_line
                     (group_str 0 m)
      end
  | None =>
      match m_usc source_type text with
      | Some m =>
          let title := group_str 1 m in
          let section := group_str 3 m in
          let heading_line := strip_or_none (group_str 4 m) in
          match Py.int title with
          | None => None
          | Some t =>
              build_text text ("usc:" ++ title ++ ":" ++ section) "statute"
                         (mkSource "USC" (TInt t) section) heading_line
                         (group_str 0 m)
          end
      | None => Some (degraded_text source_type citation_hint)
      end
  end.

(** *** The markup encoding *)

Definition USLM_NS : string := "{http://xml.house.gov/schemas/uslm/1.0}".

Definition USLM_LEVEL_MAP : list (string * string) :=
  [ ("subsection", "subsection"); ("paragraph", "paragraph");
    ("subparagraph", "subparagraph"); ("clause", "clause");
    ("subclause", "subclause"); ("item", "item"); ("subitem", "subitem") ].

Fixpoint map_get (key : string) (d : list (string * string))
  : option string :=
  match d with
  | [] => None
  | (k, v) :: d' => if String.eqb key k then Some v else map_get key d'
  end.

Fixpoint after_brace (tag : string) : option string :=
  match tag with
  | EmptyString => None
  | String c tag' => if Ascii.eqb c "}" then Some tag' else after_brace tag'
  end.

Definition local_name (tag : string) : string :=
  match after_brace tag with Some name => name | None => tag end.

Definition is_level (child : Element) : bool :=
  match map_get (local_name (elem_tag child)) USLM_LEVEL_MAP with
  | Some _ => true
  | None => false
  end.

Definition has_tag (name : string) (e : Element) : bool :=
  String.eqb (elem_tag e) (USLM_NS ++ name).

(** [element.find("uslm:" + name, namespaces=USLM_NS)] *)
Definition find_child (name : string) (element : Element) : option Element :=
  find (has_tag name) (elem_children element).

(** [element.findtext("uslm:" + name, default, namespaces=USLM_NS)] *)
Definition findtext (name : string) (default : option string)
  (element : Element) : option string :=
  match find_child name element with
  | Some c => Some (match elem_text c with Some t => t | None => "" end)
  | None => default
  end.

Fixpoint descendants (e : Element) : list Element :=
  match e with
  | mkElement _ _ _ children =>
      flat_map (fun c => c :: descendants c) children
  end.

(** [root.find(".//uslm:section", namespaces=USLM_NS)] *)
Definition find_section (root : Element) : option Element :=
  find (has_tag "section") (descendants root).

(** [[s.strip()] if s and s.strip()] *)
Definition stripped (s : option string) : list string :=
  match s with
  | Some t => if Py.nonempty (Py.strip t) then [Py.strip t] else []
  | None => []
  end.

Definition join_parts (parts : list string) : string :=
  match parts with
  | [] => ""
  | _ => normalize (Py.join " " parts)
  end.

Fixpoint extract_text (element : Element) : string :=
  match element with
  | mkElement _ text _ children =>
      join_parts
        (app (stripped text)
             (flat_map
                (fun child =>
                   if is_level child then stripped (elem_tail child)
                   else
                     app (let nested := extract_text child in
                          if Py.nonempty nested then [nested] else [])
                         (stripped (elem_tail child)))
                children))
  end.

Definition extract_direct_text (element : option Element) : string :=
  match element with
  | None => ""
  | Some e => extract_text e
  end.

(** [content if content is not None else element] *)
Definition first_or (default : Element) (p : Element -> bool)
  : list Element -> Element :=
  fix pick (l : list Element) : Element :=
    match l with
    | [] => default
    | c :: l' => if p c then c else pick l'
    end.

Definition starts_with_paren (s : string) : bool :=
  match s with String c _ => Ascii.eqb c "(" | EmptyString => false end.

(** The label of a level element, from its [num] child. *)
Definition label_value_of (element : Element) : string :=
  let raw_label :=
    Py.strip (match findtext "num" (Some "") element with
              | Some t => t
              | None => ""
              end) in
  let label_normalized := Py.rstrip_by (Ascii.eqb ".") raw_label in
  let label_normalized :=
    if Py.nonempty label_normalized && negb (starts_with_paren label_normalized)
    then "(" ++ label_normalized ++ ")" else label_normalized in
  Py.strip_parens label_normalized.

(** [heading_text.strip() or None] of the [heading] child, if any. *)
Definition heading_of (element : Element) : option string :=
  match findtext "heading" None element with
  | Some h => strip_or_none h
  | None => None
  end.

(** [build_uslm_node]: [None] is the [None] that the function returns for
    an element that is no level or has no label.  The recursion follows the
    nesting of the level elements; Python bounds its depth by the
    interpreter's recursion limit, this definition does not. *)
Fixpoint build_uslm_node (element : Element) (base_id : string)
  (stack : list Node) {struct element} : option Node :=
  match element with
  | mkElement tag _ _ children =>
      match map_get (local_name tag) USLM_LEVEL_MAP with
      | None => None
      | Some level =>
          let label_value := label_value_of element in
          if negb (Py.nonempty level) || negb (Py.nonempty label_value)
          then None
          else
            let heading_text := heading_of element in
            let body_text :=
              extract_direct_text (find_child "content" element) in
            let node :=
              new_node base_id stack level label_value heading_text
                       body_text in
            match first_or element (has_tag "content") children with
            | mkElement _ _ _ level_children =>
                Some (fold_left
                        (fun node child =>
                           if is_level child then
                             match build_uslm_node child base_id
                                     (app stack [node]) with
                             | Some built => add_child node built
                             | None => node
                             end
                           else node)
                        level_children node)
            end
      end
  end.

(** [metadata_from_hint], from its last return statement backwards: the
    fallback, the USC header search before it, the CFR header search before
    that, and the compact form [work:title:section] which is tried first. *)
Definition Metadata : Type := string * string * Source * option string.

Definition hint_fallback (hint source_type : string) : option Metadata :=
  let prefix :=
    if String.eqb (Py.upper source_type) "USC" then "usc" else "cfr" in
  Some (prefix ++ ":" ++ Py.or_else hint "unknown",
        (if String.eqb prefix "usc" then "statute" else "regulation"),
        mkSource (Py.upper prefix) (TStr (Py.or_else hint ""))
                 (Py.or_else hint ""),
        None).

Definition hint_usc (hint source_type : string) : option Metadata :=
  match search HEADER_USC hint with
  | Some m =>
      let title := group_str 1 m in
      let section := group_str 3 m in
      match Py.int title with
      | None => None
      | Some t =>
          Some ("usc:" ++ title ++ ":" ++ section, "statute",
                mkSource "USC" (TInt t) section,
                strip_or_none (group_str 4 m))
      end
  | None => hint_fallback hint source_type
  end.

Definition hint_header (hint source_type : string) : option Metadata :=
  if String.eqb (Py.upper source_type) "CFR" then
    match search HEADER_CFR hint with
    | Some m =>
        let title := group_str 1 m in
        let section := group_str 2 m in
        match Py.int title with
        | None => None
        | Some t =>
            Some ("cfr:" ++ title ++ ":" ++ section, "regulation",
                  mkSource "CFR" (TInt t) section,
                  strip_or_none (group_str 3 m))
        end
    | None => hint_usc hint source_type
    end
  else hint_usc hint source_type.

Definition metadata_from_hint (citation_hint source_type : string)
  : option Metadata :=
  let hint := Py.strip citation_hint in
  match (if Py.nonempty hint then Py.split_on ":" hint else []) with
  | first :: title_part :: ((_ :: _) as rest) =>
      let prefix := Py.lower first in
      if String.eqb prefix "usc" || String.eqb prefix "cfr" then
        let section_part := Py.join ":" rest in
        let title_value :=
          if Py.isdigit title_part then
            option_map TInt (Py.int title_part)
          else Some (TStr title_part) in
        match title_value with
        | None => None
        | Some tv =>
            Some (prefix ++ ":" ++ title_part ++ ":" ++ section_part,
                  (if String.eqb prefix "usc" then "statute"
                   else "regulation"),
                  mkSource (Py.upper prefix) tv section_part, None)
        end
      else hint_header hint source_type
  | _ => hint_header hint source_type
  end.

Definition degraded_uslm (source_type citation_hint : string) : ParseResult :=
  mkParseResult
    (mkDocument (Some (Py.or_else citation_hint "unknown"))
                (Some (Py.lower source_type))
                (Some (mkSource (Py.upper source_type) (TStr "") ""))
                None (Some []) None None None)
    true.

Section Parse.

(** [ET.fromstring]; [None] is [ET.ParseError]. *)
Variable fromstring : string -> option Element.

Definition parse_uslm (source_text source_type citation_hint : string)
  : option ParseResult :=
  match fromstring source_text with
  | None => Some (degraded_uslm source_type citation_hint)
  | Some root =>
      let section :=
        if negb (String.eqb (local_name (elem_tag root)) "section")
        then find_section root else Some root in
      match section with
      | None => Some (degraded_uslm source_type citation_hint)
      | Some section =>
          match metadata_from_hint citation_hint source_type with
          | None => None
          | Some (base_id, doc_type, source, heading_hint) =>
              let heading_text :=
                match heading_of section with
                | Some h => Some h
                | None => heading_hint
                end in
              let content := find_child "content" section in
              let section_node :=
                mkNode base_id "" "section" heading_text
                       (extract_direct_text content) [] in
              let section_node :=
                match content with
                | Some c =>
                    fold_left
                      (fun section_node child =>
                         match build_uslm_node child base_id [section_node]
                         with
                         | Some child_built =>
                             add_child section_node child_built
                         | None => section_node
                         end)
                      (elem_children c) section_node
                | None => section_node
                end in
              Some (mkParseResult
                      (mkDocument (Some base_id) (Some doc_type) (Some source)
                                  (Some heading_text) (Some [section_node])
                                  (Some []) (Some (JArr [])) (Some (JObj [])))
                      false)
          end
      end
  end.

Definition parse (source_text source_type citation_hint input_format : string)
  : option ParseResult :=
  if String.eqb (Py.lower input_format) "uslm"
  then parse_uslm source_text source_type citation_hint
  else parse_text source_text source_type citation_hint.

End Parse.

End ParseStatute.

(* ------------------------------------------------------------------ *)
(** ** resolve_links.py *)

Module ResolveLinks.
Import Re.

(** The cue patterns are searched with [re.IGNORECASE]. *)
Definition RELATION_CUES : list (string * regex) :=
  [ ("for-purposes-of", lit_ci "for purposes of");
    ("subject-to", lit_ci "subject to");
    ("exception-to", lit_ci "except as provided");
    ("notwithstanding", lit_ci "notwithstanding");
    ("definition-of", seq [lit_ci "the term "; plus dot; lit_ci " means"]) ].

Definition not_rparen : regex := Chr (fun c => negb (Ascii.eqb c ")")).
(** [\([^)]+\)] *)
Definition paren_group : regex := seq [chr "("; plus not_rparen; chr ")"].

Definition nouns : regex :=
  alts [ lit_ci "paragraph"; lit_ci "subparagraph"; lit_ci "clause";
         lit_ci "subclause"; lit_ci "subsection" ].

(** [\bsection\s+([0-9A-Za-z\.\-]+)(\([^)]+\))?], IGNORECASE *)
Definition ABS_REF : regex :=
  seq [ WordB; lit_ci "section"; plus space;
        Grp 1 (plus (Chr (fun c => Py.is_digit c || Py.is_alpha c
                                   || Ascii.eqb c "." || Ascii.eqb c "-")));
        opt (Grp 2 paren_group) ].

(** [\b(paragraph|subparagraph|clause|subclause|subsection)\s+((\([^)]+\))+)],
    IGNORECASE *)
Definition REL_REF : regex :=
  seq [ WordB; Grp 1 nouns; plus space; Grp 2 (plus (Grp 3 paren_group)) ].

(** [\bthis\s+(paragraph|subparagraph|clause|subclause|subsection)\b],
    IGNORECASE *)
Definition THIS_REF : regex :=
  seq [ WordB; lit_ci "this"; plus space; Grp 1 nouns; WordB ].

Definition fullmatch_set (set : string) (value : string) : bool :=
  Py.nonempty value && Py.all_chars (ParseStatute.in_set set) value.

Definition EXPECTED_LABEL_PREDICATES : list (string * (string -> bool)) :=
  [ ("subsection", Py.isalpha_islower);
    ("paragraph", Py.isdigit);
    ("subparagraph", Py.isalpha_isupper);
    ("clause", fun value => fullmatch_set "ivxlcdm" (Py.lower value));
    ("subclause", fun value => fullmatch_set "IVXLCDM" value);
    ("item", fun value => Py.isalpha_islower value
                          && (Py.len value =? 2)%nat);
    ("subitem", fun value => Py.isalpha_isupper value
                             && (Py.len value =? 2)%nat) ].

(** A dictionary with string keys, as the list of its assignments in the
    order they were made; a later assignment to a key replaces an earlier
    one. *)
Fixpoint dict_get {V : Type} (key : string) (d : list (string * V))
  : option V :=
  match d with
  | [] => None
  | (k, v) :: d' =>
      match dict_get key d' with
      | Some v' => Some v'
      | None => if String.eqb key k then Some v else None
      end
  end.

Fixpoint flatten_nodes (node : Node) : list Node :=
  match node with
  | mkNode _ _ _ _ _ children => node :: flat_map flatten_nodes children
  end.

Fixpoint walk_paths (n : Node) (path : list Node)
  : list (string * list Node) :=
  match n with
  | mkNode id _ _ _ _ children =>
      let current_path := app path [n] in
      (id, current_path)
        :: flat_map (fun child => walk_paths child current_path) children
  end.

Definition build_paths (node : Node) : list (string * list Node) :=
  walk_paths node [].

(** [paths.get(key, [])] *)
Definition paths_get (paths : list (string * list Node)) (key : string)
  : list Node :=
  match dict_get key paths with Some p => p | None => [] end.

Definition nearest_ancestor_of_level (path : list Node) (level : string)
  : option Node :=
  match find (fun node => String.eqb (node_level node) level) (rev path) with
  | Some node => Some node
  | None => last (map Some path) None
  end.

Fixpoint first_cue (cues : list (string * regex)) (text : string)
  : option string :=
  match cues with
  | [] => None
  | (relation, pattern) :: cues' =>
      match search pattern text with
      | Some _ => Some relation
      | None => first_cue cues' text
      end
  end.

Definition found (m : option rmatch_obj) : bool :=
  match m with Some _ => true | None => false end.

Definition detect_relation (text : string) : option string :=
  match first_cue RELATION_CUES text with
  | Some relation => Some relation
  | None =>
      if found (search ABS_REF text) || found (search REL_REF text)
         || found (search THIS_REF text)
      then Some "see-also" else None
  end.

Definition paren (label : string) : string := "(" ++ label ++ ")".

(** [[n["label"].strip("()") for n in base_path if n.get("label")]] *)
Definition base_labels_of (base_path : list Node) : list string :=
  map (fun n => Py.strip_parens (node_label n))
      (filter (fun n => Py.nonempty (node_label n)) base_path).

Definition build_target_id (base_id : string) (base_path : list Node)
  (suffix_labels : list string) (noun : string) : string :=
  let base_labels := base_labels_of base_path in
  let base_labels :=
    match dict_get noun EXPECTED_LABEL_PREDICATES, suffix_labels with
    | Some predicate, first :: _ =>
        if negb (predicate first) then [] else base_labels
    | _, _ => base_labels
    end in
  let base_labels :=
    match suffix_labels, rev base_labels with
    | first :: _, last_base :: _ =>
        if String.eqb first last_base then removelast base_labels
        else base_labels
    | _, _ => base_labels
    end in
  let labels := app base_labels suffix_labels in
  base_id ++ Py.join "" (map paren labels).

(** What [resolve] computes once per document. *)
Record Context : Type := mkContext {
  base_id : string;
  paths : list (string * list Node);
  source_work : string;
  source_title : string
}.

Definition add_link (source_id target_id relation scope ref_text : string)
  (confidence : Q) : Link :=
  mkLink source_id target_id relation scope ref_text confidence.

Definition Replacement : Type := nat * nat * string.

Definition pointer (ref_text target_id : string) : string :=
  ref_text ++ " [[" ++ target_id ++ "]]".

(** The body of [for match in REL_REF.finditer(text)]. *)
Definition rel_ref_link (ctx : Context) (node : Node) (relation : string)
  (m : rmatch_obj) : Link * Replacement :=
  let noun := Py.lower (group_str 1 m) in
  let paren_text := group_str 2 m in
  let path := paths_get (paths ctx) (node_id node) in
  let ancestor := nearest_ancestor_of_level path noun in
  let ancestor_path :=
    match ancestor with
    | Some a => paths_get (paths ctx) (node_id a)
    | None => []
    end in
  let base_path := removelast ancestor_path in
  let suffix_labels :=
    findall1 (seq [chr "("; Grp 1 (plus not_rparen); chr ")"]) paren_text in
  let target_id := build_target_id (base_id ctx) base_path suffix_labels noun in
  (add_link (node_id node) target_id relation "intra-section" (group_str 0 m)
            (95 # 100),
   (m_start m, m_end m, pointer (group_str 0 m) target_id)).

(** The body of [for match in THIS_REF.finditer(text)]. *)
Definition this_ref_link (ctx : Context) (node : Node) (relation : string)
  (m : rmatch_obj) : option (Link * Replacement) :=
  let noun := Py.lower (group_str 1 m) in
  let path := paths_get (paths ctx) (node_id node) in
  match nearest_ancestor_of_level path noun with
  | Some ancestor =>
      Some (add_link (node_id node) (node_id ancestor) relation
                     "intra-section" (group_str 0 m) (9 # 10),
            (m_start m, m_end m, pointer (group_str 0 m) (node_id ancestor)))
  | None => None
  end.

(** The body of [for match in ABS_REF.finditer(text)]. *)
Definition abs_ref_link (ctx : Context) (node : Node) (relation : string)
  (m : rmatch_obj) : Link * Replacement :=
  let section := group_str 1 m in
  let parens := match group 2 m with Some p => p | None => "" end in
  let prefix := if String.eqb (source_work ctx) "CFR" then "cfr" else "usc" in
  let target_parts :=
    app [prefix]
        (app (if Py.nonempty (source_title ctx) then [source_title ctx]
              else [])
             [section ++ parens]) in
  let target_id := Py.join ":" target_parts in
  (add_link (node_id node) target_id relation "inter-section" (group_str 0 m)
            (95 # 100),
   (m_start m, m_end m, pointer (group_str 0 m) target_id)).

Fixpoint somes {A : Type} (l : list (option A)) : list A :=
  match l with
  | [] => []
  | Some x :: l' => x :: somes l'
  | None :: l' => somes l'
  end.

(** The links and replacements of one node with non-empty text, in the
    order the three loops produce them. *)
Definition node_matches (ctx : Context) (node : Node)
  : list (Link * Replacement) :=
  let text := node_text node in
  let relation :=
    match detect_relation text with
    | Some r => if Py.nonempty r then r else "see-also"
    | None => "see-also"
    end in
  app (map (rel_ref_link ctx node relation) (finditer REL_REF text))
      (app (somes (map (this_ref_link ctx node relation)
                       (finditer THIS_REF text)))
           (map (abs_ref_link ctx node relation) (finditer ABS_REF text))).

(** [sorted(replacements, key=lambda x: x[0], reverse=True)]: a stable sort
    by decreasing start. *)
Fixpoint insert_desc (x : Replacement) (l : list Replacement)
  : list Replacement :=
  match l with
  | [] => [x]
  | y :: l' =>
      if (fst (fst x) <=? fst (fst y))%nat then y :: insert_desc x l'
      else x :: l
  end.
Definition sorted_desc (l : list Replacement) : list Replacement :=
  fold_left (fun acc x => insert_desc x acc) l [].

Definition apply_replacement (new_text : string) (r : Replacement) : string :=
  let '(start, stop, replacement) := r in
  Py.take start new_text ++ replacement ++ Py.drop stop new_text.

(** The links one node adds. *)
Definition node_links (ctx : Context) (node : Node) : list Link :=
  if Py.nonempty (node_text node) then map fst (node_matches ctx node)
  else [].

(** The node's [text] after the loop body. *)
Definition node_new_text (ctx : Context) (node : Node) : string :=
  if Py.nonempty (node_text node) then
    match map snd (node_matches ctx node) with
    | [] => node_text node
    | replacements =>
        fold_left apply_replacement (sorted_desc replacements)
                  (node_text node)
    end
  else node_text node.

(** The tree after [for node in flat_nodes] has rewritten the [text] of the
    nodes in place: every node of the tree is in [flat_nodes], the loop
    reads a node's text before it writes it, and it reads nothing else that
    it writes. *)
Fixpoint rewrite_node (ctx : Context) (node : Node) : Node :=
  match node with
  | mkNode id label level heading _ children =>
      mkNode id label level heading (node_new_text ctx node)
             (map (rewrite_node ctx) children)
  end.

Definition make_context (json_doc : Document) (root : Node) : Context :=
  mkContext
    (match doc_id json_doc with Some i => i | None => "" end)
    (build_paths root)
    (Py.upper (match doc_source json_doc with
               | Some s => src_work s
               | None => "USC"
               end))
    (Py.strip (match doc_source json_doc with
               | Some s => title_str (src_title s)
               | None => ""
               end)).

Definition set_links (links : list Link) (d : Document) : Document :=
  mkDocument (doc_id d) (doc_type d) (doc_source d) (doc_heading d)
             (doc_nodes d) (Some links) (doc_spans d) (doc_meta d).
Definition set_nodes (nodes : list Node) (d : Document) : Document :=
  mkDocument (doc_id d) (doc_type d) (doc_source d) (doc_heading d)
             (Some nodes) (doc_links d) (doc_spans d) (doc_meta d).

Definition resolve (json_doc : Document) : Document :=
  match doc_nodes json_doc with
  | None | Some [] =>
      match doc_links json_doc with
      | Some _ => json_doc
      | None => set_links [] json_doc
      end
  | Some (root :: others) =>
      let ctx := make_context json_doc root in
      let flat_nodes := flatten_nodes root in
      let links := flat_map (node_links ctx) flat_nodes in
      set_links links (set_nodes (rewrite_node ctx root :: others) json_doc)
  end.

End ResolveLinks.

(* ------------------------------------------------------------------ *)
(** ** Specification vocabulary *)

Module Spec.
Import ParseStatute ResolveLinks.

(** A node with the [text] of every node of its subtree blanked: what is
    left is [id], [label], [level], [heading] and the shape of [children]. *)
Fixpoint erase_text (n : Node) : Node :=
  match n with
  | mkNode id label level heading _ children =>
      mkNode id label level heading "" (map erase_text children)
  end.

(** The document with [links] defaulted to the empty list. *)
Definition with_default_links (d : Document) : Document :=
  mkDocument (doc_id d) (doc_type d) (doc_source d) (doc_heading d)
             (doc_nodes d)
             (Some (match doc_links d with Some l => l | None => [] end))
             (doc_spans d) (doc_meta d).

(** [not json_doc.get("nodes")] *)
Definition no_nodes (d : Document) : bool :=
  match doc_nodes d with
  | None | Some [] => true
  | Some (_ :: _) => false
  end.

(** The level nouns that [REL_REF] can match. *)
Definition REL_NOUNS : list string :=
  [ "paragraph"; "subparagraph"; "clause"; "subclause"; "subsection" ].

(** The capturing groups of a pattern. *)
Fixpoint groups (r : Re.regex) : list nat :=
  match r with
  | Re.Cat r1 r2 | Re.Alt r1 r2 => app (groups r1) (groups r2)
  | Re.Star r' => groups r'
  | Re.Grp n r' => n :: groups r'
  | _ => []
  end.

(** The state of the matcher once it has read [xs] and [tail] is left. *)
Fixpoint last_char (prev : option ascii) (xs : string) : option ascii :=
  match xs with
  | EmptyString => prev
  | String c xs' => last_char (Some c) xs'
  end.
Definition after (st : Re.mstate) (xs tail : string) : Re.mstate :=
  Re.mkState (last_char (Re.ms_prev st) xs) tail
             (Re.ms_pos st + String.length xs) (Re.ms_caps st).

(** The header match that [parse] goes by, if there is one. *)
Definition header_match (source_type text : string) : option Re.rmatch_obj :=
  match m_cfr source_type text with
  | Some m => Some m
  | None => m_usc source_type text
  end.

(** [st'] is a state that the matcher can reach from [st]: the cursor has
    moved forward by the characters read. *)
Definition reaches (st st' : Re.mstate) : Prop :=
  Re.ms_pos st <= Re.ms_pos st' /\
  Re.ms_pos st' + String.length (Re.ms_rest st')
  = Re.ms_pos st + String.length (Re.ms_rest st).

(** A matching step that looks at its continuation only in states it can
    reach. *)
Definition local
  (step : Re.mstate -> (Re.mstate -> option Re.mstate) -> option Re.mstate)
  : Prop :=
  forall st k k',
    (forall st', reaches st st' -> k st' = k' st') -> step st k = step st k'.

(** Groups outside [gs] are the same in both states. *)
Definition frame (gs : list nat) (st st' : Re.mstate) : Prop :=
  forall g, ~ In g gs ->
    Re.cap_lookup g (Re.ms_caps st') = Re.cap_lookup g (Re.ms_caps st).

(** The levels of a stack of open nodes are levels of [LEVEL_ORDER], and
    its last entry, the root, is a section. *)
Definition levels (stack : list Node) : list string := map node_level stack.
Definition good_levels (ls : list string) : Prop :=
  Forall (fun l => index_of l LEVEL_ORDER <> None) ls /\
  last ls "" = "section".

(** What [parse] returns once a header has matched. *)
Definition built (r : ParseResult) : Prop :=
  needs_llm_assist r = false /\
  doc_spans (document r) = Some (JArr []) /\
  doc_meta (document r) = Some (JObj []) /\
  exists root,
    doc_nodes (document r) = Some [root] /\ node_level root = "section".

(** The title of the recognised header, if there is one, is a string that
    [int] accepts. *)
Definition title_within_limit (source_type text : string) : Prop :=
  forall m,
    header_match source_type text = Some m ->
    String.length (Re.group_str 1 m) <= Py.int_max_str_digits.

(** The document returned with the manual-assist flag: the keys [id],
    [type], [source] and [nodes], the last one empty, and no other key. *)
Definition degraded (d : Document) : Prop :=
  (exists id type source,
     doc_id d = Some id /\ doc_type d = Some type /\
     doc_source d = Some source) /\
  doc_nodes d = Some [] /\ doc_heading d = None /\ doc_links d = None /\
  doc_spans d = None /\ doc_meta d = None.

(** A lowercase roman-numeral label. *)
Definition is_roman (label : string) : bool :=
  Py.nonempty label && Py.all_chars (in_set "ivxlcdm") label.

(** The target that [labels] give under [base_id]. *)
Definition target_of (base_id : string) (labels : list string) : string :=
  base_id ++ Py.join "" (map paren labels).

(** Labels written one after the other, each in parentheses. *)
Fixpoint spelled (labels : list string) : string :=
  match labels with
  | [] => ""
  | l :: labels' => "(" ++ l ++ ")" ++ spelled labels'
  end.

(** A label without its parentheses, as [new_node] receives it: it is not
    empty and has no parenthesis at either end. *)
Definition bare (l : string) : Prop :=
  match l with
  | String c _ => Py.is_paren c = false
  | EmptyString => False
  end /\
  match Py.srev l with
  | String c _ => Py.is_paren c = false
  | EmptyString => False
  end.

(** A text of parentheses only. *)
Definition parens (s : string) : Prop := Py.all_chars Py.is_paren s = true.

(** The labels that the nodes of a path carry, from the root on: a node
    with an empty label carries none, and the label of any other node is
    taken without the parentheses before and after it. *)
Inductive path_labels : list Node -> list string -> Prop :=
| path_labels_nil : path_labels [] []
| path_labels_skip (n : Node) (path : list Node) (labels : list string) :
    node_label n = "" ->
    path_labels path labels ->
    path_labels (n :: path) labels
| path_labels_take (n : Node) (path : list Node) (lp l rp : string)
    (labels : list string) :
    node_label n = lp ++ l ++ rp ->
    node_label n <> "" ->
    parens lp -> parens rp -> l = "" \/ bare l ->
    path_labels path labels ->
    path_labels (n :: path) (l :: labels).

End Spec.

(* ------------------------------------------------------------------ *)
(** ** Concrete inputs *)

Module Scenario.
Import ParseStatute ResolveLinks.

Definition header : string := "26 U.S.C. ยง 162 Trade or business expenses".

(** The two-level section of the end-to-end scenario, subsections with
    paragraphs, laid out as the repository's pipeline test reads the result:
    the phrase about subsection (a) is in the text of subsection (b), the
    phrase about section 274 in the text of paragraph (1) of (b). *)
Definition two_level_text : string :=
  header ++ nl
  ++ "(a) ..." ++ nl
  ++ "(1) Ordinary expenses ..." ++ nl
  ++ "(b) For purposes of subsection (a) ..." ++ nl
  ++ "(1) ... subject to section 274 ...".

(** Section 162 with subsection (a) and its paragraph (1), as the parser
    labels and identifies them. *)
Definition root_162 : Node :=
  mkNode "usc:26:162" "" "section" None "" [].
Definition sub_162_a : Node :=
  mkNode "usc:26:162(a)" "(a)" "subsection" None "" [].
Definition par_162_a_1 : Node :=
  mkNode "usc:26:162(a)(1)" "(1)" "paragraph" None "" [].

(** A header whose title has one digit more than [int] accepts. *)
Fixpoint repeat_char (c : ascii) (n : nat) : string :=
  match n with
  | O => EmptyString
  | S n' => String c (repeat_char c n')
  end.
Definition long_title : string := repeat_char "1" (S Py.int_max_str_digits).
Definition long_title_text : string :=
  long_title ++ " U.S.C. ยง 1 Tax imposed".

(** A subsection that refers to a paragraph without being inside one. *)
Definition orphan_text : string :=
  header ++ nl ++ "(a) In general. See this paragraph.".

Definition orphan_a : Node :=
  mkNode "usc:26:162(a)" "(a)" "subsection" (Some "In general")
         "See this paragraph." [].
Definition orphan_root : Node :=
  mkNode "usc:26:162" "" "section" (Some "Trade or business expenses") ""
         [orphan_a].

(** An XML parser that rejects every input. *)
Definition no_xml : string -> option Element := fun _ => None.

(** [parse(source_text, "USC")], then [resolve] once and twice; [None] if
    [parse] raised. *)
Definition parsed (source_text : string) : option Document :=
  option_map document (parse no_xml source_text "USC" "" "text").
Definition pipeline (source_text : string) : option Document :=
  option_map resolve (parsed source_text).
Definition pipeline_twice (source_text : string) : option Document :=
  option_map resolve (pipeline source_text).

Definition links_of (d : option Document) : option (list Link) :=
  match d with Some d => doc_links d | None => None end.
Definition nodes_of (d : option Document) : option (list Node) :=
  match d with Some d => doc_nodes d | None => None end.

Definition link (source target relation scope ref_text : string)
  (confidence : Q) : Link :=
  mkLink source target relation scope ref_text confidence.

(** The text of the node with identifier [id], searched in document order. *)
Definition text_of (id : string) (d : option Document) : option string :=
  match nodes_of d with
  | Some (root :: _) =>
      option_map node_text
        (find (fun n => String.eqb (node_id n) id) (flatten_nodes root))
  | _ => None
  end.

(** The text of the repository's double-letter test. *)
Definition complex_text : string :=
  "26 U.S.C. ยง 999 Sample." ++ nl
  ++ "(a) Subsection." ++ nl
  ++ "(1) Paragraph." ++ nl
  ++ "(A) Subparagraph." ++ nl
  ++ "(i) Clause." ++ nl
  ++ "(aa) Item text." ++ nl
  ++ "(AA) Subitem text." ++ nl.

(** The level of the first node, in document order, with the given label. *)
Definition level_of (label : string) (d : option Document) : option string :=
  match nodes_of d with
  | Some (root :: _) =>
      option_map node_level
        (find (fun n => String.eqb (node_label n) label) (flatten_nodes root))
  | _ => None
  end.

(** The element tree of the repository's markup test. *)
Definition uslm (name : string) (text : option string)
  (children : list Element) : Element :=
  mkElement (USLM_NS ++ name) text None children.
Definition uslm_snippet : Element :=
  uslm "section" None
    [ uslm "num" (Some "Sec. 999.") [];
      uslm "heading" (Some "Sample heading") [];
      uslm "content" None
        [ uslm "subsection" None
            [ uslm "num" (Some "(a)") [];
              uslm "heading" (Some "In general") [];
              uslm "content" None
                [ uslm "paragraph" None
                    [ uslm "num" (Some "(1)") [];
                      uslm "content" (Some "Ordinary expenses.") [] ] ] ] ] ].

(** A document whose title is itself a reference phrase; [parse] returns it
    in the markup encoding for the hint "usc:section 9 x:1". *)
Definition phrase_title_doc : Document :=
  mkDocument (Some "usc:section 9 x:1") (Some "statute")
    (Some (mkSource "USC" (TStr "section 9 x") "1")) (Some None)
    (Some [mkNode "usc:section 9 x:1" "" "section" None
                  "See section 9 for details." []])
    (Some []) (Some (JArr [])) (Some (JObj [])).




End Scenario.

(* ------------------------------------------------------------------ *)
(** ** Vocabulary of the further properties *)

Module MatchProps.
Import Re.

(** Every character class of the pattern is inside [q]. *)
Fixpoint class_ok (q : ascii -> bool) (r : regex) : Prop :=
  match r with
  | Chr p => forall c, p c = true -> q c = true
  | Cat r1 r2 | Alt r1 r2 => class_ok q r1 /\ class_ok q r2
  | Star r' | Grp _ r' => class_ok q r'
  | _ => True
  end.

(** Between [st] and [st'] the matcher has read a run of characters of [q]. *)
Definition consumed (q : ascii -> bool) (st st' : mstate) : Prop :=
  exists xs,
    ms_rest st = xs ++ ms_rest st' /\ Py.all_chars q xs = true /\
    ms_pos st' = ms_pos st + String.length xs.

(** The text that a match object spans inside the subject. *)
Definition spans_text (s : string) (m : rmatch_obj) : Prop :=
  exists pre xs post,
    s = pre ++ xs ++ post /\ m_start m = String.length pre /\
    m_end m = String.length pre + String.length xs /\ group 0 m = Some xs.

End MatchProps.

Module LabelProps.
Import Re ParseStatute ResolveLinks.
(** What a pattern reads, when every text it can match satisfies [Q]. *)
Definition reads (Q : string -> Prop) (body : regex) : Prop :=
  forall st k res,
    rmatch body st k = Some res ->
    exists st' xs,
      k st' = Some res /\ ms_rest st = xs ++ ms_rest st' /\
      ms_pos st' = ms_pos st + String.length xs /\ Q xs.

Definition is_alnum (c : ascii) : bool := Py.is_alpha c || Py.is_digit c.

(** A run of one or more characters of [p], exactly [n] of them if [n] is
    given. *)
Definition run_of (p : ascii -> bool) (n : option nat) (xs : string) : Prop :=
  Py.nonempty xs = true /\ Py.all_chars p xs = true /\
  match n with Some k => String.length xs = k | None => True end.

(** The character class and the number of characters of the label that
    each pattern of [LABEL_PATTERNS] reads, in the order of the patterns. *)
Definition LABEL_CLASSES : list (string * ((ascii -> bool) * option nat)) :=
  [ ("item", (Py.is_lower, Some 2)); ("subitem", (Py.is_upper, Some 2));
    ("clause", (in_set "ivxlcdm", None));
    ("subclause", (in_set "IVXLCDM", None));
    ("paragraph", (Py.is_digit, None));
    ("subparagraph", (Py.is_upper, Some 1));
    ("subsection", (Py.is_lower, Some 1)) ].
(** The resolver's predicate for a level accepts the labels that the
    parser's pattern for that level reads. *)
Definition accepted (level label : string) : Prop :=
  exists predicate,
    dict_get level EXPECTED_LABEL_PREDICATES = Some predicate /\
    predicate label = true.

End LabelProps.

Module TreeProps.
Import ParseStatute.

(** The parent-child pairs of a tree. *)
Fixpoint edges (n : Node) : list (Node * Node) :=
  match n with
  | mkNode _ _ _ _ _ children =>
      app (map (pair n) children) (flat_map edges children)
  end.

(** [inner] is later in [LEVEL_ORDER] than [outer]. *)
Definition deeper (outer inner : string) : Prop :=
  exists i j,
    index_of outer LEVEL_ORDER = Some i /\
    index_of inner LEVEL_ORDER = Some j /\ i < j.

(** The child's identifier is the parent's followed by the child's label,
    and the child's level is deeper than the parent's. *)
Definition edge_ok (parent child : Node) : Prop :=
  node_id child = (node_id parent ++ node_label child)%string /\
  deeper (node_level parent) (node_level child).

Definition tree_ok (n : Node) : Prop :=
  Forall (fun e => edge_ok (fst e) (snd e)) (edges n).

(** Each open node fits the open node below it. *)
Fixpoint chain (stack : list Node) : Prop :=
  match stack with
  | child :: ((parent :: _) as below) => edge_ok parent child /\ chain below
  | _ => True
  end.

(** The label part that [make_node_id] derives from the stack. *)
Definition label_path (stack : list Node) : string :=
  Py.join "" (map (fun n => "(" ++ Py.strip_parens (node_label n) ++ ")")%string
                  (tl (rev stack))).

(** Every open node has the identifier that [make_node_id] would build on
    for its children. *)
Fixpoint ids_ok (base_id : string) (stack : list Node) : Prop :=
  match stack with
  | [] => True
  | top :: below =>
      node_id top = (base_id ++ label_path stack)%string /\
      ids_ok base_id below
  end.

(** The invariant of the line loop. *)
Definition text_inv (base_id : string) (stack : list Node) : Prop :=
  Spec.good_levels (Spec.levels stack) /\ ids_ok base_id stack /\
  Forall tree_ok stack /\ chain stack.

End TreeProps.

Module LinkProps.
Import Re ResolveLinks.

(** [detect_relation(text) or "see-also"] *)
Definition relation_of (text : string) : string :=
  match detect_relation text with
  | Some r => if Py.nonempty r then r else "see-also"
  | None => "see-also"
  end.

Definition RELATIONS : list string :=
  [ "for-purposes-of"; "subject-to"; "exception-to"; "notwithstanding";
    "definition-of"; "see-also" ].

(** The text has no phrase of any of the three reference patterns. *)
Definition no_reference (text : string) : Prop :=
  finditer REL_REF text = [] /\ finditer THIS_REF text = [] /\
  finditer ABS_REF text = [].

(** A link and its replacement as the loops of [resolve] make them from a
    match [m] in the text of [node]. *)
Definition made_from (node : Node) (m : rmatch_obj)
  (lr : Link * Replacement) : Prop :=
  lk_source (fst lr) = node_id node /\
  lk_relation (fst lr) = relation_of (node_text node) /\
  lk_ref_text (fst lr) = group_str 0 m /\
  snd lr = (m_start m, m_end m,
            pointer (lk_ref_text (fst lr)) (lk_target (fst lr))) /\
  ((lk_scope (fst lr) = "intra-section" /\
    (lk_confidence (fst lr) = 95 # 100 \/ lk_confidence (fst lr) = 9 # 10))
   \/ (lk_scope (fst lr) = "inter-section" /\
       lk_confidence (fst lr) = 95 # 100)).

(** The characters that the pointers of a list of links add to a text. *)
Definition pointer_length (links : list Link) : nat :=
  list_sum (map (fun l => String.length (lk_target l) + 5) links).

(** What a replacement adds to the length of the text. *)
Definition growth (rep : Replacement) : nat :=
  String.length (snd rep) - (snd (fst rep) - fst (fst rep)).

(** A replacement of a piece of a text of at least [n] characters by a
    text that is not shorter than the piece. *)
Definition rep_ok (n : nat) (rep : Replacement) : Prop :=
  fst (fst rep) <= snd (fst rep) /\ snd (fst rep) <= n /\
  snd (fst rep) - fst (fst rep) <= String.length (snd rep).

Definition title_root : Node :=
  mkNode "usc:section 9 x:1" "" "section" None "See section 9 for details." [].
Definition title_link : Link :=
  mkLink "usc:section 9 x:1" "usc:section 9 x:9" "see-also" "inter-section"
         "section 9" (95 # 100).

(** A section without any reference phrase. *)
Definition plain_root : Node :=
  mkNode "usc:26:1" "" "section" (Some "Tax imposed") ""
    [mkNode "usc:26:1(a)" "(a)" "subsection" None
            "There is hereby imposed a tax." []].
Definition plain_doc : Document :=
  mkDocument (Some "usc:26:1") (Some "statute")
    (Some (mkSource "USC" (TInt 26) "1")) (Some (Some "Tax imposed"))
    (Some [plain_root]) (Some []) (Some (JArr [])) (Some (JObj [])).

End LinkProps.

Module PathProps.
(** Each node of the path is a child of the node before it. *)
Fixpoint descends (path : list Node) : Prop :=
  match path with
  | a :: ((b :: _) as rest) => In b (node_children a) /\ descends rest
  | _ => True
  end.
End PathProps.

Module MarkupProps.
Import ParseStatute TreeProps.

(** The number of elements of a markup tree. *)
Fixpoint elem_size (e : Element) : nat :=
  match e with
  | mkElement _ _ _ children => S (list_sum (map elem_size children))
  end.

(** Every node's identifier is its parent's followed by its own label. *)
Definition ids_derived (n : Node) : Prop :=
  forall parent child,
    In (parent, child) (edges n) ->
    node_id child = (node_id parent ++ node_label child)%string.

(** The label is what [make_node_id] makes of it for the node's children. *)
Definition clean_label (n : Node) : Prop :=
  ("(" ++ Py.strip_parens (node_label n) ++ ")")%string = node_label n.

(** A node that [build_uslm_node] returns for the given stack. *)
Definition built_for (base_id : string) (stack : list Node) (node : Node)
  : Prop :=
  node_id node
  = (base_id
     ++ Py.join "" (map (fun n => "(" ++ Py.strip_parens (node_label n) ++ ")")
                        (tl stack))
     ++ node_label node)%string /\
  clean_label node /\ ids_derived node.

Definition head_free (p : ascii -> bool) (s : string) : Prop :=
  match s with String c _ => p c = false | EmptyString => True end.

End MarkupProps.

Module HeadingProps.
Import Re.
(** A full stop followed by a run of whitespace. *)
Definition stop_and_space (xs : string) : Prop :=
  exists ws,
    xs = String "." ws /\ Py.nonempty ws = true /\
    Py.all_chars Py.is_space ws = true.
End HeadingProps.

Module CueProps.
(** The phrase occurs in the text, in any letter case. *)
Definition contains_ci (phrase text : string) : Prop :=
  exists pre mid post,
    text = pre ++ mid ++ post /\ Py.lower mid = Py.lower phrase.

(** The cue phrases that are plain words, with their relations, in the
    order of [RELATION_CUES]. *)
Definition WORD_CUES : list (string * string) :=
  [ ("for-purposes-of", "for purposes of");
    ("subject-to", "subject to");
    ("exception-to", "except as provided");
    ("notwithstanding", "notwithstanding") ].
End CueProps.

Module TargetProps.
Import ParseStatute MarkupProps.

(** Along the path every node's identifier is the identifier of the node
    before it followed by its own label; [prev] is the node before the
    first. *)
Fixpoint id_chain (prev : Node) (path : list Node) : Prop :=
  match path with
  | [] => True
  | n :: rest =>
      node_id n = (node_id prev ++ node_label n)%string /\ id_chain n rest
  end.

(** A label as [new_node] writes it: not empty and unchanged by stripping
    and adding the parentheses again. *)
Definition written_label (n : Node) : Prop :=
  clean_label n /\ Py.nonempty (node_label n) = true.

Definition sec_162 : Node :=
  mkNode "usc:26:162" "" "section" None "" [].
Definition sec_162_a : Node :=
  mkNode "usc:26:162(a)" "(a)" "subsection" None "" [].
Definition sec_162_a_2 : Node :=
  mkNode "usc:26:162(a)(2)" "(2)" "paragraph" None "" [].

End TargetProps.

Module ThisRefProps.
Import Re ResolveLinks.

(** A subsection that refers to itself. *)
Definition this_child : Node :=
  mkNode "usc:26:1(a)" "(a)" "subsection" None
         "For purposes of this subsection, income is gross." [].
Definition this_root : Node :=
  mkNode "usc:26:1" "" "section" None "" [this_child].
Definition this_doc : Document :=
  mkDocument (Some "usc:26:1") (Some "statute")
    (Some (mkSource "USC" (TInt 26) "1")) (Some None)
    (Some [this_root]) (Some []) (Some (JArr [])) (Some (JObj [])).
Definition this_link : Link :=
  mkLink "usc:26:1(a)" "usc:26:1(a)" "for-purposes-of" "intra-section"
         "this subsection" (9 # 10).

End ThisRefProps.

Module DirectTextProps.
Import ParseStatute.

(** A level element without its text and children; the tag and the tail
    stay. *)
Definition emptied (c : Element) : Element :=
  mkElement (elem_tag c) None (elem_tail c) [].

(** The element with every level element below it emptied. *)
Fixpoint prune (e : Element) : Element :=
  match e with
  | mkElement tag text tail children =>
      mkElement tag text tail
        (map (fun c => if is_level c then emptied c else prune c) children)
  end.

End DirectTextProps.

Module WorkProps.
Import ParseStatute.

(** Work, type and identifier name the same body of law. *)
Definition same_work (id type : string) (source : Source) : Prop :=
  exists rest,
    (src_work source = "USC" /\ type = "statute" /\ id = "usc:" ++ rest)
    \/ (src_work source = "CFR" /\ type = "regulation" /\
        id = "cfr:" ++ rest).

Definition work_agrees (d : Document) : Prop :=
  exists id type source,
    doc_id d = Some id /\ doc_type d = Some type /\
    doc_source d = Some source /\ same_work id type source.

End WorkProps.

Module NormalizeProps.
Import Re ParseStatute.

(** [re.sub(r, repl, s)] read in one pass over the text: at a match the
    replacement is written and the matched characters are passed over,
    elsewhere the character is copied. *)
Fixpoint scan (r : regex) (repl : string) (prev : option ascii)
  (rest : string) (pos skip : nat) : string :=
  match skip with
  | S skip' =>
      match rest with
      | EmptyString => ""
      | String c rest' => scan r repl (Some c) rest' (S pos) skip'
      end
  | O =>
      match match_here r prev rest pos with
      | Some m =>
          repl ++ match rest with
                  | EmptyString => ""
                  | String c rest' =>
                      scan r repl (Some c) rest' (S pos)
                           (pred (m_end m - pos))
                  end
      | None =>
          match rest with
          | EmptyString => ""
          | String c rest' => String c (scan r repl (Some c) rest' (S pos) 0)
          end
      end
  end.

(** Every match of the pattern reads at least one character. *)
Definition advances (r : regex) : Prop :=
  forall prev rest pos m,
    match_here r prev rest pos = Some m -> pos < m_end m.

(** The three patterns of [normalize]. *)
Definition is_control (c : ascii) : bool :=
  Ascii.eqb c tab || Ascii.eqb c formfeed || Ascii.eqb c cr.
Definition CONTROL_RUN : regex := plus (Chr is_control).
Definition SPACE_RUN : regex := seq [chr " "; chr " "; Star (chr " ")].
Definition LINE_END : regex := Cat (opt (chr cr)) (chr newline).

Definition not_control (c : ascii) : bool := negb (is_control c).

(** No two spaces next to each other. *)
Fixpoint single_spaced (s : string) : bool :=
  match s with
  | EmptyString => true
  | String a s' =>
      match s' with
      | String b _ => negb (Ascii.eqb " " a && Ascii.eqb " " b)
      | EmptyString => true
      end && single_spaced s'
  end.

End NormalizeProps.

(* ------------------------------------------------------------------ *)
(** ** Induction on node trees *)

Section NodeInduction.

Variable P : Node -> Prop.
Hypothesis step :
  forall id label level heading text children,
    Forall P children -> P (mkNode id label level heading text children).

Fixpoint Node_forall_ind (n : Node) : P n :=
  match n with
  | mkNode id label level heading text children =>
      step id label level heading text children
        ((fix all (l : list Node) : Forall P l :=
            match l with
            | [] => Forall_nil P
            | c :: l' => Forall_cons c (Node_forall_ind c) (all l')
            end) children)
  end.

End NodeInduction.

(** Evaluate the matcher on a line whose first characters are known. *)
Ltac eval_re :=
  cbn -[Py.is_lower Py.is_upper Py.is_space Py.is_digit ParseStatute.in_set
        Re.plus].

(* ------------------------------------------------------------------ *)
(** ** Facts about the matcher *)

Section EngineFacts.
Import Re ParseStatute Spec.

Lemma star_loop_succ
  (step : mstate -> (mstate -> option mstate) -> option mstate)
  (n : nat) (st : mstate) (k : mstate -> option mstate) :
  star_loop step (S n) st k
  = match step st (fun st' => if Nat.ltb (ms_pos st) (ms_pos st')
                              then star_loop step n st' k else None) with
    | Some res => Some res
    | None => k st
    end.
Proof. reflexivity. Qed.

Lemma reaches_refl st : reaches st st.
Proof. split; lia. Qed.

Lemma reaches_trans st1 st2 st3 :
  reaches st1 st2 -> reaches st2 st3 -> reaches st1 st3.
Proof. unfold reaches. intros [? ?] [? ?]. split; lia. Qed.

Lemma star_loop_local step :
  local step -> forall n, local (star_loop step n).
Proof.
  intros Hs. induction n as [|n IH]; intros st k k' Hk; cbn [star_loop].
  - apply Hk, reaches_refl.
  - rewrite (Hs st _ (fun st' => if Nat.ltb (ms_pos st) (ms_pos st')
                                 then star_loop step n st' k' else None)).
    + rewrite (Hk st (reaches_refl st)). reflexivity.
    + intros st' Hr. destruct (Nat.ltb _ _); [|reflexivity].
      apply IH. intros st'' Hr'. apply Hk. eapply reaches_trans; eassumption.
Qed.

Lemma rmatch_local (r : regex) : local (rmatch r).
Proof.
  induction r as [|p|r1 IH1 r2 IH2|r1 IH1 r2 IH2|r IH|g r IH| | | |];
    intros st k k' Hk; cbn [rmatch].
  - apply Hk, reaches_refl.
  - destruct (ms_rest st) as [|c rest] eqn:E; [reflexivity|].
    destruct (p c); [|reflexivity].
    apply Hk. unfold reaches. cbn. rewrite E. cbn. lia.
  - apply IH1. intros st1 H1. apply IH2. intros st2 H2.
    apply Hk. eapply reaches_trans; eassumption.
  - rewrite (IH1 st k k' Hk), (IH2 st k k' Hk). reflexivity.
  - now apply star_loop_local.
  - apply IH. intros st1 H1. apply Hk.
    unfold reaches in *. cbn. exact H1.
  - destruct (Nat.eqb _ _); [apply Hk, reaches_refl | reflexivity].
  - destruct (ms_prev st) as [c|]; [destruct (Ascii.eqb c newline)|];
      try reflexivity; apply Hk, reaches_refl.
  - destruct (ms_rest st) as [|c rest]; [|destruct (Ascii.eqb c newline)];
      try reflexivity; apply Hk, reaches_refl.
  - destruct (xorb _ _); [apply Hk, reaches_refl | reflexivity].
Qed.

Lemma star_loop_none step :
  local step -> (forall st, step st (fun _ => None) = None) ->
  forall n st, star_loop step n st (fun _ => None) = None.
Proof.
  intros Hl Hs n. induction n as [|n IH]; intros st; cbn [star_loop];
    [reflexivity|].
  rewrite (Hl st _ (fun _ => None)); [now rewrite Hs|].
  intros st' _. destruct (Nat.ltb _ _); [apply IH | reflexivity].
Qed.

Lemma rmatch_none (r : regex) :
  forall st, rmatch r st (fun _ => None) = None.
Proof.
  induction r as [|p|r1 IH1 r2 IH2|r1 IH1 r2 IH2|r IH|g r IH| | | |];
    intros st; cbn [rmatch]; try reflexivity.
  - destruct (ms_rest st) as [|c rest]; [|destruct (p c)]; reflexivity.
  - rewrite (rmatch_local r1 st _ (fun _ => None)); [apply IH1|].
    intros st' _. apply IH2.
  - now rewrite IH1, IH2.
  - apply star_loop_none; [apply rmatch_local | exact IH].
  - apply IH.
  - now destruct (Nat.eqb _ _).
  - destruct (ms_prev st) as [c|]; [destruct (Ascii.eqb c newline)|];
      reflexivity.
  - destruct (ms_rest st) as [|c rest]; [|destruct (Ascii.eqb c newline)];
      reflexivity.
  - now destruct (xorb _ _).
Qed.

(** Once the bound of a star is the number of characters left, a larger
    bound changes nothing: the bound never cuts an iteration short. *)
Lemma star_loop_enough (r : regex) :
  forall n st k,
    String.length (ms_rest st) <= n ->
    star_loop (rmatch r) (S n) st k = star_loop (rmatch r) n st k.
Proof.
  induction n as [|n IH]; intros st k Hlen.
  - cbn [star_loop].
    rewrite (rmatch_local r st _ (fun _ => None)); [now rewrite rmatch_none|].
    intros st' [H1 H2].
    replace (Nat.ltb (ms_pos st) (ms_pos st')) with false; [reflexivity|].
    symmetry. apply Nat.ltb_ge. lia.
  - rewrite (star_loop_succ _ (S n)), (star_loop_succ _ n).
    rewrite (rmatch_local r st _
               (fun st' => if Nat.ltb (ms_pos st) (ms_pos st')
                           then star_loop (rmatch r) n st' k else None));
      [reflexivity|].
    intros st' [H1 H2].
    destruct (Nat.ltb (ms_pos st) (ms_pos st')) eqn:E; [|reflexivity].
    apply Nat.ltb_lt in E. apply IH. lia.
Qed.

Lemma star_bound_enough (r : regex) (st : mstate)
  (k : mstate -> option mstate) (extra : nat) :
  star_loop (rmatch r) (String.length (ms_rest st) + extra) st k
  = rmatch (Star r) st k.
Proof.
  cbn [rmatch]. induction extra as [|extra IH].
  - now rewrite Nat.add_0_r.
  - rewrite Nat.add_succ_r, star_loop_enough; [exact IH | lia].
Qed.

Lemma star_chr_inv (p : ascii -> bool) :
  forall n st k res,
    star_loop (rmatch (Chr p)) n st k = Some res ->
    exists xs st',
      Py.all_chars p xs = true /\ ms_rest st = xs ++ ms_rest st' /\
      ms_pos st' = ms_pos st + String.length xs /\
      ms_caps st' = ms_caps st /\ k st' = Some res.
Proof.
  induction n as [|n IH]; intros st k res H; cbn in H.
  - exists "", st. cbn. rewrite Nat.add_0_r. auto.
  - destruct (ms_rest st) as [|c rest] eqn:Hrest.
    + exists "", st. cbn. rewrite Nat.add_0_r, Hrest. auto.
    + destruct (p c) eqn:Hp.
      * rewrite Nat.leb_refl in H.
        destruct (star_loop _ n _ k) as [res'|] eqn:Hl.
        -- injection H as <-.
           apply IH in Hl. destruct Hl as [xs [st' [Ha [Hr [Hpos [Hc Hk]]]]]].
           cbn in Hr, Hpos, Hc.
           exists (String c xs), st'. cbn. rewrite Hp, Ha, Hr, Hpos.
           repeat split; auto; lia.
        -- exists "", st. cbn. rewrite Nat.add_0_r, Hrest. auto.
      * exists "", st. cbn. rewrite Nat.add_0_r, Hrest. auto.
Qed.

Lemma plus_chr_inv (p : ascii -> bool) (st : mstate)
  (k : mstate -> option mstate) (res : mstate) :
  rmatch (plus (Chr p)) st k = Some res ->
  exists xs st',
    Py.nonempty xs = true /\ Py.all_chars p xs = true /\
    ms_rest st = xs ++ ms_rest st' /\
    ms_pos st' = ms_pos st + String.length xs /\
    ms_caps st' = ms_caps st /\ k st' = Some res.
Proof.
  cbn. destruct (ms_rest st) as [|c rest] eqn:Hrest; [discriminate|].
  destruct (p c) eqn:Hp; [|discriminate].
  intros H. apply star_chr_inv in H.
  destruct H as [xs [st' [Ha [Hr [Hpos [Hc Hk]]]]]]. cbn in Hr, Hpos, Hc.
  exists (String c xs), st'. cbn. rewrite Hp, Ha, Hr, Hpos.
  repeat split; auto; lia.
Qed.

Lemma frame_refl gs st : frame gs st st.
Proof. intros g _. reflexivity. Qed.

Lemma frame_trans gs1 gs2 st1 st2 st3 :
  frame gs1 st1 st2 -> frame gs2 st2 st3 -> frame (gs1 ++ gs2)%list st1 st3.
Proof.
  intros H1 H2 g Hg. rewrite H2, H1; auto;
    intros Hin; apply Hg, in_or_app; auto.
Qed.

Lemma star_frame (gs : list nat)
  (step : mstate -> (mstate -> option mstate) -> option mstate) :
  (forall st k res, step st k = Some res ->
                    exists st', k st' = Some res /\ frame gs st st') ->
  forall n st k res,
    star_loop step n st k = Some res ->
    exists st', k st' = Some res /\ frame gs st st'.
Proof.
  intros Hstep. induction n as [|n IH]; intros st k res H.
  - exists st. split; [assumption | apply frame_refl].
  - rewrite star_loop_succ in H.
    destruct (step st _) as [res'|] eqn:Hs.
    + injection H as <-. apply Hstep in Hs.
      destruct Hs as [st1 [Hk1 F1]].
      destruct (Nat.ltb (ms_pos st) (ms_pos st1)); [|discriminate].
      apply IH in Hk1. destruct Hk1 as [st2 [Hk2 F2]].
      exists st2. split; [assumption|].
      intros g Hg. rewrite F2, F1; auto.
    + exists st. split; [assumption | apply frame_refl].
Qed.

Lemma rmatch_frame (r : regex) :
  forall st k res,
    rmatch r st k = Some res ->
    exists st', k st' = Some res /\ frame (groups r) st st'.
Proof.
  induction r as [|p|r1 IH1 r2 IH2|r1 IH1 r2 IH2|r IH|g r IH| | | |];
    intros st k res H; cbn [rmatch groups] in *.
  - exists st. split; [assumption | apply frame_refl].
  - destruct (ms_rest st) as [|c rest]; [discriminate|].
    destruct (p c); [|discriminate].
    eexists. split; [eassumption|]. intros g _. reflexivity.
  - apply IH1 in H. destruct H as [st1 [H F1]].
    apply IH2 in H. destruct H as [st2 [H F2]].
    exists st2. split; [assumption | eapply frame_trans; eassumption].
  - destruct (rmatch r1 st k) as [res'|] eqn:H1.
    + injection H as <-. apply IH1 in H1. destruct H1 as [st1 [H F1]].
      exists st1. split; [assumption|].
      intros g Hg. apply F1. intros Hin. apply Hg, in_or_app. auto.
    + apply IH2 in H. destruct H as [st1 [H F1]].
      exists st1. split; [assumption|].
      intros g Hg. apply F1. intros Hin. apply Hg, in_or_app. auto.
  - eapply star_frame; [exact IH | exact H].
  - apply IH in H. destruct H as [st1 [H F1]].
    exists (set_cap g st st1). split; [assumption|].
    intros g' Hg'. cbn.
    destruct (Nat.eqb g' g) eqn:E.
    + apply Nat.eqb_eq in E. subst. exfalso. apply Hg'. now left.
    + apply F1. intros Hin. apply Hg'. now right.
  - destruct (Nat.eqb (ms_pos st) 0); [|discriminate].
    exists st. split; [assumption | apply frame_refl].
  - destruct (ms_prev st) as [c|].
    + destruct (Ascii.eqb c newline); [|discriminate].
      exists st. split; [assumption | apply frame_refl].
    + exists st. split; [assumption | apply frame_refl].
  - destruct (ms_rest st) as [|c rest].
    + exists st. split; [assumption | apply frame_refl].
    + destruct (Ascii.eqb c newline); [|discriminate].
      exists st. split; [assumption | apply frame_refl].
  - destruct (xorb _ _); [|discriminate].
    exists st. split; [assumption | apply frame_refl].
Qed.

Lemma search_from_here (r : regex) :
  forall rest prev pos m,
    search_from r prev rest pos = Some m ->
    exists prev' rest' pos', match_here r prev' rest' pos' = Some m.
Proof.
  induction rest as [|c rest IH]; intros prev pos m; cbn [search_from];
    destruct (match_here r prev _ pos) as [m'|] eqn:Hm.
  - intros [= <-]. eauto.
  - discriminate.
  - intros [= <-]. eauto.
  - apply IH.
Qed.

Lemma take_app_length (xs t : string) :
  Py.take (String.length xs) (xs ++ t) = xs.
Proof. induction xs as [|c xs IH]; cbn; [destruct t|]; congruence. Qed.

(** The first group of a pattern that starts with [^(p+)] is a non-empty
    run of characters of the class. *)
Lemma leading_group_class (p : ascii -> bool) (R : regex)
  (prev : option ascii) (rest : string) (pos : nat) (m : rmatch_obj) :
  ~ In 1 (groups R) ->
  match_here (Cat BolM (Cat (Grp 1 (plus (Chr p))) R)) prev rest pos = Some m ->
  Py.nonempty (group_str 1 m) = true /\
  Py.all_chars p (group_str 1 m) = true.
Proof.
  intros Hg. unfold match_here.
  destruct (rmatch _ _ _) as [res|] eqn:H; [|discriminate].
  intros [= <-].
  cbn [rmatch ms_prev] in H.
  assert (H1 : rmatch (plus (Chr p)) (mkState prev rest pos [])
                 (fun st' => rmatch R (set_cap 1 (mkState prev rest pos []) st')
                    (fun st3 => Some (set_cap 0 (mkState prev rest pos []) st3)))
               = Some res).
  { destruct prev as [c|]; [destruct (Ascii.eqb c newline)|];
      try discriminate; exact H. }
  clear H. apply plus_chr_inv in H1.
  destruct H1 as [xs [st' [Hne [Hall [Hrest [Hpos [Hcaps H]]]]]]].
  apply rmatch_frame in H. destruct H as [st3 [[= <-] F]].
  unfold group_str, group. cbn [m_caps ms_caps set_cap cap_lookup Nat.eqb].
  rewrite (F 1 Hg). cbn [ms_caps set_cap cap_lookup Nat.eqb option_map snd
                          ms_pos ms_rest] in *.
  rewrite Hpos, Hrest.
  replace (pos + String.length xs - pos) with (String.length xs) by lia.
  rewrite take_app_length. auto.
Qed.

(** [int] returns on a string of digits within the interpreter's limit, and
    raises beyond it. *)
Lemma int_of_digits (s : string) :
  Py.nonempty s = true -> Py.all_chars Py.is_digit s = true ->
  String.length s <= Py.int_max_str_digits ->
  exists t, Py.int s = Some t.
Proof.
  intros Hn Ha Hl. unfold Py.int, Py.isdigit. rewrite Hn, Ha.
  rewrite (proj2 (Nat.leb_le _ _) Hl). cbn. eauto.
Qed.

Lemma int_beyond_limit (s : string) :
  Py.int_max_str_digits < String.length s -> Py.int s = None.
Proof.
  intros Hl. unfold Py.int.
  rewrite (proj2 (Nat.leb_gt _ _) Hl). now rewrite andb_false_r.
Qed.

Lemma header_usc_title (text : string) (m : rmatch_obj) :
  search HEADER_USC text = Some m ->
  String.length (group_str 1 m) <= Py.int_max_str_digits ->
  exists t, Py.int (group_str 1 m) = Some t.
Proof.
  intros H Hl. apply search_from_here in H.
  destruct H as [prev [rest [pos H]]].
  apply leading_group_class in H.
  - destruct H. now apply int_of_digits.
  - cbn. intuition discriminate.
Qed.

Lemma header_cfr_title (text : string) (m : rmatch_obj) :
  search HEADER_CFR text = Some m ->
  String.length (group_str 1 m) <= Py.int_max_str_digits ->
  exists t, Py.int (group_str 1 m) = Some t.
Proof.
  intros H Hl. apply search_from_here in H.
  destruct H as [prev [rest [pos H]]].
  apply leading_group_class in H.
  - destruct H. now apply int_of_digits.
  - cbn. intuition discriminate.
Qed.

End EngineFacts.

(* ------------------------------------------------------------------ *)
(** ** What text mode returns, and when *)

Section TextMode.
Import Re ParseStatute Spec.

Lemma first_label_level (pats : list (string * regex)) (line : string) :
  forall level label pos,
    first_label pats line = (Some level, label, pos) ->
    In level (map fst pats).
Proof.
  induction pats as [|[lv pat] pats IH]; intros level label pos; cbn.
  - discriminate.
  - destruct (match_ pat line).
    + intros [= <- _ _]. now left.
    + intros H. right. eapply IH, H.
Qed.

Lemma labelled_known (line level label : string) (pos : nat) :
  labelled line = Some (level, label, pos) ->
  index_of level LEVEL_ORDER <> None.
Proof.
  unfold labelled, detect_label.
  destruct (first_label LABEL_PATTERNS line) as [[[lv|] [lb|]] ps] eqn:H;
    try discriminate.
  destruct (Py.nonempty lv && Py.nonempty lb); [|discriminate].
  intros [= <- _ _].
  apply first_label_level in H. cbn in H.
  destruct H as [<-|[<-|[<-|[<-|[<-|[<-|[<-|[]]]]]]]]; discriminate.
Qed.

Lemma good_levels_nonempty (ls : list string) : good_levels ls -> ls <> [].
Proof. intros [_ H] ->. discriminate. Qed.

Lemma good_levels_tail (l : string) (ls : list string) :
  ls <> [] -> good_levels (l :: ls) -> good_levels ls.
Proof.
  intros Hne [HF HL]. split.
  - now inversion HF.
  - destruct ls; [contradiction | exact HL].
Qed.

Lemma good_levels_cons (l : string) (ls : list string) :
  index_of l LEVEL_ORDER <> None -> good_levels ls -> good_levels (l :: ls).
Proof.
  intros Hl [HF HL]. split.
  - now constructor.
  - destruct ls; [discriminate | exact HL].
Qed.

Lemma level_add_child (parent child : Node) :
  node_level (add_child parent child) = node_level parent.
Proof. now destruct parent. Qed.

Lemma level_set_text (t : string) (n : Node) :
  node_level (set_text t n) = node_level n.
Proof. now destruct n. Qed.

Lemma pop_while_ok (level_idx : nat) :
  forall below top,
    good_levels (levels (top :: below)) ->
    exists stack',
      pop_while level_idx top below = Some stack' /\
      good_levels (levels stack').
Proof.
  induction below as [|parent rest IH]; intros top Hg; cbn [pop_while].
  - eauto.
  - destruct (index_of (node_level top) LEVEL_ORDER) as [i|] eqn:Hi.
    + destruct (level_idx <=? i)%nat; [|eauto].
      apply IH. cbn [levels map]. rewrite level_add_child.
      apply (good_levels_tail (node_level top)); [discriminate | exact Hg].
    + destruct Hg as [HF _]. inversion HF; contradiction.
Qed.

Lemma step_ok (base_id header_line : string) (stack : list Node)
  (line : string) :
  good_levels (levels stack) ->
  exists stack',
    step base_id header_line stack line = Some stack' /\
    good_levels (levels stack').
Proof.
  intros Hg. unfold step.
  destruct (String.eqb _ _); [eauto|].
  destruct stack as [|top below];
    [exfalso; now apply (good_levels_nonempty _ Hg)|].
  destruct (labelled line) as [[[level label] pos]|] eqn:Hl.
  - pose proof (labelled_known _ _ _ _ Hl) as Hk.
    destruct (index_of level LEVEL_ORDER) as [level_idx|] eqn:Hi;
      [|contradiction].
    destruct (pop_while_ok level_idx below top Hg) as [stack' [-> Hg']].
    destruct (heading_and_body _) as [heading_text body_text].
    eexists. split; [reflexivity|].
    cbn [levels map].
    replace (node_level _) with level.
    + apply good_levels_cons; [rewrite Hi; discriminate | exact Hg'].
    + destruct (Py.nonempty _); [|rewrite level_set_text]; reflexivity.
  - assert (Ht : forall t, good_levels (levels (set_text t top :: below))).
    { intros t. cbn [levels map]. now rewrite level_set_text. }
    destruct (Py.nonempty (Py.strip line)); [|eauto].
    destruct (Py.nonempty (node_text top)); eauto.
Qed.

Lemma run_lines_ok (base_id header_line : string) (lines : list string) :
  forall stack,
    good_levels (levels stack) ->
    exists stack',
      run_lines base_id header_line stack lines = Some stack' /\
      good_levels (levels stack').
Proof.
  induction lines as [|line lines IH]; intros stack Hg; cbn [run_lines].
  - eauto.
  - destruct (step_ok base_id header_line stack line Hg) as [stack' [-> Hg']].
    now apply IH.
Qed.

Lemma close_all_level :
  forall below top,
    node_level (close_all top below) = last (levels (top :: below)) "".
Proof.
  induction below as [|parent rest IH]; intros top; [reflexivity|].
  cbn [close_all]. rewrite IH. cbn [levels map]. now rewrite level_add_child.
Qed.

Lemma build_text_ok (text base_id doc_type : string) (source : Source)
  (heading : option string) (header_line : string) :
  exists r,
    build_text text base_id doc_type source heading header_line = Some r /\
    built r.
Proof.
  unfold build_text.
  destruct (run_lines_ok base_id header_line
              (filter (fun ln => Py.nonempty (Py.strip ln))
                      (Py.split_on newline text))
              [mkNode base_id "" "section" heading "" []])
    as [stack' [-> Hg]].
  { split; [repeat constructor; discriminate | reflexivity]. }
  destruct stack' as [|top below];
    [exfalso; now apply (good_levels_nonempty _ Hg)|].
  eexists. split; [reflexivity|].
  repeat split. eexists. split; [reflexivity|].
  rewrite close_all_level. apply Hg.
Qed.

Lemma build_text_built (text base_id doc_type : string) (source : Source)
  (heading : option string) (header_line : string) (r : ParseResult) :
  build_text text base_id doc_type source heading header_line = Some r ->
  built r.
Proof.
  intros H.
  destruct (build_text_ok text base_id doc_type source heading header_line)
    as [r' [H' Hb]].
  rewrite H in H'. now injection H' as <-.
Qed.

(** What text mode returns, when it returns. *)
Lemma parse_text_shape (source_text source_type citation_hint : string)
  (r : ParseResult) :
  parse_text source_text source_type citation_hint = Some r ->
  match header_match source_type (normalize source_text) with
  | Some _ => built r
  | None => r = degraded_text source_type citation_hint
  end.
Proof.
  unfold parse_text, header_match.
  destruct (m_cfr source_type (normalize source_text)) as [m|].
  - destruct (Py.int _); [|discriminate]. apply build_text_built.
  - destruct (m_usc source_type (normalize source_text)) as [m|].
    + destruct (Py.int _); [|discriminate]. apply build_text_built.
    + now intros [= <-].
Qed.

Lemma header_match_search (source_type text : string) (m : rmatch_obj) :
  header_match source_type text = Some m ->
  search HEADER_CFR text = Some m \/ search HEADER_USC text = Some m.
Proof.
  unfold header_match, m_cfr, m_usc.
  destruct (String.eqb (Py.upper source_type) "CFR"); cbn [negb].
  - destruct (search HEADER_CFR text); [now left | discriminate].
  - now right.
Qed.

(** Text mode returns when the title of the header is within the limit of
    [int], and raises when it is beyond it. *)
Lemma parse_text_ok (source_text source_type citation_hint : string) :
  title_within_limit source_type (normalize source_text) ->
  exists r, parse_text source_text source_type citation_hint = Some r.
Proof.
  intros Hlim. unfold title_within_limit in Hlim.
  unfold parse_text.
  destruct (header_match source_type (normalize source_text)) as [m|] eqn:Hm.
  - pose proof (Hlim m eq_refl) as Hl.
    assert (Ht : exists t, Py.int (group_str 1 m) = Some t).
    { destruct (header_match_search _ _ _ Hm) as [H|H];
        [now apply (header_cfr_title _ _ H)
        | now apply (header_usc_title _ _ H)]. }
    destruct Ht as [t Ht]. unfold header_match in Hm.
    destruct (m_cfr source_type (normalize source_text)) as [m'|].
    + injection Hm as ->. rewrite Ht.
      destruct (build_text_ok (normalize source_text)
                  ("cfr:" ++ group_str 1 m ++ ":" ++ group_str 2 m)
                  "regulation" (mkSource "CFR" (TInt t) (group_str 2 m))
                  (strip_or_none (group_str 3 m)) (group_str 0 m))
        as [r [Hr _]].
      eauto.
    + rewrite Hm, Ht.
      destruct (build_text_ok (normalize source_text)
                  ("usc:" ++ group_str 1 m ++ ":" ++ group_str 3 m)
                  "statute" (mkSource "USC" (TInt t) (group_str 3 m))
                  (strip_or_none (group_str 4 m)) (group_str 0 m))
        as [r [Hr _]].
      eauto.
  - unfold header_match in Hm.
    destruct (m_cfr source_type (normalize source_text)); [discriminate|].
    rewrite Hm. eauto.
Qed.

Lemma parse_text_raises (source_text source_type citation_hint : string)
  (m : rmatch_obj) :
  header_match source_type (normalize source_text) = Some m ->
  Py.int_max_str_digits < String.length (group_str 1 m) ->
  parse_text source_text source_type citation_hint = None.
Proof.
  intros Hm Hl. apply int_beyond_limit in Hl.
  unfold parse_text. unfold header_match in Hm.
  destruct (m_cfr source_type (normalize source_text)) as [m'|].
  - injection Hm as ->. now rewrite Hl.
  - rewrite Hm. now rewrite Hl.
Qed.

End TextMode.

(* ------------------------------------------------------------------ *)
(** ** The shape of returned documents *)

Section MarkupMode.
Import Re ParseStatute Spec.

Lemma level_fold_children (f : Node -> Element -> option Node)
  (children : list Element) :
  forall node,
    node_level
      (fold_left (fun node child =>
                    match f node child with
                    | Some built => add_child node built
                    | None => node
                    end) children node)
    = node_level node.
Proof.
  induction children as [|c cs IH]; intros node; cbn [fold_left];
    [reflexivity|].
  rewrite IH. destruct (f node c); [apply level_add_child | reflexivity].
Qed.

(** What markup mode returns, when it returns. *)
Lemma parse_uslm_shape (fromstring : string -> option Element)
  (source_text source_type citation_hint : string) (r : ParseResult) :
  parse_uslm fromstring source_text source_type citation_hint = Some r ->
  r = degraded_uslm source_type citation_hint \/ built r.
Proof.
  unfold parse_uslm.
  destruct (fromstring source_text) as [root|]; [|intros [= <-]; now left].
  destruct (if negb _ then find_section root else Some root) as [section|];
    [|intros [= <-]; now left].
  destruct (metadata_from_hint citation_hint source_type)
    as [[[[base_id doc_type] source] heading_hint]|]; [|discriminate].
  intros [= <-]. right.
  repeat split. eexists. split; [reflexivity|].
  destruct (find_child "content" section) as [c|]; [|reflexivity].
  apply (level_fold_children
           (fun node child => build_uslm_node child base_id [node])).
Qed.

Lemma degraded_text_shape (source_type citation_hint : string) :
  degraded (document (degraded_text source_type citation_hint)).
Proof.
  unfold degraded. cbn.
  split; [do 3 eexists; repeat split | repeat split].
Qed.

Lemma degraded_uslm_shape (source_type citation_hint : string) :
  degraded (document (degraded_uslm source_type citation_hint)).
Proof.
  unfold degraded. cbn.
  split; [do 3 eexists; repeat split | repeat split].
Qed.

(** C4, as the claim has it, fails: a header whose title has 4301 digits
    is recognised, and [parse] raises the [ValueError] of [int]. *)
Lemma long_title_raises :
  (exists m,
     header_match "USC" (normalize Scenario.long_title_text) = Some m /\
     group_str 1 m = Scenario.long_title) /\
  parse Scenario.no_xml Scenario.long_title_text "USC" "" "text" = None.
Proof.
  split; [eexists; split; vm_compute; reflexivity|].
  vm_compute. reflexivity.
Qed.

(** C4, amended.  In text mode, when the title of a recognised header is
    within the limit of [int], [parse] returns.  When the header pattern
    that the source type selects matches the normalised text, the
    manual-assist flag is off and [nodes] is one root node of level section;
    when it does not match, the flag is on and [nodes] is empty.  When the
    title of the recognised header is beyond the limit, [parse] raises. *)
Theorem parse_text_mode (fromstring : string -> option Element)
  (source_text source_type citation_hint input_format : string) :
  Py.lower input_format <> "uslm" ->
  (title_within_limit source_type (normalize source_text) ->
   exists r,
     parse fromstring source_text source_type citation_hint input_format
       = Some r /\
     match header_match source_type (normalize source_text) with
     | Some _ =>
         needs_llm_assist r = false /\
         exists root,
           doc_nodes (document r) = Some [root] /\ node_level root = "section"
     | None =>
         needs_llm_assist r = true /\ doc_nodes (document r) = Some []
     end) /\
  (forall m,
     header_match source_type (normalize source_text) = Some m ->
     Py.int_max_str_digits < String.length (group_str 1 m) ->
     parse fromstring source_text source_type citation_hint input_format
       = None).
Proof.
  intros Hfmt. unfold parse.
  destruct (String.eqb (Py.lower input_format) "uslm") eqn:E;
    [apply String.eqb_eq in E; contradiction|].
  split.
  - intros Hlim.
    destruct (parse_text_ok source_text source_type citation_hint Hlim)
      as [r Hr].
    exists r. split; [exact Hr|].
    apply parse_text_shape in Hr.
    destruct (header_match source_type (normalize source_text)).
    + destruct Hr as [Hn [_ [_ Hroot]]]. now split.
    + subst r. now split.
  - intros m Hm Hl. now apply (parse_text_raises _ _ _ m).
Qed.

Lemma parse_text_mode_witness :
  Py.lower "text" <> "uslm" /\
  title_within_limit "USC" (normalize Scenario.two_level_text) /\
  exists r,
    parse Scenario.no_xml Scenario.two_level_text "USC" "" "text" = Some r /\
    match header_match "USC" (normalize Scenario.two_level_text) with
    | Some _ =>
        needs_llm_assist r = false /\
        exists root,
          doc_nodes (document r) = Some [root] /\ node_level root = "section"
    | None =>
        needs_llm_assist r = true /\ doc_nodes (document r) = Some []
    end.
Proof.
  assert (Hlim : title_within_limit "USC" (normalize Scenario.two_level_text)).
  { intros m Hm. vm_compute in Hm. injection Hm as <-.
    apply Nat.leb_le. vm_compute. reflexivity. }
  split; [discriminate|]. split; [exact Hlim|].
  apply (parse_text_mode Scenario.no_xml Scenario.two_level_text "USC" ""
           "text"); [discriminate | exact Hlim].
Defined.

(** C3, as the claim has it, fails: the document that text mode returns
    when no header matches has neither [spans] nor [meta]. *)
Lemma degraded_has_no_spans :
  exists r,
    parse Scenario.no_xml "no header here" "USC" "" "text" = Some r /\
    needs_llm_assist r = true /\
    doc_spans (document r) = None /\ doc_meta (document r) = None.
Proof.
  eexists. split; [vm_compute; reflexivity|]. repeat split.
Qed.

(** C3, amended.  A document that [parse] returns with the manual-assist
    flag off, in either encoding, has [spans] as the empty list and [meta]
    as the empty dictionary.  A document returned with the flag on has the
    keys [id], [type], [source] and [nodes], the last one empty, and no
    other: neither [spans] nor [meta], and no [heading] and no [links]. *)
Theorem parse_spans_meta (fromstring : string -> option Element)
  (source_text source_type citation_hint input_format : string)
  (r : ParseResult) :
  parse fromstring source_text source_type citation_hint input_format
    = Some r ->
  (needs_llm_assist r = false ->
   doc_spans (document r) = Some (JArr []) /\
   doc_meta (document r) = Some (JObj [])) /\
  (needs_llm_assist r = true -> degraded (document r)).
Proof.
  unfold parse.
  destruct (String.eqb (Py.lower input_format) "uslm"); intros Hr.
  - apply parse_uslm_shape in Hr. destruct Hr as [->|Hb].
    + split; [discriminate | intros _; apply degraded_uslm_shape].
    + destruct Hb as [Hn [Hs [Hm _]]]. split; [now split|].
      rewrite Hn. discriminate.
  - apply parse_text_shape in Hr.
    destruct (header_match source_type (normalize source_text)).
    + destruct Hr as [Hn [Hs [Hm _]]]. split; [now split|].
      rewrite Hn. discriminate.
    + subst r. split; [discriminate | intros _; apply degraded_text_shape].
Qed.

Lemma parse_spans_meta_witness :
  (exists r,
     parse Scenario.no_xml Scenario.two_level_text "USC" "" "text" = Some r /\
     needs_llm_assist r = false /\
     doc_spans (document r) = Some (JArr []) /\
     doc_meta (document r) = Some (JObj [])) /\
  (exists r,
     parse (fun _ => Some (Scenario.uslm "doc" None [])) "" "USC" "" "uslm"
       = Some r /\
     needs_llm_assist r = true /\ degraded (document r)).
Proof.
  split.
  - eexists. split; [vm_compute; reflexivity|]. split; [reflexivity|].
    apply (parse_spans_meta Scenario.no_xml Scenario.two_level_text "USC" ""
             "text"); [vm_compute; reflexivity | reflexivity].
  - eexists. split; [vm_compute; reflexivity|]. split; [reflexivity|].
    apply (parse_spans_meta (fun _ => Some (Scenario.uslm "doc" None [])) ""
             "USC" "" "uslm"); [vm_compute; reflexivity | reflexivity].
Defined.

End MarkupMode.

(* ------------------------------------------------------------------ *)
(** ** Label classification *)

Section Labels.
Import Re ParseStatute Spec.

Lemma upper_not_lower (c : ascii) : Py.is_upper c = true -> Py.is_lower c = false.
Proof.
  unfold Py.is_upper, Py.is_lower, Py.between.
  rewrite andb_true_iff, andb_false_iff, !Nat.leb_le, !Nat.leb_gt. lia.
Qed.

Lemma lower_not_upper (c : ascii) : Py.is_lower c = true -> Py.is_upper c = false.
Proof.
  unfold Py.is_upper, Py.is_lower, Py.between.
  rewrite andb_true_iff, andb_false_iff, !Nat.leb_le, !Nat.leb_gt. lia.
Qed.

Lemma item_label (a b w : ascii) (rest : string) :
  Py.is_lower a = true -> Py.is_lower b = true -> Py.is_space w = true ->
  detect_label (String "(" (String a (String b (String ")" (String w rest)))))
  = (Some "item", Some (String a (String b "")), 5).
Proof.
  intros Ha Hb Hw.
  unfold detect_label, LABEL_PATTERNS. cbn [first_label].
  unfold match_, match_here, label_pattern.
  cbn -[Py.is_lower Py.is_upper Py.is_space].
  rewrite Ha. cbn -[Py.is_lower Py.is_upper Py.is_space].
  rewrite Hb. cbn -[Py.is_lower Py.is_upper Py.is_space].
  rewrite Hw. cbn -[Py.is_lower Py.is_upper Py.is_space].
  reflexivity.
Qed.

Lemma roman_char (c : ascii) :
  in_set "ivxlcdm" c = true ->
  Py.is_lower c = true /\ Py.is_upper c = false /\ Ascii.eqb ")" c = false.
Proof.
  unfold in_set. cbn [Py.all_chars].
  rewrite negb_true_iff, !andb_false_iff, !negb_false_iff.
  intros H.
  repeat (destruct H as [H|H]; [apply Ascii.eqb_eq in H; subst c;
                                repeat split; reflexivity|]).
  discriminate.
Qed.

Lemma length_append (a b : string) :
  String.length (a ++ b) = String.length a + String.length b.
Proof. induction a as [|c a IH]; cbn; [reflexivity | now rewrite IH]. Qed.

Lemma rmatch_chr (p : ascii -> bool) (st : mstate)
  (k : mstate -> option mstate) :
  rmatch (Chr p) st k
  = match ms_rest st with
    | String c rest =>
        if p c then k (mkState (Some c) rest (S (ms_pos st)) (ms_caps st))
        else None
    | EmptyString => None
    end.
Proof. reflexivity. Qed.

Lemma roman_cases (c : ascii) :
  in_set "ivxlcdm" c = true ->
  In c ["i"; "v"; "x"; "l"; "c"; "d"; "m"]%char.
Proof.
  unfold in_set. cbn [Py.all_chars].
  rewrite negb_true_iff, !andb_false_iff, !negb_false_iff.
  intros H. cbn [In].
  repeat (destruct H as [H|H]; [apply Ascii.eqb_eq in H; tauto|]).
  discriminate.
Qed.

Lemma star_chr_greedy (p : ascii -> bool) (tail : string) (res : mstate) :
  match tail with String c _ => p c = false | EmptyString => True end ->
  forall xs n st k,
    Py.all_chars p xs = true ->
    ms_rest st = xs ++ tail ->
    String.length xs <= n ->
    k (after st xs tail) = Some res ->
    star_loop (rmatch (Chr p)) n st k = Some res.
Proof.
  intros Htail. induction xs as [|c xs IH]; intros n st k Hall Hrest Hlen Hk.
  - assert (Hst : after st "" tail = st).
    { destruct st. unfold after. cbn in *. now rewrite Nat.add_0_r, Hrest. }
    rewrite Hst in Hk. destruct n; [exact Hk|].
    rewrite star_loop_succ, rmatch_chr, Hrest. cbn [append].
    destruct tail as [|c tail']; [now rewrite Hk|].
    now rewrite Htail, Hk.
  - destruct n as [|n]; [cbn in Hlen; lia|].
    cbn in Hall. apply andb_true_iff in Hall. destruct Hall as [Hc Hall].
    rewrite star_loop_succ, rmatch_chr, Hrest. cbn [append].
    rewrite Hc. cbn [ms_pos].
    rewrite (proj2 (Nat.ltb_lt _ _) (Nat.lt_succ_diag_r _)).
    rewrite (IH n (mkState (Some c) (xs ++ tail) (S (ms_pos st)) (ms_caps st))
                k Hall eq_refl); [reflexivity | cbn in Hlen; lia |].
    unfold after in *. cbn in *. now rewrite Nat.add_succ_r in Hk.
Qed.

Lemma plus_chr_greedy (p : ascii -> bool) (xs tail : string) (st res : mstate)
  (k : mstate -> option mstate) :
  match tail with String c _ => p c = false | EmptyString => True end ->
  Py.nonempty xs = true -> Py.all_chars p xs = true ->
  ms_rest st = xs ++ tail ->
  k (after st xs tail) = Some res ->
  rmatch (plus (Chr p)) st k = Some res.
Proof.
  intros Htail Hne Hall Hrest Hk.
  destruct xs as [|c xs]; [discriminate|].
  cbn in Hall. apply andb_true_iff in Hall. destruct Hall as [Hc Hall].
  unfold plus. cbn [rmatch]. fold (rmatch (Chr p)).
  rewrite Hrest. cbn [append]. rewrite Hc.
  apply (star_chr_greedy p tail res Htail xs); cbn [ms_rest ms_pos];
    [exact Hall | reflexivity | | ].
  - rewrite length_append. lia.
  - unfold after in *. cbn in *. now rewrite Nat.add_succ_r in Hk.
Qed.


(** A label pattern whose body is [p+] matches a line that starts with a
    parenthesised run of the class followed by whitespace, and captures the
    whole run. *)
Lemma label_plus_match (p : ascii -> bool) (label : string) (w : ascii)
  (rest : string) :
  Py.nonempty label = true -> Py.all_chars p label = true ->
  p ")"%char = false -> Py.is_space w = true ->
  exists m,
    match_ (label_pattern (plus (Chr p)))
           (String "(" (label ++ String ")" (String w rest))) = Some m /\
    group 1 m = Some label /\ m_end m = String.length label + 3.
Proof.
  intros Hne Hall Hp Hw.
  unfold match_, match_here, label_pattern.
  cbn [seq rmatch chr space ms_pos ms_rest ms_caps ms_prev Nat.eqb].
  replace (Ascii.eqb "(" "(") with true by reflexivity.
  erewrite (plus_chr_greedy p label (String ")" (String w rest)));
    [ | exact Hp | exact Hne | exact Hall | reflexivity | ].
  2:{ unfold after. cbn [ms_rest ms_pos ms_caps ms_prev set_cap].
      replace (Ascii.eqb ")" ")") with true by reflexivity.
      rewrite Hw. reflexivity. }
  eexists. split; [reflexivity|].
  unfold group. cbn [m_caps m_end ms_caps ms_pos set_cap cap_lookup Nat.eqb
                     option_map snd].
  split; [|lia].
  replace (1 + String.length label - 1) with (String.length label) by lia.
  now rewrite take_app_length.
Qed.

Lemma subitem_label (a b w : ascii) (rest : string) :
  Py.is_upper a = true -> Py.is_upper b = true -> Py.is_space w = true ->
  detect_label (String "(" (String a (String b (String ")" (String w rest)))))
  = (Some "subitem", Some (String a (String b "")), 5).
Proof.
  intros Ha Hb Hw.
  pose proof (upper_not_lower a Ha) as Hla.
  unfold detect_label, LABEL_PATTERNS. cbn [first_label].
  unfold match_, match_here, label_pattern.
  eval_re. rewrite Hla. eval_re.
  rewrite Ha. eval_re. rewrite Hb. eval_re. rewrite Hw. eval_re.
  reflexivity.
Qed.

(** A roman-numeral label of one character, or of three and more, reaches
    the clause pattern: the two-letter patterns before it fail. *)
Lemma roman_label_clause (label : string) (w : ascii) (rest : string) :
  is_roman label = true -> String.length label <> 2 ->
  Py.is_space w = true ->
  detect_label (String "(" (label ++ String ")" (String w rest)))
  = (Some "clause", Some label, String.length label + 3).
Proof.
  unfold is_roman. intros Hr Hlen Hw.
  apply andb_true_iff in Hr. destruct Hr as [Hne Hall].
  destruct (label_plus_match (in_set "ivxlcdm") label w rest Hne Hall
              eq_refl Hw) as [m [Hm [Hg He]]].
  unfold detect_label, LABEL_PATTERNS. cbn [first_label].
  assert (Hitem : match_ (label_pattern (Cat (Chr Py.is_lower)
                                             (Chr Py.is_lower)))
                    (String "(" (label ++ String ")" (String w rest)))
                  = None).
  { destruct label as [|c1 [|c2 [|c3 label']]]; try discriminate.
    - cbn in Hall. rewrite andb_true_r in Hall.
      destruct (roman_char c1 Hall) as [Hl [_ _]].
      unfold match_, match_here, label_pattern. eval_re.
      rewrite Hl. eval_re. reflexivity.
    - now contradiction Hlen.
    - cbn in Hall. apply andb_true_iff in Hall. destruct Hall as [H1 Hall].
      apply andb_true_iff in Hall. destruct Hall as [H2 Hall].
      apply andb_true_iff in Hall. destruct Hall as [H3 _].
      destruct (roman_char c1 H1) as [Hl1 _].
      destruct (roman_char c2 H2) as [Hl2 _].
      apply roman_cases in H3. cbn [In] in H3.
      unfold match_, match_here, label_pattern.
      repeat (destruct H3 as [<-|H3];
              [eval_re; rewrite Hl1; eval_re; rewrite Hl2; reflexivity|]).
      contradiction. }
  assert (Hsub : match_ (label_pattern (Cat (Chr Py.is_upper)
                                            (Chr Py.is_upper)))
                   (String "(" (label ++ String ")" (String w rest)))
                 = None).
  { destruct label as [|c1 label']; [discriminate|].
    cbn in Hall. apply andb_true_iff in Hall. destruct Hall as [H1 _].
    destruct (roman_char c1 H1) as [_ [Hu _]].
    unfold match_, match_here, label_pattern. eval_re.
    rewrite Hu. reflexivity. }
  rewrite Hitem, Hsub, Hm, Hg, He. reflexivity.
Qed.

Lemma roman_label_item (c1 c2 w : ascii) (rest : string) :
  is_roman (String c1 (String c2 "")) = true -> Py.is_space w = true ->
  detect_label (String "(" (String c1 (String c2 "")
                            ++ String ")" (String w rest)))
  = (Some "item", Some (String c1 (String c2 "")), 5).
Proof.
  unfold is_roman. cbn [Py.nonempty Py.all_chars andb append].
  rewrite andb_true_r. intros Hall Hw.
  apply andb_true_iff in Hall. destruct Hall as [H1 H2].
  apply item_label; [apply (roman_char c1 H1) | apply (roman_char c2 H2)
                     | exact Hw].
Qed.

(** C6.  A line that starts with a parenthesised pair of lowercase letters
    followed by whitespace is labelled item, one that starts with a pair of
    uppercase letters is labelled subitem; the label is the pair and the
    match ends after the whitespace character.  No other level is returned
    for them. *)
Theorem two_letter_labels (a b w : ascii) (rest : string) :
  Py.is_space w = true ->
  (Py.is_lower a = true -> Py.is_lower b = true ->
   detect_label (String "(" (String a (String b (String ")" (String w rest)))))
   = (Some "item", Some (String a (String b "")), 5)) /\
  (Py.is_upper a = true -> Py.is_upper b = true ->
   detect_label (String "(" (String a (String b (String ")" (String w rest)))))
   = (Some "subitem", Some (String a (String b "")), 5)).
Proof.
  intros Hw. split; intros Ha Hb.
  - now apply item_label.
  - now apply subitem_label.
Qed.

Lemma two_letter_labels_witness :
  Py.is_space " " = true /\
  detect_label "(aa) Item text." = (Some "item", Some "aa", 5) /\
  detect_label "(AA) Subitem text." = (Some "subitem", Some "AA", 5).
Proof.
  split; [reflexivity|]. split.
  - apply (two_letter_labels "a" "a" " " "Item text." eq_refl);
      reflexivity.
  - apply (two_letter_labels "A" "A" " " "Subitem text." eq_refl);
      reflexivity.
Defined.

(** C5, as the claim has it, fails: the label of "(iv)" is made of
    roman-numeral characters, and the line is labelled item. *)
Lemma roman_pair_is_item :
  is_roman "iv" = true /\
  detect_label "(iv) in the case of" = (Some "item", Some "iv", 5) /\
  fst (fst (detect_label "(iv) in the case of")) <> Some "clause".
Proof.
  repeat split; try (vm_compute; reflexivity).
  vm_compute. discriminate.
Qed.

(** C5, amended.  A line that starts with a parenthesised label of
    lowercase roman-numeral characters followed by whitespace is labelled
    clause, unless the label has exactly two characters: then the item
    pattern, which is tried first, takes it. *)
Theorem roman_labels (label : string) (w : ascii) (rest : string) :
  is_roman label = true -> Py.is_space w = true ->
  detect_label (String "(" (label ++ String ")" (String w rest)))
  = (Some (if (String.length label =? 2)%nat then "item" else "clause"),
     Some label, String.length label + 3).
Proof.
  intros Hr Hw.
  destruct (String.length label =? 2)%nat eqn:E.
  - apply Nat.eqb_eq in E.
    destruct label as [|c1 [|c2 [|c3 label']]]; try discriminate.
    now apply roman_label_item.
  - apply Nat.eqb_neq in E. now apply roman_label_clause.
Qed.

Lemma roman_labels_witness :
  is_roman "xiv" = true /\ Py.is_space " " = true /\
  detect_label "(xiv) any amount" = (Some "clause", Some "xiv", 6).
Proof.
  split; [reflexivity|]. split; [reflexivity|].
  apply (roman_labels "xiv" " " "any amount"); reflexivity.
Defined.

End Labels.

(* ------------------------------------------------------------------ *)
(** ** The resolver only enriches *)

Section ResolverFrame.
Import ParseStatute ResolveLinks Spec.

Lemma erase_rewrite_node (ctx : Context) (n : Node) :
  erase_text (rewrite_node ctx n) = erase_text n.
Proof.
  induction n as [i l lv h t cs IH] using Node_forall_ind.
  cbn [rewrite_node erase_text]. f_equal.
  rewrite map_map.
  induction IH as [|c cs' Hc _ IHcs]; cbn [map]; [reflexivity|].
  now rewrite Hc, IHcs.
Qed.

(** C9.  [resolve] leaves the document's [id], [type], [source], [heading],
    [spans] and [meta] as they were, and the list of nodes keeps every node
    with its [id], [label], [level], [heading] and children in place: only
    [text] fields (and [links]) can differ. *)
Theorem resolve_frame (d : Document) :
  doc_id (resolve d) = doc_id d /\
  doc_type (resolve d) = doc_type d /\
  doc_source (resolve d) = doc_source d /\
  doc_heading (resolve d) = doc_heading d /\
  doc_spans (resolve d) = doc_spans d /\
  doc_meta (resolve d) = doc_meta d /\
  option_map (map erase_text) (doc_nodes (resolve d))
    = option_map (map erase_text) (doc_nodes d).
Proof.
  unfold resolve.
  destruct (doc_nodes d) as [[|root others]|] eqn:Hn.
  - destruct (doc_links d); cbn; rewrite ?Hn; repeat split; reflexivity.
  - cbn. repeat split. now rewrite erase_rewrite_node.
  - destruct (doc_links d); cbn; rewrite ?Hn; repeat split; reflexivity.
Qed.

(** C10.  On a document without nodes (the key is missing or the list is
    empty) [resolve] returns the document as it is, with [links] set to the
    empty list when the key was missing. *)
Theorem resolve_no_nodes (d : Document) :
  no_nodes d = true -> resolve d = with_default_links d.
Proof.
  unfold no_nodes, resolve, with_default_links.
  destruct d as [i t s h ns ls sp me]; cbn.
  destruct ns as [[|? ?]|]; try discriminate; intros _;
    destruct ls; reflexivity.
Qed.

Lemma resolve_no_nodes_witness :
  no_nodes (document (degraded_text "USC" "")) = true /\
  resolve (document (degraded_text "USC" ""))
    = with_default_links (document (degraded_text "USC" "")).
Proof.
  split; [reflexivity | apply resolve_no_nodes; reflexivity].
Defined.

End ResolverFrame.

(* ------------------------------------------------------------------ *)
(** ** Target identifiers of relative references *)

Section TargetIds.
Import ParseStatute ResolveLinks Spec.

Lemma build_target_id_cases (base_id : string) (base_path : list Node)
  (first : string) (rest : list string) (noun : string)
  (predicate : string -> bool) :
  dict_get noun EXPECTED_LABEL_PREDICATES = Some predicate ->
  (predicate first = false ->
   build_target_id base_id base_path (first :: rest) noun
     = target_of base_id (first :: rest)) /\
  (predicate first = true ->
   forall init, base_labels_of base_path = app init [first] ->
   build_target_id base_id base_path (first :: rest) noun
     = target_of base_id (app init (first :: rest))) /\
  (predicate first = true ->
   (forall init, base_labels_of base_path <> app init [first]) ->
   build_target_id base_id base_path (first :: rest) noun
     = target_of base_id (app (base_labels_of base_path) (first :: rest))).
Proof.
  intros Hd. unfold build_target_id, target_of. rewrite Hd.
  repeat split.
  - intros Hp. rewrite Hp. reflexivity.
  - intros Hp init Hb. rewrite Hp, Hb. cbn [negb].
    rewrite rev_app_distr. cbn [rev app].
    rewrite String.eqb_refl, removelast_last. reflexivity.
  - intros Hp Hne. rewrite Hp. cbn [negb].
    destruct (rev (base_labels_of base_path)) as [|last_base r] eqn:Hr;
      [reflexivity|].
    destruct (String.eqb first last_base) eqn:He; [|reflexivity].
    exfalso. apply String.eqb_eq in He. subst last_base.
    apply (Hne (rev r)).
    rewrite <- (rev_involutive (base_labels_of base_path)), Hr.
    reflexivity.
Qed.

End TargetIds.

(* ------------------------------------------------------------------ *)
(** ** The nearest-ancestor lookup *)

Section NearestAncestor.
Import ParseStatute ResolveLinks Spec.

Lemma find_all_false {A : Type} (f : A -> bool) (l : list A) :
  (forall x, In x l -> f x = false) -> find f l = None.
Proof.
  induction l as [|a l IH]; intros H; cbn; [reflexivity|].
  rewrite (H a (or_introl eq_refl)). apply IH.
  intros x Hx. apply H. now right.
Qed.

Lemma nearest_ancestor_last (init : list Node) (self : Node)
  (level : string) :
  (forall n, In n (app init [self]) -> node_level n <> level) ->
  nearest_ancestor_of_level (app init [self]) level = Some self.
Proof.
  intros H. unfold nearest_ancestor_of_level.
  rewrite find_all_false.
  - rewrite map_app. cbn [map]. apply last_last.
  - intros x Hx. apply in_rev in Hx.
    apply String.eqb_neq. now apply H.
Qed.

Lemma dict_get_in {V : Type} (key : string) (d : list (string * V)) (v : V) :
  dict_get key d = Some v -> In (key, v) d.
Proof.
  induction d as [|[k w] d IH]; cbn; [discriminate|].
  destruct (dict_get key d) as [v'|].
  - intros [= ->]. right. now apply IH.
  - destruct (String.eqb key k) eqn:E; [|discriminate].
    apply String.eqb_eq in E. subst k. intros [= ->]. now left.
Qed.

Lemma dict_get_some {V : Type} (key : string) (d : list (string * V)) (v : V) :
  In (key, v) d -> exists v', dict_get key d = Some v'.
Proof.
  induction d as [|[k w] d IH]; cbn; [intros []|].
  intros [[= -> ->]|Hin].
  - destruct (dict_get key d); [eauto|].
    rewrite String.eqb_refl. eauto.
  - destruct (IH Hin) as [v' ->]. eauto.
Qed.

(** Every path that [walk_paths] records under a key extends the path it
    was started with, begins below it with the node walked, and ends in a
    node that has the key as its identifier. *)
Lemma walk_paths_shape (n : Node) :
  forall path0 key p,
    In (key, p) (walk_paths n path0) ->
    exists mid self,
      p = app path0 (app mid [self]) /\ node_id self = key /\
      hd_error (app mid [self]) = Some n.
Proof.
  induction n as [i l lv h t cs IH] using Node_forall_ind.
  intros path0 key p. cbn [walk_paths].
  intros [[= <- <-]|Hin].
  - exists [], (mkNode i l lv h t cs). repeat split.
  - apply in_flat_map in Hin. destruct Hin as [c [Hc Hin]].
    rewrite Forall_forall in IH.
    destruct (IH c Hc _ _ _ Hin) as [mid [self [-> [Hid _]]]].
    exists (mkNode i l lv h t cs :: mid), self.
    rewrite <- app_assoc. repeat split; assumption.
Qed.

Lemma flatten_has_path (root : Node) :
  forall path0 node,
    In node (flatten_nodes root) ->
    exists p, In (node_id node, p) (walk_paths root path0).
Proof.
  induction root as [i l lv h t cs IH] using Node_forall_ind.
  intros path0 node. cbn [flatten_nodes walk_paths].
  intros [<-|Hin].
  - eexists. left. reflexivity.
  - apply in_flat_map in Hin. destruct Hin as [c [Hc Hin]].
    rewrite Forall_forall in IH.
    destruct (IH c Hc (app path0 [mkNode i l lv h t cs]) node Hin) as [p Hp].
    exists p. right. apply in_flat_map. eauto.
Qed.

(** C2.  For a node of the tree, the path that [resolve] looks up under
    the node's identifier starts at the root and ends in a node with that
    identifier; when no node on it has the level asked for,
    [nearest_ancestor_of_level] returns this last node of the path, the
    referencing node's own entry. *)
Theorem nearest_ancestor_fallback (root node : Node) (level : string) :
  In node (flatten_nodes root) ->
  (forall n, In n (paths_get (build_paths root) (node_id node)) ->
             node_level n <> level) ->
  exists init self,
    paths_get (build_paths root) (node_id node) = app init [self] /\
    hd_error (app init [self]) = Some root /\
    node_id self = node_id node /\
    nearest_ancestor_of_level
      (paths_get (build_paths root) (node_id node)) level = Some self.
Proof.
  intros Hin Hlev.
  destruct (flatten_has_path root [] node Hin) as [p Hp].
  destruct (dict_get_some _ _ _ Hp) as [p' Hget].
  pose proof (dict_get_in _ _ _ Hget) as Hin'.
  destruct (walk_paths_shape root [] _ _ Hin') as [mid [self [Hp' [Hid Hhd]]]].
  cbn [app] in Hp'.
  assert (Hpath : paths_get (build_paths root) (node_id node)
                  = app mid [self]).
  { unfold paths_get, build_paths. now rewrite Hget. }
  exists mid, self. rewrite Hpath in *.
  repeat split; try assumption.
  now apply nearest_ancestor_last.
Qed.

Lemma nearest_ancestor_fallback_witness :
  In Scenario.orphan_a (flatten_nodes Scenario.orphan_root) /\
  exists init self,
    paths_get (build_paths Scenario.orphan_root)
              (node_id Scenario.orphan_a) = app init [self] /\
    hd_error (app init [self]) = Some Scenario.orphan_root /\
    node_id self = node_id Scenario.orphan_a /\
    nearest_ancestor_of_level
      (paths_get (build_paths Scenario.orphan_root)
                 (node_id Scenario.orphan_a)) "paragraph" = Some self.
Proof.
  split; [cbn; auto|].
  apply nearest_ancestor_fallback; [cbn; auto|].
  intros n Hn. vm_compute in Hn.
  destruct Hn as [<-|[<-|[]]]; discriminate.
Defined.

(** C2, as the claim has it, fails: subsection (a) of the parsed section
    says "this paragraph" and has no paragraph above it; the lookup returns
    the subsection, not the root, and the link points at the subsection. *)
Lemma nearest_ancestor_not_root :
  Scenario.nodes_of (Scenario.parsed Scenario.orphan_text)
    = Some [Scenario.orphan_root] /\
  paths_get (build_paths Scenario.orphan_root) (node_id Scenario.orphan_a)
    = [Scenario.orphan_root; Scenario.orphan_a] /\
  forallb (fun n => negb (String.eqb (node_level n) "paragraph"))
          [Scenario.orphan_root; Scenario.orphan_a] = true /\
  nearest_ancestor_of_level [Scenario.orphan_root; Scenario.orphan_a]
                            "paragraph" = Some Scenario.orphan_a /\
  Some Scenario.orphan_a <> Some Scenario.orphan_root /\
  Scenario.links_of (Scenario.pipeline Scenario.orphan_text)
    = Some [Scenario.link "usc:26:162(a)" "usc:26:162(a)" "see-also"
                          "intra-section" "this paragraph" (9 # 10)].
Proof.
  repeat split; try (vm_compute; reflexivity).
  discriminate.
Qed.

End NearestAncestor.

(* ------------------------------------------------------------------ *)
(** ** The end-to-end scenario *)

Section EndToEnd.
Import ParseStatute ResolveLinks Spec.

(** The repository's tests of the parser, on the model. *)
Example double_letter_labels_map_to_items :
  Scenario.level_of "(aa)" (Scenario.parsed Scenario.complex_text)
    = Some "item" /\
  Scenario.level_of "(AA)" (Scenario.parsed Scenario.complex_text)
    = Some "subitem" /\
  Scenario.level_of "(i)" (Scenario.parsed Scenario.complex_text)
    = Some "clause".
Proof. repeat split; vm_compute; reflexivity. Qed.

Example parse_uslm_input :
  option_map document
    (parse (fun _ => Some Scenario.uslm_snippet) "" "USC" "26 U.S.C. ยง 999"
           "uslm")
  = Some
      (mkDocument (Some "usc:26:999") (Some "statute")
         (Some (mkSource "USC" (TInt 26) "999")) (Some (Some "Sample heading"))
         (Some [mkNode "usc:26:999" "" "section" (Some "Sample heading") ""
                  [mkNode "usc:26:999(a)" "(a)" "subsection"
                     (Some "In general") ""
                     [mkNode "usc:26:999(a)(1)" "(1)" "paragraph" None
                        "Ordinary expenses." []]]])
         (Some []) (Some (JArr [])) (Some (JObj []))).
Proof. vm_compute. reflexivity. Qed.

(** C1.  Parsing and then resolving the two-level section gives a link
    with relation for-purposes-of and target usc:26:162(a), from
    subsection (b), and a separate link with relation subject-to and target
    usc:26:274, from paragraph (1) of (b); the rewritten text of that
    paragraph has the pointer to section 274, the rewritten text of
    subsection (b) the pointer to subsection (a). *)
Theorem end_to_end_links :
  Scenario.links_of (Scenario.pipeline Scenario.two_level_text)
    = Some [ Scenario.link "usc:26:162(b)" "usc:26:162(a)"
               "for-purposes-of" "intra-section" "subsection (a)" (95 # 100);
             Scenario.link "usc:26:162(b)(1)" "usc:26:274"
               "subject-to" "inter-section" "section 274" (95 # 100) ] /\
  Scenario.text_of "usc:26:162(b)(1)"
    (Scenario.pipeline Scenario.two_level_text)
    = Some "... subject to section 274 [[usc:26:274]] ..." /\
  Scenario.text_of "usc:26:162(b)"
    (Scenario.pipeline Scenario.two_level_text)
    = Some "For purposes of subsection (a) [[usc:26:162(a)]] ...".
Proof.
  repeat split; vm_compute; reflexivity.
Qed.

End EndToEnd.

(* ------------------------------------------------------------------ *)
(** ** Further properties of the parser and the resolver *)

Section MatchObjects.
Import Re Spec MatchProps.

Lemma all_chars_app (q : ascii -> bool) (a b : string) :
  Py.all_chars q (a ++ b) = Py.all_chars q a && Py.all_chars q b.
Proof.
  induction a as [|c a IH]; cbn; [reflexivity|].
  now rewrite IH, andb_assoc.
Qed.

Lemma append_assoc (a b c : string) : (a ++ b) ++ c = a ++ b ++ c.
Proof. induction a as [|x a IH]; cbn; [reflexivity | now rewrite IH]. Qed.

Lemma consumed_refl q st : consumed q st st.
Proof. exists "". cbn. repeat split. lia. Qed.

Lemma consumed_trans q st1 st2 st3 :
  consumed q st1 st2 -> consumed q st2 st3 -> consumed q st1 st3.
Proof.
  intros [xs [H1 [H2 H3]]] [ys [H4 [H5 H6]]].
  exists (xs ++ ys). rewrite H1, H4, append_assoc, all_chars_app, H2, H5.
  repeat split. rewrite length_append. lia.
Qed.

Lemma star_loop_rel (R : mstate -> mstate -> Prop)
  (step : mstate -> (mstate -> option mstate) -> option mstate) :
  (forall st, R st st) ->
  (forall a b c, R a b -> R b c -> R a c) ->
  (forall st k res, step st k = Some res ->
                    exists st', k st' = Some res /\ R st st') ->
  forall n st k res,
    star_loop step n st k = Some res ->
    exists st', k st' = Some res /\ R st st'.
Proof.
  intros Hrefl Htrans Hstep.
  induction n as [|n IH]; intros st k res H.
  - exists st. split; [assumption | apply Hrefl].
  - rewrite star_loop_succ in H.
    destruct (step st _) as [res'|] eqn:Hs.
    + injection H as <-. apply Hstep in Hs.
      destruct Hs as [st1 [Hk1 R1]].
      destruct (Nat.ltb (ms_pos st) (ms_pos st1)); [|discriminate].
      apply IH in Hk1. destruct Hk1 as [st2 [Hk2 R2]].
      exists st2. split; [assumption | eapply Htrans; eassumption].
    + exists st. split; [assumption | apply Hrefl].
Qed.

(** What a pattern matches is a run of characters of its classes. *)
Lemma rmatch_consumes (q : ascii -> bool) (r : regex) :
  class_ok q r ->
  forall st k res,
    rmatch r st k = Some res ->
    exists st', k st' = Some res /\ consumed q st st'.
Proof.
  induction r as [|p|r1 IH1 r2 IH2|r1 IH1 r2 IH2|r IH|g r IH| | | |];
    intros Hq st k res H; cbn [rmatch class_ok] in *.
  - exists st. split; [assumption | apply consumed_refl].
  - destruct (ms_rest st) as [|c rest] eqn:E; [discriminate|].
    destruct (p c) eqn:Hp; [|discriminate].
    eexists. split; [eassumption|].
    exists (String c ""). cbn. rewrite E, (Hq c Hp). repeat split. lia.
  - destruct Hq as [H1 H2].
    apply (IH1 H1) in H. destruct H as [st1 [H C1]].
    apply (IH2 H2) in H. destruct H as [st2 [H C2]].
    exists st2. split; [assumption | eapply consumed_trans; eassumption].
  - destruct Hq as [H1 H2].
    destruct (rmatch r1 st k) as [res'|] eqn:E.
    + injection H as <-. now apply (IH1 H1) in E.
    + now apply (IH2 H2) in H.
  - eapply (star_loop_rel (consumed q));
      [apply consumed_refl | apply consumed_trans | apply (IH Hq) | exact H].
  - apply (IH Hq) in H. destruct H as [st1 [H C1]].
    exists (set_cap g st st1). split; [assumption | exact C1].
  - destruct (Nat.eqb _ _); [|discriminate].
    exists st. split; [assumption | apply consumed_refl].
  - destruct (ms_prev st) as [c|]; [destruct (Ascii.eqb c newline)|];
      try discriminate; exists st; (split; [assumption | apply consumed_refl]).
  - destruct (ms_rest st) as [|c rest]; [|destruct (Ascii.eqb c newline)];
      try discriminate; exists st; (split; [assumption | apply consumed_refl]).
  - destruct (xorb _ _); [|discriminate].
    exists st. split; [assumption | apply consumed_refl].
Qed.

Lemma class_ok_any (r : regex) : class_ok (fun _ => true) r.
Proof. induction r; cbn; auto. Qed.

(** A match object holds the text between its start and its end. *)
Lemma match_here_text (r : regex) (prev : option ascii) (rest : string)
  (pos : nat) (m : rmatch_obj) :
  match_here r prev rest pos = Some m ->
  exists xs rest',
    rest = xs ++ rest' /\ m_start m = pos /\
    m_end m = pos + String.length xs /\ group 0 m = Some xs.
Proof.
  unfold match_here.
  destruct (rmatch _ _ _) as [res|] eqn:H; [|discriminate].
  intros [= <-]. cbn [rmatch] in H.
  apply (rmatch_consumes _ r (class_ok_any r)) in H.
  destruct H as [st' [[= <-] [xs [Hrest [_ Hpos]]]]].
  cbn [ms_rest ms_pos] in *.
  exists xs, (ms_rest st'). repeat split; try assumption.
  unfold group. cbn. rewrite Hpos, Hrest.
  replace (pos + String.length xs - pos) with (String.length xs) by lia.
  now rewrite take_app_length.
Qed.

Lemma match_here_spans (r : regex) (pre rest : string) (prev : option ascii)
  (m : rmatch_obj) :
  match_here r prev rest (String.length pre) = Some m ->
  spans_text (pre ++ rest) m.
Proof.
  intros H. apply match_here_text in H.
  destruct H as [xs [rest' [-> [Hs [He Hg]]]]].
  exists pre, xs, rest'. auto.
Qed.

Lemma snoc_length (pre : string) (c : ascii) :
  String.length (pre ++ String c "") = S (String.length pre).
Proof. rewrite length_append. cbn. lia. Qed.

Lemma snoc_append (pre : string) (c : ascii) (rest : string) :
  (pre ++ String c "") ++ rest = pre ++ String c rest.
Proof. now rewrite append_assoc. Qed.

Lemma finditer_from_spans (r : regex) :
  forall rest pre prev skip m,
    In m (finditer_from r prev rest (String.length pre) skip) ->
    spans_text (pre ++ rest) m.
Proof.
  induction rest as [|c rest IH]; intros pre prev skip m.
  - cbn [finditer_from]. destruct skip; [|intros []].
    destruct (match_here r prev "" (String.length pre)) eqn:E;
      [|intros []].
    intros [<-|[]]. now apply (match_here_spans r pre "" prev).
  - cbn [finditer_from]. rewrite <- snoc_append, <- (snoc_length pre c).
    destruct skip as [|skip]; [|apply IH].
    destruct (match_here r prev (String c rest) _) eqn:E.
    + intros [<-|Hin]; [|eapply IH, Hin].
      rewrite snoc_append.
      now apply (match_here_spans r pre _ prev).
    + apply IH.
Qed.

(** Every match that [finditer] returns spans a piece of the subject. *)
Lemma finditer_spans (r : regex) (s : string) (m : rmatch_obj) :
  In m (finditer r s) -> spans_text s m.
Proof. apply (finditer_from_spans r s "" None 0). Qed.

Lemma search_from_spans (r : regex) :
  forall rest pre prev m,
    search_from r prev rest (String.length pre) = Some m ->
    spans_text (pre ++ rest) m.
Proof.
  induction rest as [|c rest IH]; intros pre prev m; cbn [search_from];
    destruct (match_here r prev _ (String.length pre)) eqn:E.
  - intros [= <-]. now apply (match_here_spans r pre "" prev).
  - discriminate.
  - intros [= <-]. now apply (match_here_spans r pre _ prev).
  - rewrite <- snoc_append, <- (snoc_length pre c). apply IH.
Qed.

Lemma search_spans (r : regex) (s : string) (m : rmatch_obj) :
  search r s = Some m -> spans_text s m.
Proof. apply (search_from_spans r s "" None). Qed.

End MatchObjects.

Section LabelShape.
Import Re ParseStatute ResolveLinks Spec MatchProps LabelProps.

Lemma reads_chr (p : ascii -> bool) : reads (run_of p (Some 1)) (Chr p).
Proof.
  intros st k res H. rewrite rmatch_chr in H.
  destruct (ms_rest st) as [|c rest] eqn:E; [discriminate|].
  destruct (p c) eqn:Hp; [|discriminate].
  eexists _, (String c ""). split; [exact H|]. unfold run_of. cbn.
  rewrite Hp. repeat split. lia.
Qed.

Lemma reads_two (p : ascii -> bool) :
  reads (run_of p (Some 2)) (Cat (Chr p) (Chr p)).
Proof.
  intros st k res H. cbn [rmatch] in H.
  destruct (ms_rest st) as [|c rest] eqn:E; [discriminate|].
  destruct (p c) eqn:Hp; [|discriminate]. cbn [ms_rest] in H.
  destruct rest as [|d rest]; [discriminate|].
  destruct (p d) eqn:Hd; [|discriminate].
  eexists _, (String c (String d "")). split; [exact H|].
  unfold run_of. cbn. rewrite Hp, Hd. repeat split. lia.
Qed.

Lemma reads_plus (p : ascii -> bool) : reads (run_of p None) (plus (Chr p)).
Proof.
  intros st k res H. apply plus_chr_inv in H.
  destruct H as [xs [st' [Hne [Hall [Hr [Hpos [_ Hk]]]]]]].
  exists st', xs. repeat split; assumption.
Qed.

Lemma rmatch_chr_inv (p : ascii -> bool) (st res : mstate)
  (k : mstate -> option mstate) :
  rmatch (Chr p) st k = Some res ->
  exists c rest,
    ms_rest st = String c rest /\ p c = true /\
    k (mkState (Some c) rest (S (ms_pos st)) (ms_caps st)) = Some res.
Proof.
  rewrite rmatch_chr.
  destruct (ms_rest st) as [|c rest]; [discriminate|].
  destruct (p c) eqn:Hp; [|discriminate]. eauto.
Qed.

(** A label pattern matches a line that starts with a parenthesised text
    its body reads, followed by a whitespace character; the label is that
    text and the match ends after the whitespace character. *)
Lemma label_pattern_inv (Q : string -> Prop) (body : regex) (line : string)
  (m : rmatch_obj) :
  reads Q body ->
  match_ (label_pattern body) line = Some m ->
  exists label w rest,
    line = String "(" (label ++ String ")" (String w rest)) /\
    Q label /\ Py.is_space w = true /\
    group 1 m = Some label /\ m_end m = String.length label + 3.
Proof.
  intros Hbody. unfold match_, match_here, label_pattern.
  destruct (rmatch _ _ _) as [res|] eqn:H; [|discriminate].
  intros [= <-].
  cbn [seq rmatch ms_pos Nat.eqb] in H.
  apply rmatch_chr_inv in H. destruct H as [c0 [rest0 [E0 [Hc0 H]]]].
  cbn [ms_rest ms_pos ms_caps] in *. subst line.
  apply Ascii.eqb_eq in Hc0. subst c0.
  apply Hbody in H. destruct H as [st' [label [H [Hr [Hpos HQ]]]]].
  cbn [ms_rest ms_pos] in Hr, Hpos.
  apply rmatch_chr_inv in H. destruct H as [c1 [rest1 [E1 [Hc1 H]]]].
  apply Ascii.eqb_eq in Hc1. subst c1.
  apply rmatch_chr_inv in H. destruct H as [w [rest [E2 [Hw H]]]].
  injection H as <-.
  cbn [ms_rest ms_pos ms_caps set_cap] in *. subst rest1.
  exists label, w, rest. rewrite Hr, E1.
  repeat split; try assumption.
  - unfold group. cbn [m_caps ms_caps set_cap cap_lookup Nat.eqb option_map
                       snd ms_pos ms_rest].
    rewrite Hpos.
    replace (1 + String.length label - 1) with (String.length label) by lia.
    now rewrite take_app_length.
  - cbn [m_end ms_pos]. lia.
Qed.

Lemma all_chars_impl (p q : ascii -> bool) (s : string) :
  (forall c, p c = true -> q c = true) ->
  Py.all_chars p s = true -> Py.all_chars q s = true.
Proof.
  intros Hpq. induction s as [|c s IH]; cbn; [reflexivity|].
  rewrite !andb_true_iff. intros [Hc Hs]. split; [now apply Hpq | now apply IH].
Qed.

Lemma lower_alnum (c : ascii) : Py.is_lower c = true -> is_alnum c = true.
Proof. unfold is_alnum, Py.is_alpha. now intros ->. Qed.

Lemma upper_alnum (c : ascii) : Py.is_upper c = true -> is_alnum c = true.
Proof. unfold is_alnum, Py.is_alpha. intros ->. now rewrite orb_true_r. Qed.

Lemma digit_alnum (c : ascii) : Py.is_digit c = true -> is_alnum c = true.
Proof. unfold is_alnum. intros ->. now rewrite orb_true_r. Qed.

Lemma roman_upper_char (c : ascii) :
  in_set "IVXLCDM" c = true -> Py.is_upper c = true.
Proof.
  unfold in_set. cbn [Py.all_chars].
  rewrite negb_true_iff, !andb_false_iff, !negb_false_iff.
  intros H.
  repeat (destruct H as [H|H]; [apply Ascii.eqb_eq in H; subst c;
                                reflexivity|]).
  discriminate.
Qed.

Lemma alnum_one_code_point (c : ascii) :
  is_alnum c = true -> Py.between 128 191 c = false.
Proof.
  unfold is_alnum, Py.is_alpha, Py.is_lower, Py.is_upper, Py.is_digit,
    Py.between.
  rewrite !orb_true_iff, !andb_true_iff, andb_false_iff, !Nat.leb_le,
    !Nat.leb_gt. lia.
Qed.

(** On alphanumeric text [len] is the number of bytes. *)
Lemma len_alnum (s : string) :
  Py.all_chars is_alnum s = true -> Py.len s = String.length s.
Proof.
  induction s as [|c s IH]; cbn; [reflexivity|].
  rewrite andb_true_iff. intros [Hc Hs].
  now rewrite (alnum_one_code_point c Hc), IH.
Qed.

Lemma lower_of_lower (s : string) :
  Py.all_chars Py.is_lower s = true -> Py.lower s = s.
Proof.
  induction s as [|c s IH]; cbn; [reflexivity|].
  rewrite andb_true_iff. intros [Hc Hs].
  unfold Py.lower in IH. rewrite (IH Hs).
  unfold Py.lower_char. now rewrite (lower_not_upper c Hc).
Qed.

Lemma accepted_item (l : string) :
  run_of Py.is_lower (Some 2) l -> accepted "item" l.
Proof.
  intros [Hne [Hall Hlen]]. eexists. split; [reflexivity|]. cbn beta.
  unfold Py.isalpha_islower. rewrite Hne, Hall.
  rewrite len_alnum, Hlen; [reflexivity|].
  exact (all_chars_impl _ _ l lower_alnum Hall).
Qed.

Lemma accepted_subitem (l : string) :
  run_of Py.is_upper (Some 2) l -> accepted "subitem" l.
Proof.
  intros [Hne [Hall Hlen]]. eexists. split; [reflexivity|]. cbn beta.
  unfold Py.isalpha_isupper. rewrite Hne, Hall.
  rewrite len_alnum, Hlen; [reflexivity|].
  exact (all_chars_impl _ _ l upper_alnum Hall).
Qed.

Lemma accepted_clause (l : string) :
  run_of (in_set "ivxlcdm") None l -> accepted "clause" l.
Proof.
  intros [Hne [Hall _]]. eexists. split; [reflexivity|]. cbn beta.
  rewrite lower_of_lower.
  - unfold fullmatch_set. now rewrite Hne, Hall.
  - apply (all_chars_impl _ _ l (fun c H => proj1 (roman_char c H)) Hall).
Qed.

Lemma accepted_subclause (l : string) :
  run_of (in_set "IVXLCDM") None l -> accepted "subclause" l.
Proof.
  intros [Hne [Hall _]]. eexists. split; [reflexivity|]. cbn beta.
  unfold fullmatch_set. now rewrite Hne, Hall.
Qed.

Lemma accepted_paragraph (l : string) :
  run_of Py.is_digit None l -> accepted "paragraph" l.
Proof.
  intros [Hne [Hall _]]. eexists. split; [reflexivity|].
  unfold Py.isdigit. now rewrite Hne, Hall.
Qed.

Lemma accepted_subparagraph (l : string) :
  run_of Py.is_upper (Some 1) l -> accepted "subparagraph" l.
Proof.
  intros [Hne [Hall _]]. eexists. split; [reflexivity|].
  unfold Py.isalpha_isupper. now rewrite Hne, Hall.
Qed.

Lemma accepted_subsection (l : string) :
  run_of Py.is_lower (Some 1) l -> accepted "subsection" l.
Proof.
  intros [Hne [Hall _]]. eexists. split; [reflexivity|].
  unfold Py.isalpha_islower. now rewrite Hne, Hall.
Qed.

Lemma run_of_alnum (p : ascii -> bool) (n : option nat) (l : string) :
  (forall c, p c = true -> is_alnum c = true) ->
  run_of p n l -> Py.nonempty l = true /\ Py.all_chars is_alnum l = true.
Proof.
  intros Hp [Hne [Hall _]]. split; [exact Hne|].
  exact (all_chars_impl _ _ l Hp Hall).
Qed.

(** The pattern that recognises a line has read its label: a run of the
    pattern's class, of the pattern's length. *)
Lemma detect_label_inv (line level : string) (label : option string)
  (pos : nat) :
  detect_label line = (Some level, label, pos) ->
  exists p n l w rest,
    In (level, (p, n)) LABEL_CLASSES /\ label = Some l /\
    line = String "(" (l ++ String ")" (String w rest)) /\
    Py.is_space w = true /\ pos = String.length l + 3 /\ run_of p n l.
Proof.
  unfold detect_label, LABEL_PATTERNS, digit. cbn [first_label].
  repeat match goal with
  | |- context [match_ (label_pattern ?b) line] =>
      let E := fresh "E" in
      destruct (match_ (label_pattern b) line) eqn:E
  end; intros [= <- <- <-];
  match goal with
  | E : match_ (label_pattern (Cat (Chr ?p) (Chr ?p))) line = Some _ |- _ =>
      apply (label_pattern_inv _ _ _ _ (reads_two p)) in E;
      destruct E as [l [w [rest [Hline [HQ [Hw [Hg He]]]]]]];
      exists p, (Some 2), l, w, rest
  | E : match_ (label_pattern (plus (Chr ?p))) line = Some _ |- _ =>
      apply (label_pattern_inv _ _ _ _ (reads_plus p)) in E;
      destruct E as [l [w [rest [Hline [HQ [Hw [Hg He]]]]]]];
      exists p, None, l, w, rest
  | E : match_ (label_pattern (Chr ?p)) line = Some _ |- _ =>
      apply (label_pattern_inv _ _ _ _ (reads_chr p)) in E;
      destruct E as [l [w [rest [Hline [HQ [Hw [Hg He]]]]]]];
      exists p, (Some 1), l, w, rest
  end;
  (split; [unfold LABEL_CLASSES; cbn [In]; auto 10 | auto 10]).
Qed.

Lemma label_class_alnum (level : string) (p : ascii -> bool)
  (n : option nat) :
  In (level, (p, n)) LABEL_CLASSES ->
  forall c, p c = true -> is_alnum c = true.
Proof.
  unfold LABEL_CLASSES. cbn [In].
  intros [H|[H|[H|[H|[H|[H|[H|[]]]]]]]]; injection H as _ <- _; intros c Hc.
  - now apply lower_alnum.
  - now apply upper_alnum.
  - now apply lower_alnum, roman_char.
  - now apply upper_alnum, roman_upper_char.
  - now apply digit_alnum.
  - now apply upper_alnum.
  - now apply lower_alnum.
Qed.

(** X1.  A line of ASCII characters that [detect_label] recognises starts
    with the parenthesised label and a whitespace character, the position
    returned is that of the character after it, the label is a non-empty
    alphanumeric text, and the resolver's predicate for the level returned
    accepts the label. *)
Theorem detect_label_shape (line level : string) (label : option string)
  (pos : nat) :
  Py.is_ascii line = true ->
  detect_label line = (Some level, label, pos) ->
  exists l w rest,
    label = Some l /\
    line = String "(" (l ++ String ")" (String w rest)) /\
    Py.is_space w = true /\ pos = String.length l + 3 /\
    Py.nonempty l = true /\ Py.all_chars is_alnum l = true /\
    accepted level l.
Proof.
  intros _ H.
  destruct (detect_label_inv _ _ _ _ H)
    as [p [n [l [w [rest [Hin [Hl [Hline [Hw [Hpos Hrun]]]]]]]]]].
  destruct (run_of_alnum p n l (label_class_alnum _ _ _ Hin) Hrun)
    as [Hne Hall].
  exists l, w, rest. repeat split; try assumption.
  unfold LABEL_CLASSES in Hin. cbn [In] in Hin.
  destruct Hin as [E|[E|[E|[E|[E|[E|[E|[]]]]]]]];
    injection E as <- <- <-.
  - now apply accepted_item.
  - now apply accepted_subitem.
  - now apply accepted_clause.
  - now apply accepted_subclause.
  - now apply accepted_paragraph.
  - now apply accepted_subparagraph.
  - now apply accepted_subsection.
Qed.

Lemma detect_label_shape_witness :
  Py.is_ascii "(12) in general" = true /\
  detect_label "(12) in general" = (Some "paragraph", Some "12", 5) /\
  exists l w rest,
    Some "12" = Some l /\
    "(12) in general" = String "(" (l ++ String ")" (String w rest)) /\
    Py.is_space w = true /\ 5 = String.length l + 3 /\
    Py.nonempty l = true /\ Py.all_chars is_alnum l = true /\
    accepted "paragraph" l.
Proof.
  split; [reflexivity|]. split; [reflexivity|].
  apply (detect_label_shape "(12) in general" "paragraph" (Some "12") 5);
    reflexivity.
Defined.

End LabelShape.

Section TextTree.
Import Re ParseStatute ResolveLinks Spec MatchProps LabelProps TreeProps.

Lemma edge_ok_keys (p p' c c' : Node) :
  node_id p = node_id p' -> node_level p = node_level p' ->
  node_id c = node_id c' -> node_label c = node_label c' ->
  node_level c = node_level c' ->
  edge_ok p c -> edge_ok p' c'.
Proof. unfold edge_ok. intros <- <- <- <- <-. auto. Qed.

Lemma tree_ok_set_text (t : string) (n : Node) :
  tree_ok n -> tree_ok (set_text t n).
Proof.
  destruct n as [i l lv h tx cs]. unfold tree_ok. cbn [set_text edges].
  rewrite !Forall_app, !Forall_map. intros [H1 H2]. split; [|exact H2].
  eapply Forall_impl; [|exact H1]. cbn. intros c.
  now apply edge_ok_keys.
Qed.

Lemma tree_ok_add_child (parent child : Node) :
  tree_ok parent -> tree_ok child -> edge_ok parent child ->
  tree_ok (add_child parent child).
Proof.
  destruct parent as [i l lv h tx cs]. unfold tree_ok.
  cbn [add_child edges]. rewrite map_app, flat_map_app. cbn [map flat_map].
  rewrite !Forall_app, !Forall_map. intros [H1 H2] Hc He.
  split; [split | split; [exact H2 | split; [exact Hc | constructor]]].
  - eapply Forall_impl; [|exact H1]. cbn. intros c. now apply edge_ok_keys.
  - constructor; [|constructor]. cbn. revert He. now apply edge_ok_keys.
Qed.

Lemma key_add_child (parent child : Node) :
  node_id (add_child parent child) = node_id parent /\
  node_label (add_child parent child) = node_label parent /\
  node_level (add_child parent child) = node_level parent.
Proof. now destruct parent. Qed.

Lemma key_set_text (t : string) (n : Node) :
  node_id (set_text t n) = node_id n /\
  node_label (set_text t n) = node_label n /\
  node_level (set_text t n) = node_level n.
Proof. now destruct n. Qed.

(** Replacing the top of the stack by a node with the same identifier,
    label and level keeps the invariant, if the new top is a good tree. *)
Lemma text_inv_retop (base_id : string) (top top' : Node)
  (below : list Node) :
  node_id top' = node_id top -> node_label top' = node_label top ->
  node_level top' = node_level top -> tree_ok top' ->
  text_inv base_id (top :: below) -> text_inv base_id (top' :: below).
Proof.
  intros Hi Hl Hv Ht [Hg [Hids [Hf Hc]]].
  split; [|split; [|split]].
  - cbn [levels map] in *. now rewrite Hv.
  - cbn [ids_ok] in *. split; [|apply Hids].
    rewrite Hi. unfold label_path in *. cbn [rev] in *.
    destruct Hids as [Hids _]. rewrite Hids. f_equal. f_equal.
    destruct (rev below) as [|r rs]; [reflexivity|].
    cbn [app tl]. rewrite !map_app. cbn [map]. now rewrite Hl.
  - inversion Hf; subst. now constructor.
  - destruct below as [|parent rest]; [exact I|].
    cbn [chain] in *. split; [|apply Hc].
    destruct Hc as [Hc _]. revert Hc. now apply edge_ok_keys.
Qed.

Lemma text_inv_pop (base_id : string) (top parent : Node)
  (rest : list Node) :
  text_inv base_id (top :: parent :: rest) ->
  text_inv base_id (add_child parent top :: rest).
Proof.
  intros [Hg [Hids [Hf Hc]]].
  destruct (key_add_child parent top) as [Hi [Hl Hv]].
  apply (text_inv_retop base_id parent); try assumption.
  - inversion Hf as [|? ? Ht Hf']; subst. inversion Hf'; subst.
    apply tree_ok_add_child; try assumption. apply Hc.
  - split; [|split; [|split]].
    + apply (good_levels_tail (node_level top)); [discriminate | exact Hg].
    + apply Hids.
    + now inversion Hf.
    + apply Hc.
Qed.

Lemma srev_app_spec (s acc : string) :
  Py.srev_app s acc = Py.srev s ++ acc.
Proof.
  unfold Py.srev. revert acc.
  induction s as [|c s IH]; intros acc; cbn; [reflexivity|].
  rewrite IH, (IH (String c "")), append_assoc. reflexivity.
Qed.

Lemma srev_cons (c : ascii) (s : string) :
  Py.srev (String c s) = Py.srev s ++ String c "".
Proof. unfold Py.srev at 1. cbn. apply srev_app_spec. Qed.

Lemma srev_append (a b : string) : Py.srev (a ++ b) = Py.srev b ++ Py.srev a.
Proof.
  induction a as [|c a IH]; cbn [append].
  - cbn. induction (Py.srev b) as [|x r IHr]; cbn; congruence.
  - now rewrite !srev_cons, IH, append_assoc.
Qed.

Lemma srev_involutive (s : string) : Py.srev (Py.srev s) = s.
Proof.
  induction s as [|c s IH]; [reflexivity|].
  now rewrite srev_cons, srev_append, IH.
Qed.

Lemma drop_while_stop (p : ascii -> bool) (s : string) :
  match s with String c _ => p c = false | EmptyString => True end ->
  Py.drop_while p s = s.
Proof. destruct s as [|c s]; cbn; [reflexivity | now intros ->]. Qed.

Lemma alnum_not_paren (c : ascii) :
  is_alnum c = true -> Py.is_paren c = false.
Proof.
  intros H. unfold Py.is_paren.
  destruct (Ascii.eqb c "(") eqn:E1;
    [apply Ascii.eqb_eq in E1; subst; discriminate|].
  destruct (Ascii.eqb c ")") eqn:E2;
    [apply Ascii.eqb_eq in E2; subst; discriminate|].
  reflexivity.
Qed.

Lemma all_chars_srev (q : ascii -> bool) (s : string) :
  Py.all_chars q (Py.srev s) = Py.all_chars q s.
Proof.
  induction s as [|c s IH]; [reflexivity|].
  rewrite srev_cons, all_chars_app, IH. cbn.
  now rewrite andb_true_r, andb_comm.
Qed.

Lemma head_not_paren (s : string) :
  Py.all_chars is_alnum s = true ->
  match s with String c _ => Py.is_paren c = false | EmptyString => True end.
Proof.
  destruct s as [|c s]; cbn; [trivial|].
  rewrite andb_true_iff. intros [H _]. now apply alnum_not_paren.
Qed.

(** Stripping the parentheses of a parenthesised alphanumeric label gives
    the label back. *)
Lemma strip_parens_label (l : string) :
  Py.nonempty l = true -> Py.all_chars is_alnum l = true ->
  Py.strip_parens ("(" ++ l ++ ")") = l.
Proof.
  intros Hne Hall. unfold Py.strip_parens, Py.strip_by.
  cbn [append Py.drop_while Py.is_paren Ascii.eqb Bool.eqb orb].
  replace (Py.is_paren "(") with true by reflexivity.
  destruct l as [|c l]; [discriminate|].
  rewrite (drop_while_stop Py.is_paren (String c l ++ ")"));
    [|apply (head_not_paren (String c l)), Hall].
  rewrite srev_append.
  change (Py.srev ")") with ")".
  change (Py.drop_while Py.is_paren (")" ++ Py.srev (String c l)))
    with (Py.drop_while Py.is_paren (Py.srev (String c l))).
  rewrite drop_while_stop; [apply srev_involutive|].
  apply head_not_paren. now rewrite all_chars_srev.
Qed.

Lemma concat_empty_cons (x : string) (l : list string) :
  Py.join "" (x :: l) = x ++ Py.join "" l.
Proof.
  unfold Py.join. destruct l as [|y l]; cbn [String.concat].
  - induction x as [|c x IH]; cbn; congruence.
  - reflexivity.
Qed.

Lemma join_empty_snoc (l : list string) (x : string) :
  Py.join "" (l ++ [x])%list = Py.join "" l ++ x.
Proof.
  induction l as [|y l IH].
  - cbn [app]. rewrite concat_empty_cons. cbn.
    induction x as [|c x IHx]; cbn; congruence.
  - cbn [app]. now rewrite !concat_empty_cons, IH, append_assoc.
Qed.

Lemma labelled_shape (line level label : string) (pos : nat) :
  labelled line = Some (level, label, pos) ->
  Py.nonempty label = true /\ Py.all_chars is_alnum label = true /\
  exists j, index_of level LEVEL_ORDER = Some j /\ 1 <= j.
Proof.
  unfold labelled.
  destruct (detect_label line) as [[[lv|] [lb|]] ps] eqn:H; try discriminate.
  destruct (Py.nonempty lv && Py.nonempty lb); [|discriminate].
  intros [= <- <- <-].
  pose proof H as Hs. apply detect_label_inv in Hs.
  destruct Hs as [p [n [l [w [rest [Hin [[= <-] [_ [_ [_ Hrun]]]]]]]]]].
  destruct (run_of_alnum p n lb (label_class_alnum _ _ _ Hin) Hrun)
    as [Hne Hall].
  repeat split; try assumption.
  unfold detect_label in H. apply first_label_level in H. cbn in H.
  destruct H as [<-|[<-|[<-|[<-|[<-|[<-|[<-|[]]]]]]]];
    eexists; (split; [reflexivity | lia]).
Qed.

Lemma pop_while_inv (base_id : string) (level_idx : nat) :
  forall below top stack',
    text_inv base_id (top :: below) ->
    pop_while level_idx top below = Some stack' ->
    text_inv base_id stack' /\
    exists top' below',
      stack' = top' :: below' /\
      (below' = [] \/
       exists i, index_of (node_level top') LEVEL_ORDER = Some i /\
                 i < level_idx).
Proof.
  induction below as [|parent rest IH]; intros top stack' Hinv;
    cbn [pop_while].
  - intros [= <-]. split; [exact Hinv|]. eauto.
  - destruct (index_of (node_level top) LEVEL_ORDER) as [i|] eqn:Hi;
      [|discriminate].
    destruct (Nat.leb level_idx i) eqn:Hle.
    + apply IH. now apply text_inv_pop.
    + intros [= <-]. split; [exact Hinv|].
      apply Nat.leb_gt in Hle. eauto 10.
Qed.

Lemma rev_cons_tl (node : Node) (stack : list Node) :
  stack <> [] -> tl (rev (node :: stack)) = (tl (rev stack) ++ [node])%list.
Proof.
  intros Hne. cbn [rev].
  destruct (rev stack) as [|r rs] eqn:E; [|reflexivity].
  exfalso. apply Hne.
  rewrite <- (rev_involutive stack), E. reflexivity.
Qed.

Lemma label_path_push (node : Node) (stack : list Node) :
  stack <> [] ->
  label_path (node :: stack)
  = label_path stack ++ "(" ++ Py.strip_parens (node_label node) ++ ")".
Proof.
  intros Hne. unfold label_path.
  rewrite rev_cons_tl, map_app by assumption. cbn [map].
  now rewrite join_empty_snoc.
Qed.

Lemma text_inv_push (base_id level label : string)
  (heading_text : option string) (text : string) (stack : list Node) :
  text_inv base_id stack ->
  Py.nonempty label = true -> Py.all_chars is_alnum label = true ->
  (exists top below,
     stack = top :: below /\
     exists j, index_of level LEVEL_ORDER = Some j /\ 1 <= j /\
       (below = [] \/
        exists i, index_of (node_level top) LEVEL_ORDER = Some i /\ i < j)) ->
  text_inv base_id
    (mkNode (make_node_id base_id (rev stack) label) ("(" ++ label ++ ")")
            level heading_text text [] :: stack).
Proof.
  intros [Hg [Hids [Hf Hc]]] Hne Hall
         [top [below [-> [j [Hj [Hj1 Hdeep]]]]]].
  assert (Hid : make_node_id base_id (rev (top :: below)) label
                = base_id ++ label_path (top :: below) ++ "(" ++ label ++ ")").
  { unfold make_node_id, label_path. now rewrite join_empty_snoc. }
  split; [|split; [|split]].
  - apply good_levels_cons; [cbn [node_level]; rewrite Hj; discriminate
                            | exact Hg].
  - cbn [ids_ok]. split; [|exact Hids]. cbn [node_id]. rewrite Hid.
    rewrite (label_path_push _ (top :: below)) by discriminate.
    cbn [node_label]. now rewrite strip_parens_label.
  - constructor; [constructor | exact Hf].
  - cbn [chain]. split; [|exact Hc]. split.
    + cbn [node_id node_label]. rewrite Hid.
      destruct Hids as [-> _]. now rewrite append_assoc.
    + cbn [node_level]. destruct Hdeep as [->|[i [Hi Hlt]]].
      * destruct Hg as [_ Hlast]. cbn in Hlast. rewrite Hlast.
        exists 0, j. repeat split; [exact Hj | lia].
      * exists i, j. auto.
Qed.

Lemma step_inv (base_id header_line : string) (stack stack' : list Node)
  (line : string) :
  text_inv base_id stack ->
  step base_id header_line stack line = Some stack' ->
  text_inv base_id stack'.
Proof.
  intros Hinv. unfold step.
  destruct (String.eqb _ _); [now intros [= <-]|].
  destruct stack as [|top below]; [discriminate|].
  destruct (labelled line) as [[[level label] pos]|] eqn:Hl.
  - destruct (labelled_shape _ _ _ _ Hl) as [Hne [Hall [j [Hj Hj1]]]].
    rewrite Hj.
    destruct (pop_while j top below) as [popped|] eqn:Hp; [|discriminate].
    destruct (pop_while_inv base_id j below top popped Hinv Hp)
      as [Hinv' [top' [below' [-> Hdeep]]]].
    destruct (heading_and_body _) as [heading_text body_text].
    unfold new_node.
    destruct (Py.nonempty (node_text _)); intros [= <-];
      cbn [set_text]; apply text_inv_push; try assumption; eauto 10.
  - destruct (key_set_text (node_text top ++ " " ++ Py.strip line) top)
      as [Hi1 [Hl1 Hv1]].
    destruct (key_set_text (Py.strip line) top) as [Hi2 [Hl2 Hv2]].
    assert (Ht : tree_ok top) by (destruct Hinv as [_ [_ [Hf _]]];
                                  now inversion Hf).
    destruct (Py.nonempty (Py.strip line)); [|now intros [= <-]].
    destruct (Py.nonempty (node_text top)); intros [= <-];
      apply (text_inv_retop base_id top); try assumption;
      now apply tree_ok_set_text.
Qed.

Lemma run_lines_inv (base_id header_line : string) (lines : list string) :
  forall stack stack',
    text_inv base_id stack ->
    run_lines base_id header_line stack lines = Some stack' ->
    text_inv base_id stack'.
Proof.
  induction lines as [|line lines IH]; intros stack stack' Hinv;
    cbn [run_lines].
  - now intros [= <-].
  - destruct (step base_id header_line stack line) as [stack1|] eqn:Hs;
      [|discriminate].
    apply IH. eapply step_inv; eassumption.
Qed.

Lemma append_empty_r (s : string) : s ++ "" = s.
Proof. induction s as [|c s IH]; cbn; congruence. Qed.

Lemma close_all_inv (base_id : string) :
  forall below top,
    text_inv base_id (top :: below) ->
    tree_ok (close_all top below) /\ node_id (close_all top below) = base_id.
Proof.
  induction below as [|parent rest IH]; intros top Hinv; cbn [close_all].
  - destruct Hinv as [_ [[Hid _] [Hf _]]]. split; [now inversion Hf|].
    rewrite Hid. unfold label_path. cbn. apply append_empty_r.
  - apply IH. now apply text_inv_pop.
Qed.

Lemma build_text_tree (text base_id doc_type : string) (source : Source)
  (heading : option string) (header_line : string) (r : ParseResult) :
  build_text text base_id doc_type source heading header_line = Some r ->
  exists root,
    doc_nodes (document r) = Some [root] /\
    doc_id (document r) = Some (node_id root) /\ tree_ok root.
Proof.
  unfold build_text.
  destruct (run_lines base_id header_line _ _) as [[|top below]|] eqn:Hr;
    try discriminate.
  intros [= <-]. cbn [document doc_nodes doc_id].
  apply run_lines_inv in Hr.
  - destruct (close_all_inv base_id below top Hr) as [Ht Hid].
    eexists. split; [reflexivity|]. now rewrite Hid.
  - split; [|split; [|split]].
    + split; [repeat constructor; discriminate | reflexivity].
    + cbn. split; [|exact I]. unfold label_path. cbn.
      now rewrite append_empty_r.
    + repeat constructor.
    + exact I.
Qed.

Lemma parse_text_tree (source_text source_type citation_hint : string)
  (r : ParseResult) :
  parse_text source_text source_type citation_hint = Some r ->
  needs_llm_assist r = false ->
  exists root,
    doc_nodes (document r) = Some [root] /\
    doc_id (document r) = Some (node_id root) /\ tree_ok root.
Proof.
  unfold parse_text.
  destruct (m_cfr _ _) as [m|].
  - destruct (Py.int _); [|discriminate]. intros H _.
    now apply build_text_tree in H.
  - destruct (m_usc _ _) as [m|].
    + destruct (Py.int _); [|discriminate]. intros H _.
      now apply build_text_tree in H.
    + intros [= <-]. discriminate.
Qed.

(** X2.  In a document that text mode builds, the root has the document's
    identifier and every other node's identifier is its parent's identifier
    followed by its own label. *)
Theorem text_node_ids (fromstring : string -> option Element)
  (source_text source_type citation_hint input_format : string)
  (r : ParseResult) :
  Py.lower input_format <> "uslm" ->
  parse fromstring source_text source_type citation_hint input_format
    = Some r ->
  needs_llm_assist r = false ->
  exists root,
    doc_nodes (document r) = Some [root] /\
    doc_id (document r) = Some (node_id root) /\
    forall parent child,
      In (parent, child) (edges root) ->
      node_id child = node_id parent ++ node_label child.
Proof.
  intros Hfmt. unfold parse.
  destruct (String.eqb _ "uslm") eqn:E;
    [apply String.eqb_eq in E; contradiction|].
  intros Hp Hn.
  destruct (parse_text_tree _ _ _ _ Hp Hn) as [root [Hnodes [Hid Ht]]].
  exists root. repeat split; try assumption.
  intros parent child Hin. unfold tree_ok in Ht.
  rewrite Forall_forall in Ht. apply (Ht _ Hin).
Qed.

(** X3.  In a document that text mode builds, every node's level comes later
    in [LEVEL_ORDER] than its parent's. *)
Theorem text_levels_nested (fromstring : string -> option Element)
  (source_text source_type citation_hint input_format : string)
  (r : ParseResult) :
  Py.lower input_format <> "uslm" ->
  parse fromstring source_text source_type citation_hint input_format
    = Some r ->
  needs_llm_assist r = false ->
  exists root,
    doc_nodes (document r) = Some [root] /\
    node_level root = "section" /\
    forall parent child,
      In (parent, child) (edges root) ->
      deeper (node_level parent) (node_level child).
Proof.
  intros Hfmt. unfold parse.
  destruct (String.eqb _ "uslm") eqn:E;
    [apply String.eqb_eq in E; contradiction|].
  intros Hp Hn.
  destruct (parse_text_tree _ _ _ _ Hp Hn) as [root [Hnodes [Hid Ht]]].
  exists root. split; [exact Hnodes|]. split.
  - pose proof (parse_text_shape _ _ _ _ Hp) as Hm.
    destruct (header_match _ _).
    + destruct Hm as [_ [_ [_ [root' [Hnodes' Hlv]]]]].
      rewrite Hnodes in Hnodes'. now injection Hnodes' as <-.
    + subst r. discriminate.
  - intros parent child Hin. unfold tree_ok in Ht.
    rewrite Forall_forall in Ht. apply (Ht _ Hin).
Qed.

Lemma text_node_ids_witness :
  Py.lower "text" <> "uslm" /\
  exists r,
    parse Scenario.no_xml Scenario.complex_text "USC" "" "text" = Some r /\
    needs_llm_assist r = false /\
    exists root,
      doc_nodes (document r) = Some [root] /\
      doc_id (document r) = Some (node_id root) /\
      forall parent child,
        In (parent, child) (edges root) ->
        node_id child = node_id parent ++ node_label child.
Proof.
  split; [discriminate|].
  eexists. split; [vm_compute; reflexivity|]. split; [reflexivity|].
  eapply (text_node_ids Scenario.no_xml Scenario.complex_text "USC" "" "text");
    [discriminate | vm_compute; reflexivity | reflexivity].
Defined.

Lemma text_levels_nested_witness :
  Py.lower "text" <> "uslm" /\
  exists r,
    parse Scenario.no_xml Scenario.complex_text "USC" "" "text" = Some r /\
    needs_llm_assist r = false /\
    exists root,
      doc_nodes (document r) = Some [root] /\
      node_level root = "section" /\
      forall parent child,
        In (parent, child) (edges root) ->
        deeper (node_level parent) (node_level child).
Proof.
  split; [discriminate|].
  eexists. split; [vm_compute; reflexivity|]. split; [reflexivity|].
  eapply (text_levels_nested Scenario.no_xml Scenario.complex_text "USC" ""
            "text"); [discriminate | vm_compute; reflexivity | reflexivity].
Defined.

End TextTree.

Section Links.
Import Re ParseStatute ResolveLinks Spec MatchProps LabelProps TreeProps LinkProps.

Lemma in_somes {A : Type} (x : A) (l : list (option A)) :
  In x (somes l) -> In (Some x) l.
Proof.
  induction l as [|[y|] l IH]; cbn; [tauto| |auto].
  intros [->|H]; auto.
Qed.

(** Every link of a node comes from a match of one of the three patterns
    in the node's text. *)
Lemma node_matches_inv (ctx : Context) (node : Node) (lr : Link * Replacement) :
  In lr (node_matches ctx node) ->
  exists m,
    (In m (finditer REL_REF (node_text node)) \/
     In m (finditer THIS_REF (node_text node)) \/
     In m (finditer ABS_REF (node_text node))) /\
    made_from node m lr.
Proof.
  unfold node_matches. fold (relation_of (node_text node)).
  rewrite !in_app_iff. intros [H|[H|H]].
  - apply in_map_iff in H. destruct H as [m [<- Hm]].
    exists m. split; [auto|]. unfold made_from, rel_ref_link. cbn. auto 10.
  - apply in_somes, in_map_iff in H. destruct H as [m [He Hm]].
    exists m. split; [auto|]. unfold this_ref_link in He.
    destruct (nearest_ancestor_of_level _ _); [|discriminate].
    injection He as <-. unfold made_from. cbn. auto 10.
  - apply in_map_iff in H. destruct H as [m [<- Hm]].
    exists m. split; [auto|]. unfold made_from, abs_ref_link. cbn. auto 10.
Qed.

Lemma group_str_spans (s : string) (m : rmatch_obj) :
  spans_text s m ->
  exists pre post,
    s = pre ++ group_str 0 m ++ post /\
    m_start m = String.length pre /\
    m_end m = String.length pre + String.length (group_str 0 m).
Proof.
  intros [pre [xs [post [Hs [H1 [H2 Hg]]]]]].
  exists pre, post. unfold group_str. rewrite Hg. auto.
Qed.

Lemma finditer_any_spans (text : string) (m : rmatch_obj) :
  In m (finditer REL_REF text) \/ In m (finditer THIS_REF text) \/
  In m (finditer ABS_REF text) ->
  spans_text text m.
Proof. intros [H|[H|H]]; eapply finditer_spans; exact H. Qed.

Lemma first_cue_in (cues : list (string * regex)) (text r : string) :
  first_cue cues text = Some r -> In r (map fst cues).
Proof.
  induction cues as [|[rel pat] cues IH]; cbn; [discriminate|].
  destruct (search pat text); [intros [= <-]; now left | auto].
Qed.

Lemma relation_of_known (text : string) : In (relation_of text) RELATIONS.
Proof.
  unfold relation_of, detect_relation.
  destruct (first_cue RELATION_CUES text) as [r|] eqn:E.
  - apply first_cue_in in E. cbn in E.
    destruct E as [<-|[<-|[<-|[<-|[<-|[]]]]]]; cbn; auto 10.
  - destruct (_ || _); cbn; auto 10.
Qed.

Lemma resolve_links_in (d : Document) (root : Node) (others : list Node)
  (links : list Link) (l : Link) :
  doc_nodes d = Some (root :: others) ->
  doc_links (resolve d) = Some links -> In l links ->
  exists node lr,
    In node (flatten_nodes root) /\ Py.nonempty (node_text node) = true /\
    In lr (node_matches (make_context d root) node) /\ l = fst lr.
Proof.
  intros Hn. unfold resolve. rewrite Hn. cbn. intros [= <-] Hin.
  apply in_flat_map in Hin. destruct Hin as [node [Hnode Hl]].
  unfold node_links in Hl.
  destruct (Py.nonempty (node_text node)) eqn:Ht; [|destruct Hl].
  apply in_map_iff in Hl. destruct Hl as [lr [<- Hlr]].
  exists node, lr. auto.
Qed.

(** X4.  Every link that [resolve] returns was made for a phrase in the text
    of a node of the tree: its source is the node's identifier, its relation
    is the one relation computed for the whole text of that node, and its
    reference text occurs in that text. *)
Theorem resolve_links_provenance (d : Document) (root : Node)
  (others : list Node) (links : list Link) (l : Link) :
  doc_nodes d = Some (root :: others) ->
  doc_links (resolve d) = Some links -> In l links ->
  exists node pre post,
    In node (flatten_nodes root) /\
    lk_source l = node_id node /\
    lk_relation l = relation_of (node_text node) /\
    node_text node = pre ++ lk_ref_text l ++ post.
Proof.
  intros Hn Hl Hin.
  destruct (resolve_links_in d root others links l Hn Hl Hin)
    as [node [lr [Hnode [_ [Hlr ->]]]]].
  apply node_matches_inv in Hlr. destruct Hlr as [m [Hm Hmade]].
  destruct Hmade as [Hs [Hr [Hrt _]]].
  apply finditer_any_spans, group_str_spans in Hm.
  destruct Hm as [pre [post [Htext _]]].
  exists node, pre, post. rewrite Hrt. auto.
Qed.

(** X5.  Every link that [resolve] returns has a relation of the fixed
    vocabulary; it is an intra-section link of confidence 0.95 or 0.9, or an
    inter-section link of confidence 0.95. *)
Theorem resolve_links_vocabulary (d : Document) (root : Node)
  (others : list Node) (links : list Link) (l : Link) :
  doc_nodes d = Some (root :: others) ->
  doc_links (resolve d) = Some links -> In l links ->
  In (lk_relation l) RELATIONS /\
  ((lk_scope l = "intra-section" /\
    (lk_confidence l = 95 # 100 \/ lk_confidence l = 9 # 10))
   \/ (lk_scope l = "inter-section" /\ lk_confidence l = 95 # 100)).
Proof.
  intros Hn Hl Hin.
  destruct (resolve_links_in d root others links l Hn Hl Hin)
    as [node [lr [Hnode [_ [Hlr ->]]]]].
  apply node_matches_inv in Hlr. destruct Hlr as [m [_ Hmade]].
  destruct Hmade as [_ [Hr [_ [_ Hsc]]]].
  split; [rewrite Hr; apply relation_of_known | exact Hsc].
Qed.

Lemma resolve_links_provenance_witness :
  doc_nodes Scenario.phrase_title_doc = Some [title_root] /\
  doc_links (resolve Scenario.phrase_title_doc) = Some [title_link] /\
  exists node pre post,
    In node (flatten_nodes title_root) /\
    lk_source title_link = node_id node /\
    lk_relation title_link = relation_of (node_text node) /\
    node_text node = pre ++ lk_ref_text title_link ++ post.
Proof.
  split; [reflexivity|]. split; [vm_compute; reflexivity|].
  apply (resolve_links_provenance Scenario.phrase_title_doc title_root []
           [title_link] title_link);
    [reflexivity | vm_compute; reflexivity | now left].
Defined.

Lemma resolve_links_vocabulary_witness :
  doc_nodes Scenario.phrase_title_doc = Some [title_root] /\
  doc_links (resolve Scenario.phrase_title_doc) = Some [title_link] /\
  In (lk_relation title_link) RELATIONS /\
  ((lk_scope title_link = "intra-section" /\
    (lk_confidence title_link = 95 # 100 \/
     lk_confidence title_link = 9 # 10))
   \/ (lk_scope title_link = "inter-section" /\
       lk_confidence title_link = 95 # 100)).
Proof.
  split; [reflexivity|]. split; [vm_compute; reflexivity|].
  apply (resolve_links_vocabulary Scenario.phrase_title_doc title_root []
           [title_link] title_link);
    [reflexivity | vm_compute; reflexivity | now left].
Defined.

Lemma node_matches_none (ctx : Context) (node : Node) :
  no_reference (node_text node) -> node_matches ctx node = [].
Proof.
  intros [H1 [H2 H3]]. unfold node_matches. now rewrite H1, H2, H3.
Qed.

Lemma node_new_text_none (ctx : Context) (node : Node) :
  no_reference (node_text node) -> node_new_text ctx node = node_text node.
Proof.
  intros H. unfold node_new_text. rewrite (node_matches_none ctx node H).
  now destruct (Py.nonempty _).
Qed.

Lemma rewrite_node_same (ctx : Context) (n : Node) :
  (forall x, In x (flatten_nodes n) -> no_reference (node_text x)) ->
  rewrite_node ctx n = n.
Proof.
  induction n as [i l lv h t cs IH] using Node_forall_ind.
  intros H. cbn [rewrite_node].
  rewrite (node_new_text_none ctx (mkNode i l lv h t cs));
    [|apply H; now left].
  cbn [node_text]. f_equal.
  assert (Hcs : forall c x, In c cs -> In x (flatten_nodes c) ->
                            no_reference (node_text x)).
  { intros c x Hc Hx. apply H. cbn [flatten_nodes]. right.
    apply in_flat_map. eauto. }
  clear H. induction IH as [|c cs' Hc _ IHcs]; cbn [map]; [reflexivity|].
  rewrite Hc, IHcs; [reflexivity | |].
  - intros c' x Hc' Hx. apply (Hcs c' x); [now right | exact Hx].
  - intros x Hx. apply (Hcs c x); [now left | exact Hx].
Qed.

Lemma links_none (ctx : Context) (nodes : list Node) :
  (forall x, In x nodes -> no_reference (node_text x)) ->
  flat_map (node_links ctx) nodes = [].
Proof.
  induction nodes as [|n nodes IH]; intros H; cbn [flat_map]; [reflexivity|].
  rewrite IH by (intros x Hx; apply H; now right).
  unfold node_links. rewrite (node_matches_none ctx n); [|apply H; now left].
  now destruct (Py.nonempty _).
Qed.

(** X6.  When no node's text has a phrase of any of the three reference
    patterns, [resolve] returns the document with an empty list of links and
    every node as it was. *)
Theorem resolve_no_references (d : Document) (root : Node)
  (others : list Node) :
  doc_nodes d = Some (root :: others) ->
  (forall node, In node (flatten_nodes root) ->
                no_reference (node_text node)) ->
  resolve d = set_links [] d.
Proof.
  intros Hn H. unfold resolve. rewrite Hn.
  rewrite rewrite_node_same, links_none by assumption.
  destruct d; cbn in *. now rewrite Hn.
Qed.

Lemma resolve_no_references_witness :
  doc_nodes plain_doc = Some [plain_root] /\
  resolve plain_doc = set_links [] plain_doc.
Proof.
  split; [reflexivity|].
  apply (resolve_no_references plain_doc plain_root []); [reflexivity|].
  intros node [<-|[<-|[]]]; repeat split; vm_compute; reflexivity.
Defined.

Lemma drop_app_length (a b : string) : Py.drop (String.length a) (a ++ b) = b.
Proof. induction a as [|c a IH]; cbn; [now destruct b | exact IH]. Qed.

(** The replacement made for a match puts the pointer after the matched
    text and leaves the text before and after it alone. *)
Lemma apply_replacement_at (pre ref post target : string) :
  apply_replacement (pre ++ ref ++ post)
    (String.length pre, String.length pre + String.length ref,
     pointer ref target)
  = pre ++ ref ++ " [[" ++ target ++ "]]" ++ post.
Proof.
  assert (Hd : Py.drop (String.length pre + String.length ref)
                       (pre ++ ref ++ post) = post).
  { rewrite <- length_append, <- (append_assoc pre ref post).
    apply drop_app_length. }
  unfold apply_replacement, pointer.
  rewrite take_app_length, Hd. now rewrite !append_assoc.
Qed.

(** X7.  When the text of a node has exactly one reference phrase, the text
    after [resolve] is the text before with the pointer to the link's target
    put right after the phrase. *)
Theorem single_reference_pointer (ctx : Context) (node : Node) (l : Link)
  (rep : Replacement) :
  Py.nonempty (node_text node) = true ->
  node_matches ctx node = [(l, rep)] ->
  exists pre post,
    node_text node = pre ++ lk_ref_text l ++ post /\
    node_new_text ctx node
    = pre ++ lk_ref_text l ++ " [[" ++ lk_target l ++ "]]" ++ post.
Proof.
  intros Hne Hm.
  assert (Hin : In (l, rep) (node_matches ctx node)) by (rewrite Hm; now left).
  apply node_matches_inv in Hin. destruct Hin as [m [Hfi Hmade]].
  destruct Hmade as [_ [_ [Hrt [Hrep _]]]]. cbn [fst snd] in *.
  apply finditer_any_spans, group_str_spans in Hfi.
  destruct Hfi as [pre [post [Htext [Hs He]]]].
  exists pre, post. rewrite Hrt. split; [exact Htext|].
  unfold node_new_text. rewrite Hne, Hm. cbn [map snd sorted_desc fold_left
                                              insert_desc].
  rewrite Hrep, Hs, He, Hrt, Htext at 1.
  apply apply_replacement_at.
Qed.

Lemma single_reference_pointer_witness :
  Py.nonempty (node_text title_root) = true /\
  node_matches (make_context Scenario.phrase_title_doc title_root) title_root
    = [(title_link, (4, 13, "section 9 [[usc:section 9 x:9]]"))] /\
  exists pre post,
    node_text title_root = pre ++ lk_ref_text title_link ++ post /\
    node_new_text (make_context Scenario.phrase_title_doc title_root)
                  title_root
    = pre ++ lk_ref_text title_link ++ " [[" ++ lk_target title_link ++ "]]"
          ++ post.
Proof.
  split; [reflexivity|]. split; [vm_compute; reflexivity|].
  apply (single_reference_pointer _ title_root title_link
           (4, 13, "section 9 [[usc:section 9 x:9]]"));
    [reflexivity | vm_compute; reflexivity].
Defined.

Lemma take_length (n : nat) (s : string) :
  String.length (Py.take n s) = Nat.min n (String.length s).
Proof.
  revert s. induction n as [|n IH]; intros [|c s]; cbn; auto.
Qed.

Lemma drop_length (n : nat) (s : string) :
  String.length (Py.drop n s) = String.length s - n.
Proof.
  revert s. induction n as [|n IH]; intros [|c s]; cbn; auto.
Qed.

Lemma apply_replacement_length (n : nat) (t : string) (rep : Replacement) :
  rep_ok n rep -> n <= String.length t ->
  String.length (apply_replacement t rep) = String.length t + growth rep.
Proof.
  destruct rep as [[s e] r]. unfold rep_ok, growth, apply_replacement. cbn.
  intros [H1 [H2 H3]] Hn.
  rewrite !length_append, take_length, drop_length. lia.
Qed.

Lemma list_sum_cons (a : nat) (l : list nat) :
  list_sum (a :: l) = a + list_sum l.
Proof. reflexivity. Qed.

Lemma fold_replacements_length (n : nat) (reps : list Replacement) :
  forall t,
    Forall (rep_ok n) reps -> n <= String.length t ->
    String.length (fold_left apply_replacement reps t)
    = String.length t + list_sum (map growth reps).
Proof.
  induction reps as [|rep reps IH]; intros t Hf Hn; cbn [fold_left map].
  - cbn. lia.
  - inversion Hf as [|? ? Hr Hf']; subst.
    rewrite list_sum_cons.
    rewrite IH; [|exact Hf'|].
    + rewrite (apply_replacement_length n) by assumption. lia.
    + rewrite (apply_replacement_length n) by assumption. lia.
Qed.

Lemma insert_desc_sum (f : Replacement -> nat) (x : Replacement)
  (l : list Replacement) :
  list_sum (map f (insert_desc x l)) = f x + list_sum (map f l).
Proof.
  induction l as [|y l IH]; cbn [insert_desc map]; [reflexivity|].
  destruct (Nat.leb _ _); cbn [map]; rewrite !list_sum_cons;
    [rewrite IH|]; lia.
Qed.

Lemma insert_desc_forall (P : Replacement -> Prop) (x : Replacement)
  (l : list Replacement) :
  P x -> Forall P l -> Forall P (insert_desc x l).
Proof.
  intros Hx. induction 1 as [|y l Hy Hl IH]; cbn [insert_desc].
  - now constructor.
  - destruct (Nat.leb _ _); constructor; auto.
Qed.

Lemma sorted_desc_sum (f : Replacement -> nat) (l : list Replacement) :
  list_sum (map f (sorted_desc l)) = list_sum (map f l).
Proof.
  unfold sorted_desc.
  assert (H : forall acc,
             list_sum (map f (fold_left (fun acc x => insert_desc x acc) l acc))
             = list_sum (map f l) + list_sum (map f acc)).
  { induction l as [|x l IH]; intros acc; cbn [fold_left map].
    - reflexivity.
    - rewrite IH, insert_desc_sum, list_sum_cons. lia. }
  rewrite H. cbn. lia.
Qed.

Lemma sorted_desc_forall (P : Replacement -> Prop) (l : list Replacement) :
  Forall P l -> Forall P (sorted_desc l).
Proof.
  unfold sorted_desc.
  assert (H : forall acc, Forall P l -> Forall P acc ->
             Forall P (fold_left (fun acc x => insert_desc x acc) l acc)).
  { induction l as [|x l IH]; intros acc Hl Ha; cbn [fold_left]; [exact Ha|].
    inversion Hl; subst. apply IH; [assumption|].
    now apply insert_desc_forall. }
  intros Hl. now apply H.
Qed.

Lemma node_matches_rep (ctx : Context) (node : Node)
  (lr : Link * Replacement) :
  In lr (node_matches ctx node) ->
  rep_ok (String.length (node_text node)) (snd lr) /\
  growth (snd lr) = String.length (lk_target (fst lr)) + 5.
Proof.
  intros Hin. apply node_matches_inv in Hin.
  destruct Hin as [m [Hfi [_ [_ [Hrt [Hrep _]]]]]].
  apply finditer_any_spans, group_str_spans in Hfi.
  destruct Hfi as [pre [post [Htext [Hs He]]]].
  rewrite Hrep, Hrt, Htext, Hs, He. unfold rep_ok, growth, pointer. cbn.
  rewrite !length_append. cbn. rewrite !length_append. cbn. lia.
Qed.

(** The replacements of a node, applied from the last to the first, add
    their pointers to the length of the text. *)
Lemma replaced_text_length (ctx : Context) (node : Node) :
  String.length
    (fold_left apply_replacement
       (sorted_desc (map snd (node_matches ctx node))) (node_text node))
  = String.length (node_text node)
    + list_sum (map (fun l => String.length (lk_target l) + 5)
                    (map fst (node_matches ctx node))).
Proof.
  rewrite (fold_replacements_length (String.length (node_text node)));
    [|apply sorted_desc_forall|lia].
  - rewrite sorted_desc_sum, !map_map. f_equal. f_equal.
    apply map_ext_in. intros lr Hlr.
    apply (node_matches_rep ctx node lr Hlr).
  - rewrite Forall_map, Forall_forall. intros lr Hlr.
    apply (node_matches_rep ctx node lr Hlr).
Qed.

(** X8.  [resolve] never removes a character of a node's text: the text grows
    by the pointers of the node's links, five characters and the target for
    each link. *)
Theorem node_text_growth (ctx : Context) (node : Node) :
  String.length (node_new_text ctx node)
  = String.length (node_text node) + pointer_length (node_links ctx node).
Proof.
  unfold node_new_text, node_links, pointer_length.
  destruct (Py.nonempty (node_text node)); [|cbn; lia].
  pose proof (replaced_text_length ctx node) as H.
  destruct (map snd (node_matches ctx node)) eqn:E; [|exact H].
  cbn in H. exact H.
Qed.

End Links.

Section SecondRun.
Import Re ParseStatute ResolveLinks Spec LinkProps.
Local Open Scope list_scope.






End SecondRun.

Section Paths.
Import Re ParseStatute ResolveLinks Spec PathProps.
Local Open Scope list_scope.

Lemma find_app_skip {A : Type} (f : A -> bool) (a b : list A) :
  (forall x, In x a -> f x = false) -> find f (a ++ b) = find f b.
Proof.
  induction a as [|x a IH]; intros H; cbn; [reflexivity|].
  rewrite (H x (or_introl eq_refl)). apply IH.
  intros y Hy. apply H. now right.
Qed.

(** X9.  When the path has nodes of the level asked for,
    [nearest_ancestor_of_level] returns the last of them, the one nearest to
    the referencing node. *)
Theorem nearest_ancestor_found (pre post : list Node) (n : Node)
  (level : string) :
  node_level n = level ->
  (forall x, In x post -> node_level x <> level) ->
  nearest_ancestor_of_level (pre ++ n :: post) level = Some n.
Proof.
  intros Hn Hpost. unfold nearest_ancestor_of_level.
  rewrite rev_app_distr. cbn [rev]. rewrite <- app_assoc. cbn [app].
  rewrite find_app_skip.
  - cbn [find]. rewrite Hn, String.eqb_refl. reflexivity.
  - intros x Hx. apply in_rev in Hx. apply String.eqb_neq. now apply Hpost.
Qed.

Lemma nearest_ancestor_found_witness :
  node_level Scenario.orphan_a = "subsection" /\
  nearest_ancestor_of_level [Scenario.orphan_root; Scenario.orphan_a]
                            "subsection" = Some Scenario.orphan_a.
Proof.
  split; [reflexivity|].
  apply (nearest_ancestor_found [Scenario.orphan_root] [] Scenario.orphan_a);
    [reflexivity | intros x []].
Defined.

Lemma walk_paths_entries (r : Node) :
  forall path0 key p,
    In (key, p) (walk_paths r path0) ->
    exists mid c,
      p = path0 ++ mid ++ [c] /\ key = node_id c /\
      In c (flatten_nodes r) /\ hd_error (mid ++ [c]) = Some r /\
      descends (mid ++ [c]).
Proof.
  induction r as [i l lv h t cs IH] using Node_forall_ind.
  intros path0 key p. cbn [walk_paths flatten_nodes].
  intros [[= <- <-]|Hin].
  - exists [], (mkNode i l lv h t cs). cbn. auto.
  - apply in_flat_map in Hin. destruct Hin as [ch [Hch Hin]].
    rewrite Forall_forall in IH.
    destruct (IH ch Hch _ _ _ Hin) as [mid [c [-> [-> [Hc [Hhd Hd]]]]]].
    exists (mkNode i l lv h t cs :: mid), c.
    rewrite <- app_assoc. repeat split.
    + right. apply in_flat_map. eauto.
    + cbn [app descends].
      destruct (mid ++ [c]) as [|x xs] eqn:E; [destruct mid; discriminate|].
      injection Hhd as ->. split; [exact Hch | exact Hd].
Qed.

Lemma nodup_map_inj {A B : Type} (f : A -> B) (l : list A) (a b : A) :
  NoDup (map f l) -> In a l -> In b l -> f a = f b -> a = b.
Proof.
  induction l as [|x l IH]; cbn; [tauto|].
  intros Hnd Ha Hb Hf. inversion Hnd as [|? ? Hx Hnd']; subst.
  destruct Ha as [->|Ha], Hb as [->|Hb]; auto.
  - exfalso. apply Hx. rewrite Hf. now apply in_map.
  - exfalso. apply Hx. rewrite <- Hf. now apply in_map.
Qed.

(** X10.  When the identifiers of the tree are pairwise different, the path
    that [build_paths] has for a node's identifier is the chain of the node's
    ancestors: it starts at the root, each node is a child of the one before,
    and it ends in the node itself. *)
Theorem distinct_ids_paths (root n : Node) :
  NoDup (map node_id (flatten_nodes root)) ->
  In n (flatten_nodes root) ->
  exists init,
    paths_get (build_paths root) (node_id n) = init ++ [n] /\
    hd_error (init ++ [n]) = Some root /\ descends (init ++ [n]).
Proof.
  intros Hnd Hin.
  destruct (flatten_has_path root [] n Hin) as [p Hp].
  destruct (dict_get_some _ _ _ Hp) as [p' Hget].
  pose proof (dict_get_in _ _ _ Hget) as Hin'.
  destruct (walk_paths_entries root [] _ _ Hin')
    as [mid [c [Hp' [Hid [Hc [Hhd Hd]]]]]].
  cbn [app] in Hp'.
  assert (c = n) by (apply (nodup_map_inj node_id (flatten_nodes root));
                     auto).
  subst c. exists mid. unfold paths_get, build_paths. rewrite Hget, Hp'. auto.
Qed.

Lemma distinct_ids_paths_witness :
  NoDup (map node_id (flatten_nodes Scenario.orphan_root)) /\
  In Scenario.orphan_a (flatten_nodes Scenario.orphan_root) /\
  exists init,
    paths_get (build_paths Scenario.orphan_root) (node_id Scenario.orphan_a)
      = init ++ [Scenario.orphan_a] /\
    hd_error (init ++ [Scenario.orphan_a]) = Some Scenario.orphan_root /\
    descends (init ++ [Scenario.orphan_a]).
Proof.
  assert (Hnd : NoDup (map node_id (flatten_nodes Scenario.orphan_root))).
  { cbn. repeat constructor; cbn; intuition discriminate. }
  assert (Hin : In Scenario.orphan_a (flatten_nodes Scenario.orphan_root))
    by (cbn; auto).
  split; [exact Hnd|]. split; [exact Hin|].
  apply (distinct_ids_paths _ _ Hnd Hin).
Defined.

End Paths.

Section MarkupTree.
Import Re ParseStatute ResolveLinks Spec MatchProps LabelProps TreeProps MarkupProps.

Lemma drop_while_head (p : ascii -> bool) (s : string) :
  match Py.drop_while p s with
  | String c _ => p c = false
  | EmptyString => True
  end.
Proof.
  induction s as [|c s IH]; cbn; [exact I|].
  destruct (p c) eqn:E; [exact IH | exact E].
Qed.

Lemma drop_while_split (p : ascii -> bool) (s : string) :
  exists w, s = w ++ Py.drop_while p s /\ Py.all_chars p w = true.
Proof.
  induction s as [|c s [w [Hs Hw]]]; [now exists ""|].
  cbn. destruct (p c) eqn:E.
  - exists (String c w). cbn. rewrite E, Hw. split; [now f_equal | reflexivity].
  - now exists "".
Qed.

Lemma head_free_app (p : ascii -> bool) (a b : string) :
  a <> "" -> head_free p (a ++ b) -> head_free p a.
Proof. destruct a; [contradiction | auto]. Qed.

(** What [strip] returns neither starts nor ends with a stripped
    character. *)
Lemma strip_by_ends (p : ascii -> bool) (s : string) :
  head_free p (Py.strip_by p s) /\ head_free p (Py.srev (Py.strip_by p s)).
Proof.
  unfold Py.strip_by.
  set (u := Py.drop_while p s).
  set (v := Py.drop_while p (Py.srev u)).
  split.
  - destruct (drop_while_split p (Py.srev u)) as [w [Hs Hw]]. fold v in Hs.
    assert (Hu : u = Py.srev v ++ Py.srev w).
    { rewrite <- (srev_involutive u), Hs. apply srev_append. }
    destruct (Py.srev v) as [|c r] eqn:E; [exact I|].
    pose proof (drop_while_head p s) as Hh. fold u in Hh. rewrite Hu in Hh.
    exact Hh.
  - rewrite srev_involutive. apply drop_while_head.
Qed.

Lemma strip_parens_wrap (v : string) :
  Py.nonempty v = true -> head_free Py.is_paren v ->
  head_free Py.is_paren (Py.srev v) ->
  Py.strip_parens ("(" ++ v ++ ")") = v.
Proof.
  intros Hne Hh Ht. unfold Py.strip_parens, Py.strip_by.
  cbn [append Py.drop_while].
  replace (Py.is_paren "(") with true by reflexivity.
  destruct v as [|c v]; [discriminate|].
  rewrite (drop_while_stop Py.is_paren (String c v ++ ")")); [|exact Hh].
  rewrite srev_append.
  change (Py.srev ")") with ")".
  change (Py.drop_while Py.is_paren (")" ++ Py.srev (String c v)))
    with (Py.drop_while Py.is_paren (Py.srev (String c v))).
  rewrite drop_while_stop; [apply srev_involutive | exact Ht].
Qed.

Lemma label_value_clean (element : Element) :
  Py.nonempty (label_value_of element) = true ->
  Py.strip_parens ("(" ++ label_value_of element ++ ")")
  = label_value_of element.
Proof.
  intros Hne. apply strip_parens_wrap; [exact Hne| |];
    unfold label_value_of, Py.strip_parens; apply strip_by_ends.
Qed.

Lemma build_uslm_node_eq (element : Element) (base_id : string)
  (stack : list Node) :
  build_uslm_node element base_id stack
  = match map_get (local_name (elem_tag element)) USLM_LEVEL_MAP with
    | None => None
    | Some level =>
        if negb (Py.nonempty level)
           || negb (Py.nonempty (label_value_of element))
        then None
        else
          Some (fold_left
                  (fun node child =>
                     if is_level child then
                       match build_uslm_node child base_id
                               (app stack [node]) with
                       | Some built => add_child node built
                       | None => node
                       end
                     else node)
                  (elem_children
                     (first_or element (has_tag "content")
                               (elem_children element)))
                  (new_node base_id stack level (label_value_of element)
                            (heading_of element)
                            (extract_direct_text
                               (find_child "content" element))))
    end.
Proof.
  destruct element as [tag text tail children].
  cbn [build_uslm_node elem_tag elem_children].
  destruct (map_get _ _); [|reflexivity].
  destruct (_ || _); [reflexivity|].
  now destruct (first_or _ _ _).
Qed.

Lemma list_sum_in (f : Element -> nat) (c : Element) (l : list Element) :
  In c l -> f c <= list_sum (map f l).
Proof.
  induction l as [|x l IH]; cbn [In map]; [tauto|].
  rewrite list_sum_cons.
  intros [->|H]; [lia | specialize (IH H); lia].
Qed.

Lemma elem_size_child (e c : Element) :
  In c (elem_children e) -> elem_size c < elem_size e.
Proof.
  destruct e as [tag text tail cs]. cbn. intros H.
  apply (list_sum_in elem_size) in H. lia.
Qed.

Lemma first_or_cases (d : Element) (p : Element -> bool) (l : list Element) :
  first_or d p l = d \/ In (first_or d p l) l.
Proof.
  induction l as [|c l IH]; cbn; [now left|].
  destruct (p c); [right; now left|].
  destruct IH as [->|H]; [now left | right; now right].
Qed.

Lemma ids_derived_add_child (parent child : Node) :
  ids_derived parent -> ids_derived child ->
  node_id child = node_id parent ++ node_label child ->
  ids_derived (add_child parent child).
Proof.
  destruct parent as [i l lv h tx cs]. unfold ids_derived.
  cbn [add_child edges node_id]. intros Hp Hc He p c.
  rewrite map_app, flat_map_app, !in_app_iff. cbn [map flat_map In].
  rewrite app_nil_r, in_map_iff.
  intros [[[x [[= <- <-] Hx]]|[[= <- <-]|[]]]|[H|H]].
  - cbn [node_id]. apply (Hp (mkNode i l lv h tx cs) x).
    cbn [edges]. apply in_or_app. left. now apply in_map.
  - exact He.
  - apply Hp. cbn [edges]. apply in_or_app. now right.
  - now apply Hc.
Qed.

Lemma tl_snoc (stack : list Node) (node : Node) :
  stack <> [] -> tl (stack ++ [node])%list = (tl stack ++ [node])%list.
Proof. destruct stack; [contradiction | reflexivity]. Qed.

(** Adding the children that are built for the stack extended by the node
    keeps the node's identifier and label and the derivation of the
    identifiers below it. *)
Lemma fold_children_built (base_id : string) (stack : list Node)
  (children : list Element) :
  stack <> [] ->
  (forall c, In c children ->
     forall stack' built,
       stack' <> [] -> build_uslm_node c base_id stack' = Some built ->
       built_for base_id stack' built) ->
  forall node,
    built_for base_id stack node ->
    built_for base_id stack
      (fold_left
         (fun node child =>
            if is_level child then
              match build_uslm_node child base_id (app stack [node]) with
              | Some built => add_child node built
              | None => node
              end
            else node)
         children node).
Proof.
  intros Hne. induction children as [|c cs IH]; intros Hcs node Hb;
    cbn [fold_left]; [exact Hb|].
  apply IH; [intros c' Hc'; apply Hcs; now right|].
  destruct (is_level c); [|exact Hb].
  destruct (build_uslm_node c base_id (stack ++ [node])%list) as [built|] eqn:E;
    [|exact Hb].
  apply Hcs in E; [|now left|now destruct stack].
  destruct Hb as [Hid [Hclean Hd]]. destruct E as [Hbid [Hbclean Hbd]].
  destruct (key_add_child node built) as [Hi [Hl _]].
  split; [|split].
  - now rewrite Hi, Hl.
  - unfold clean_label. now rewrite Hl.
  - apply ids_derived_add_child; try assumption.
    rewrite Hbid, Hid, tl_snoc, map_app by assumption. cbn [map].
    rewrite join_empty_snoc. unfold clean_label in Hclean. rewrite Hclean.
    now rewrite !append_assoc.
Qed.

Lemma build_uslm_built (n : nat) :
  forall element base_id stack node,
    elem_size element <= n -> stack <> [] ->
    build_uslm_node element base_id stack = Some node ->
    built_for base_id stack node.
Proof.
  induction n as [|n IH]; intros element base_id stack node Hsize Hne.
  - destruct element; cbn in Hsize; lia.
  - rewrite build_uslm_node_eq.
    destruct (map_get _ _) as [level|]; [|discriminate].
    destruct (negb (Py.nonempty level)
              || negb (Py.nonempty (label_value_of element))) eqn:E;
      [discriminate|].
    apply orb_false_iff in E. destruct E as [_ E].
    apply negb_false_iff in E.
    intros [= <-]. apply fold_children_built; [exact Hne| |].
    + intros c Hc stack' built Hne' Hb.
      apply (IH c base_id stack' built); [|exact Hne'|exact Hb].
      destruct (first_or_cases element (has_tag "content")
                               (elem_children element)) as [Hf|Hf].
      * rewrite Hf in Hc. apply elem_size_child in Hc. lia.
      * apply elem_size_child in Hf. apply elem_size_child in Hc. lia.
    + unfold new_node, built_for, make_node_id. cbn [node_id node_label].
      rewrite join_empty_snoc. split; [reflexivity|]. split.
      * unfold clean_label. cbn [node_label].
        now rewrite label_value_clean.
      * intros p c [].
Qed.

Lemma fold_section_built (base_id : string) (children : list Element) :
  forall section_node,
    node_id section_node = base_id -> ids_derived section_node ->
    let result :=
      fold_left
        (fun section_node child =>
           match build_uslm_node child base_id [section_node] with
           | Some child_built => add_child section_node child_built
           | None => section_node
           end)
        children section_node in
    node_id result = base_id /\ ids_derived result.
Proof.
  induction children as [|c cs IH]; intros node Hid Hd; cbn [fold_left];
    [now split|].
  apply IH.
  - destruct (build_uslm_node c base_id [node]); [|exact Hid].
    now destruct (key_add_child node n) as [-> _].
  - destruct (build_uslm_node c base_id [node]) as [built|] eqn:E;
      [|exact Hd].
    apply (build_uslm_built (elem_size c)) in E; [|lia|discriminate].
    destruct E as [Hbid [_ Hbd]].
    apply ids_derived_add_child; try assumption.
    rewrite Hbid, Hid. reflexivity.
Qed.

(** X11.  In a document that markup mode builds, the root has the document's
    identifier and every other node's identifier is its parent's identifier
    followed by its own label. *)
Theorem markup_node_ids (fromstring : string -> option Element)
  (source_text source_type citation_hint input_format : string)
  (r : ParseResult) :
  Py.lower input_format = "uslm" ->
  parse fromstring source_text source_type citation_hint input_format
    = Some r ->
  needs_llm_assist r = false ->
  exists root,
    doc_nodes (document r) = Some [root] /\
    doc_id (document r) = Some (node_id root) /\
    forall parent child,
      In (parent, child) (edges root) ->
      node_id child = node_id parent ++ node_label child.
Proof.
  intros Hfmt. unfold parse. rewrite Hfmt, String.eqb_refl.
  unfold parse_uslm.
  destruct (fromstring source_text) as [xml|]; [|intros [= <-]; discriminate].
  destruct (if negb _ then _ else _) as [section|];
    [|intros [= <-]; discriminate].
  destruct (metadata_from_hint _ _)
    as [[[[base_id doc_type] source] heading_hint]|]; [|discriminate].
  intros [= <-] _. cbn [document doc_nodes doc_id].
  eexists. split; [reflexivity|].
  set (section_node := mkNode base_id "" "section" _ _ []).
  assert (H0 : node_id section_node = base_id /\ ids_derived section_node)
    by (split; [reflexivity | intros p c []]).
  destruct (find_child "content" section) as [content|].
  - destruct (fold_section_built base_id (elem_children content) section_node
                (proj1 H0) (proj2 H0)) as [Hid Hd].
    rewrite Hid. split; [reflexivity | exact Hd].
  - destruct H0 as [Hid Hd]. rewrite Hid. split; [reflexivity | exact Hd].
Qed.

Lemma markup_node_ids_witness :
  Py.lower "uslm" = "uslm" /\
  exists r,
    parse (fun _ => Some Scenario.uslm_snippet) "" "USC" "26 U.S.C. ยง 999"
          "uslm" = Some r /\
    needs_llm_assist r = false /\
    exists root,
      doc_nodes (document r) = Some [root] /\
      doc_id (document r) = Some (node_id root) /\
      forall parent child,
        In (parent, child) (edges root) ->
        node_id child = node_id parent ++ node_label child.
Proof.
  split; [reflexivity|].
  eexists. split; [vm_compute; reflexivity|]. split; [reflexivity|].
  eapply (markup_node_ids (fun _ => Some Scenario.uslm_snippet) "" "USC"
            "26 U.S.C. ยง 999" "uslm");
    [reflexivity | vm_compute; reflexivity | reflexivity].
Defined.

End MarkupTree.

Section Headings.
Import Re ParseStatute ResolveLinks Spec MatchProps LabelProps HeadingProps.

Lemma match_here_reads (Q : string -> Prop) (r : regex)
  (prev : option ascii) (rest : string) (pos : nat) (m : rmatch_obj) :
  reads Q r ->
  match_here r prev rest pos = Some m ->
  exists xs rest',
    rest = xs ++ rest' /\ Q xs /\ m_start m = pos /\
    m_end m = pos + String.length xs.
Proof.
  intros Hr. unfold match_here.
  destruct (rmatch _ _ _) as [res|] eqn:H; [|discriminate].
  intros [= <-]. cbn [rmatch] in H. apply Hr in H.
  destruct H as [st' [xs [[= <-] [Hrest [Hpos HQ]]]]].
  cbn [ms_rest ms_pos] in *. exists xs, (ms_rest st'). auto.
Qed.

Lemma search_from_reads (Q : string -> Prop) (r : regex) :
  reads Q r ->
  forall rest pre prev m,
    search_from r prev rest (String.length pre) = Some m ->
    exists mid xs post,
      rest = mid ++ xs ++ post /\ Q xs /\
      m_start m = String.length (pre ++ mid) /\
      m_end m = String.length (pre ++ mid) + String.length xs.
Proof.
  intros Hr. induction rest as [|c rest IH]; intros pre prev m;
    cbn [search_from];
    destruct (match_here r prev _ (String.length pre)) eqn:E.
  - intros [= <-]. apply (match_here_reads Q) in E; [|exact Hr].
    destruct E as [xs [rest' [Hs [HQ [H1 H2]]]]].
    exists "", xs, rest'. rewrite append_empty_r. auto.
  - discriminate.
  - intros [= <-]. apply (match_here_reads Q) in E; [|exact Hr].
    destruct E as [xs [rest' [Hs [HQ [H1 H2]]]]].
    exists "", xs, rest'. rewrite append_empty_r. auto.
  - rewrite <- (snoc_length pre c). intros H. apply IH in H.
    destruct H as [mid [xs [post [-> [HQ [H1 H2]]]]]].
    exists (String c mid), xs, post.
    rewrite snoc_append in H1, H2. auto.
Qed.

Lemma reads_stop_and_space :
  reads stop_and_space (Cat (chr ".") (plus space)).
Proof.
  intros st k res H. cbn [rmatch] in H.
  apply rmatch_chr_inv in H. destruct H as [c [rest [E [Hc H]]]].
  apply Ascii.eqb_eq in Hc. subst c.
  apply plus_chr_inv in H.
  destruct H as [ws [st' [Hne [Hall [Hr [Hpos [_ Hk]]]]]]].
  cbn [ms_rest ms_pos] in *.
  exists st', (String "." ws). split; [exact Hk|]. split.
  - rewrite E, Hr. reflexivity.
  - split; [cbn; lia|]. exists ws. auto.
Qed.

(** X12.  On a text of ASCII characters [heading_and_body] loses no text:
    without a heading the body is the stripped input; with a heading the
    stripped input is the text that was stripped to the heading, a full
    stop, whitespace, and the text that was stripped to the body.  A heading
    has at most 80 characters and starts with an uppercase letter. *)
Theorem heading_and_body_partition (body : string) (heading : option string)
  (rest : string) :
  Py.is_ascii body = true ->
  heading_and_body body = (heading, rest) ->
  match heading with
  | None => rest = Py.strip body
  | Some h =>
      exists before ws after_,
        Py.strip body = before ++ String "." ws ++ after_ /\
        Py.nonempty ws = true /\ Py.all_chars Py.is_space ws = true /\
        h = Py.strip before /\ rest = Py.strip after_ /\
        Py.nonempty h = true /\ Py.len h <= 80 /\ first_isupper h = true
  end.
Proof.
  intros _. unfold heading_and_body.
  destruct (Py.nonempty (Py.strip body)) eqn:Hne; cbn [negb].
  2:{ intros [= <- <-]. destruct (Py.strip body); [reflexivity|discriminate]. }
  unfold split1.
  destruct (search _ (Py.strip body)) as [m|] eqn:Hs;
    [|now intros [= <- <-]].
  destruct (Py.nonempty (Py.strip (Py.take _ _))
            && (Py.len (Py.strip (Py.take _ _)) <=? 80)%nat
            && first_isupper (Py.strip (Py.take _ _))) eqn:Hc;
    [|now intros [= <- <-]].
  intros [= <- <-].
  apply andb_true_iff in Hc. destruct Hc as [Hc Hup].
  apply andb_true_iff in Hc. destruct Hc as [Hn Hlen].
  apply Nat.leb_le in Hlen.
  apply (search_from_reads stop_and_space _ reads_stop_and_space
           (Py.strip body) "" None) in Hs.
  destruct Hs as [mid [xs [post [Hb [[ws [-> [Hw1 Hw2]]] [H1 H2]]]]]].
  cbn [append] in H1, H2.
  exists mid, ws, post. rewrite H1, H2 in *.
  assert (Ht : Py.take (String.length mid) (Py.strip body) = mid)
    by (rewrite Hb; apply take_app_length).
  assert (Hd : Py.drop (String.length mid + String.length (String "." ws))
                       (Py.strip body) = post).
  { rewrite Hb, <- length_append, <- (append_assoc mid).
    apply drop_app_length. }
  rewrite Ht, Hd in *. repeat split; auto.
Qed.

Lemma heading_and_body_partition_witness :
  Py.is_ascii "In general. There shall be allowed a deduction" = true /\
  heading_and_body "In general. There shall be allowed a deduction"
    = (Some "In general", "There shall be allowed a deduction") /\
  exists before ws after_,
    Py.strip "In general. There shall be allowed a deduction"
      = before ++ String "." ws ++ after_ /\
    Py.nonempty ws = true /\ Py.all_chars Py.is_space ws = true /\
    "In general" = Py.strip before /\
    "There shall be allowed a deduction" = Py.strip after_ /\
    Py.nonempty "In general" = true /\ Py.len "In general" <= 80 /\
    first_isupper "In general" = true.
Proof.
  split; [reflexivity|]. split; [vm_compute; reflexivity|].
  apply (heading_and_body_partition
           "In general. There shall be allowed a deduction"
           (Some "In general") "There shall be allowed a deduction");
    vm_compute; reflexivity.
Defined.

End Headings.

Section Hints.
Import Re ParseStatute ResolveLinks Spec MatchProps LabelProps.

Lemma split_on_nonempty (sep : ascii) (s : string) : Py.split_on sep s <> [].
Proof.
  induction s as [|c s IH]; cbn; [discriminate|].
  destruct (Ascii.eqb c sep); [discriminate|].
  destruct (Py.split_on sep s); [contradiction | discriminate].
Qed.

Lemma concat_cons_char (sep : string) (c : ascii) (p : string)
  (ps : list string) :
  String.concat sep (String c p :: ps) = String c (String.concat sep (p :: ps)).
Proof. destruct ps; reflexivity. Qed.

(** Joining the pieces of [split] with the separator gives the text back. *)
Lemma join_split (sep : ascii) (s : string) :
  Py.join (String sep "") (Py.split_on sep s) = s.
Proof.
  unfold Py.join. induction s as [|c s IH]; [reflexivity|].
  cbn [Py.split_on]. destruct (Ascii.eqb c sep) eqn:E.
  - apply Ascii.eqb_eq in E. subst c.
    destruct (Py.split_on sep s) as [|p ps] eqn:Hs;
      [now apply split_on_nonempty in Hs|].
    change (String.concat (String sep "") ("" :: p :: ps))
      with (String sep (String.concat (String sep "") (p :: ps))).
    now rewrite IH.
  - destruct (Py.split_on sep s) as [|p ps] eqn:Hs;
      [now apply split_on_nonempty in Hs|].
    now rewrite concat_cons_char, IH.
Qed.

(** X13.  A hint of ASCII characters of the compact form
    [work:title:section], whose title is within the limit of [int] when it
    is all digits, gives the identifier directly: it is the stripped hint
    with the work in lower case, whatever the source type says; the document
    is a statute for usc and a regulation for cfr, and no heading is
    derived. *)
Theorem compact_hint_metadata (citation_hint source_type first title
  : string) (rest : list string) :
  Py.is_ascii citation_hint = true ->
  Py.split_on ":" (Py.strip citation_hint) = first :: title :: rest ->
  rest <> [] ->
  In (Py.lower first) ["usc"; "cfr"] ->
  (Py.isdigit title = true -> String.length title <= Py.int_max_str_digits) ->
  first ++ ":" ++ title ++ ":" ++ Py.join ":" rest = Py.strip citation_hint /\
  exists title_value,
    metadata_from_hint citation_hint source_type
    = Some (Py.lower first ++ ":" ++ title ++ ":" ++ Py.join ":" rest,
            (if String.eqb (Py.lower first) "usc" then "statute"
             else "regulation"),
            mkSource (Py.upper (Py.lower first)) title_value
                     (Py.join ":" rest),
            None) /\
    (Py.isdigit title = false -> title_value = TStr title) /\
    (forall n, Py.int title = Some n -> title_value = TInt n).
Proof.
  intros _ Hs Hrest Hp Hlen. split.
  - rewrite <- (join_split ":" (Py.strip citation_hint)), Hs.
    unfold Py.join. destruct rest as [|x rest]; [contradiction|].
    reflexivity.
  - unfold metadata_from_hint.
    assert (Hne : Py.nonempty (Py.strip citation_hint) = true).
    { destruct (Py.strip citation_hint); [discriminate | reflexivity]. }
    rewrite Hne, Hs. destruct rest as [|x rest]; [contradiction|].
    assert (Ho : String.eqb (Py.lower first) "usc"
                 || String.eqb (Py.lower first) "cfr" = true).
    { cbn in Hp. destruct Hp as [<-|[<-|[]]]; reflexivity. }
    rewrite Ho. unfold Py.int.
    destruct (Py.isdigit title) eqn:Hd.
    + rewrite (proj2 (Nat.leb_le _ _) (Hlen eq_refl)).
      cbn [andb option_map]. eexists.
      split; [reflexivity|]. split; congruence.
    + cbn [andb]. eexists. split; [reflexivity|]. split; congruence.
Qed.

Lemma compact_hint_metadata_witness :
  Py.is_ascii " USC:26:162 " = true /\
  Py.split_on ":" (Py.strip " USC:26:162 ") = ["USC"; "26"; "162"] /\
  metadata_from_hint " USC:26:162 " "CFR"
  = Some ("usc:26:162", "statute", mkSource "USC" (TInt 26) "162", None).
Proof.
  split; [reflexivity|]. split; [reflexivity|].
  destruct (compact_hint_metadata " USC:26:162 " "CFR" "USC" "26" ["162"])
    as [_ [tv [H [_ Hn]]]];
    [reflexivity | reflexivity | discriminate | now left
    | intros _; apply Nat.leb_le; vm_compute; reflexivity |].
  rewrite (Hn 26%N eq_refl) in H. exact H.
Defined.

End Hints.

Section Cues.
Import Re ParseStatute ResolveLinks Spec MatchProps LabelProps CueProps.

Lemma after_nil (st : mstate) (tail : string) :
  ms_rest st = tail -> after st "" tail = st.
Proof.
  destruct st. unfold after. cbn. intros ->. now rewrite Nat.add_0_r.
Qed.

Lemma after_cons (st : mstate) (c : ascii) (xs tail : string) :
  after st (String c xs) tail
  = after (mkState (Some c) (xs ++ tail) (S (ms_pos st)) (ms_caps st)) xs tail.
Proof. unfold after. cbn. now rewrite Nat.add_succ_r. Qed.

(** A literal under IGNORECASE matches the texts that agree with it up to
    letter case. *)
Lemma lit_ci_match (w : string) :
  forall mid post st k,
    Py.lower mid = Py.lower w -> ms_rest st = mid ++ post ->
    rmatch (lit_ci w) st k = k (after st mid post).
Proof.
  induction w as [|c w IH]; intros mid post st k Hl Hr.
  - destruct mid; [|discriminate]. cbn [lit_ci rmatch].
    now rewrite after_nil.
  - destruct mid as [|x mid]; [discriminate|].
    cbn in Hl. injection Hl as Hx Hl. rewrite after_cons.
    assert (Hc : rmatch (chr_ci c) st
                   (fun st' => rmatch (lit_ci w) st' k)
                 = rmatch (lit_ci w)
                     (mkState (Some x) (mid ++ post) (S (ms_pos st))
                              (ms_caps st)) k).
    { unfold chr_ci. rewrite rmatch_chr, Hr. cbn [append].
      now rewrite Hx, Ascii.eqb_refl. }
    destruct w as [|d w].
    + destruct mid; [|discriminate].
      cbn [lit_ci]. unfold chr_ci. rewrite rmatch_chr, Hr. cbn [append].
      rewrite Hx, Ascii.eqb_refl. now rewrite after_nil.
    + change (lit_ci (String c (String d w)))
        with (Cat (chr_ci c) (lit_ci (String d w))).
      cbn [rmatch]. fold (rmatch (chr_ci c)). rewrite Hc.
      now apply IH.
Qed.

Lemma reads_lit_ci (w : string) :
  reads (fun xs => Py.lower xs = Py.lower w) (lit_ci w).
Proof.
  induction w as [|c w IH]; intros st k res H.
  - cbn [lit_ci rmatch] in H. exists st, "". cbn. repeat split; auto; lia.
  - assert (Hcat : rmatch (Cat (chr_ci c) (lit_ci w)) st k = Some res).
    { destruct w; [|exact H]. cbn [lit_ci rmatch] in *. exact H. }
    cbn [rmatch] in Hcat. apply rmatch_chr_inv in Hcat.
    destruct Hcat as [x [rest [E [Hx Hk]]]].
    apply IH in Hk. destruct Hk as [st' [xs [Hk [Hr [Hpos Hl]]]]].
    cbn [ms_rest ms_pos] in *. apply Ascii.eqb_eq in Hx.
    exists st', (String x xs). cbn. rewrite E, Hr, Hx.
    unfold Py.lower in Hl. rewrite Hl. repeat split; auto; lia.
Qed.

Lemma search_from_complete (r : regex) :
  forall a b prev pos m0,
    match_here r (last_char prev a) b (pos + String.length a) = Some m0 ->
    exists m, search_from r prev (a ++ b) pos = Some m.
Proof.
  induction a as [|c a IH]; intros b prev pos m0 H.
  - cbn in H. rewrite Nat.add_0_r in H. cbn [append].
    destruct b; cbn [search_from]; rewrite H; eauto.
  - cbn [append search_from].
    destruct (match_here r prev _ pos); [eauto|].
    apply (IH b (Some c) (S pos) m0).
    cbn in H. now rewrite Nat.add_succ_r in H.
Qed.

Lemma search_found_ci (w text : string) :
  contains_ci w text -> exists m, search (lit_ci w) text = Some m.
Proof.
  intros [pre [mid [post [-> Hl]]]].
  unfold search. eapply (search_from_complete _ pre (mid ++ post) None 0).
  unfold match_here. cbn [rmatch].
  now rewrite (lit_ci_match w mid post).
Qed.

Lemma search_sound_ci (w text : string) (m : rmatch_obj) :
  search (lit_ci w) text = Some m -> contains_ci w text.
Proof.
  intros H.
  apply (search_from_reads _ _ (reads_lit_ci w) text "" None) in H.
  destruct H as [mid [xs [post [-> [Hl _]]]]].
  now exists mid, xs, post.
Qed.

Lemma first_cue_skip (l1 l2 : list (string * regex)) (text : string) :
  (forall r pat, In (r, pat) l1 -> search pat text = None) ->
  first_cue (l1 ++ l2)%list text = first_cue l2 text.
Proof.
  induction l1 as [|[r pat] l1 IH]; intros H; cbn [app first_cue];
    [reflexivity|].
  rewrite (H r pat (or_introl eq_refl)). apply IH.
  intros r' pat' Hin. apply (H r' pat'). now right.
Qed.

(** X14.  In a text of ASCII characters, of the four cue phrases that are
    plain words, the first one, in the order of [RELATION_CUES], that occurs
    in the text in any letter case decides the relation. *)
Theorem detect_relation_word_cues (before after_ : list (string * string))
  (rel phrase text : string) :
  Py.is_ascii text = true ->
  WORD_CUES = (before ++ (rel, phrase) :: after_)%list ->
  (forall r p, In (r, p) before -> ~ contains_ci p text) ->
  contains_ci phrase text ->
  detect_relation text = Some rel.
Proof.
  intros _ Hw Hbefore Hc. unfold detect_relation.
  change RELATION_CUES
    with (map (fun rp => (fst rp, lit_ci (snd rp))) WORD_CUES
          ++ [("definition-of",
               seq [lit_ci "the term "; plus dot; lit_ci " means"])])%list.
  rewrite Hw, map_app, <- app_assoc. cbn [map fst snd].
  rewrite first_cue_skip.
  - cbn [app first_cue].
    destruct (search_found_ci phrase text Hc) as [m ->]. reflexivity.
  - intros r pat Hin. apply in_map_iff in Hin.
    destruct Hin as [[r' p'] [[= <- <-] Hin]]. cbn [fst snd].
    destruct (search (lit_ci p') text) eqn:E; [|reflexivity].
    exfalso. apply (Hbefore r' p' Hin). eapply search_sound_ci, E.
Qed.

Lemma detect_relation_word_cues_witness :
  Py.is_ascii
    "Notwithstanding subsection (a), EXCEPT AS PROVIDED in paragraph (2)"
  = true /\
  detect_relation
    "Notwithstanding subsection (a), EXCEPT AS PROVIDED in paragraph (2)"
  = Some "exception-to".
Proof.
  split; [reflexivity|].
  apply (detect_relation_word_cues
           [("for-purposes-of", "for purposes of");
            ("subject-to", "subject to")]
           [("notwithstanding", "notwithstanding")]
           "exception-to" "except as provided").
  - reflexivity.
  - reflexivity.
  - intros r p [[= <- <-]|[[= <- <-]|[]]] Hc;
      apply search_found_ci in Hc; destruct Hc as [m Hm];
      vm_compute in Hm; discriminate.
  - exists "Notwithstanding subsection (a), ", "EXCEPT AS PROVIDED",
      " in paragraph (2)". split; reflexivity.
Defined.

End Cues.

Section RelativeTargets.
Import Re ParseStatute ResolveLinks Spec MarkupProps TargetProps.
Local Open Scope list_scope.

Lemma last_cons_default (chain : list Node) :
  forall n prev : Node, last (n :: chain) prev = last chain n.
Proof.
  induction chain as [|m chain IH]; intros n prev; [reflexivity|].
  change (last (n :: m :: chain) prev) with (last (m :: chain) prev).
  now rewrite !IH.
Qed.

Lemma id_chain_spell (chain : list Node) :
  forall prev,
    id_chain prev chain ->
    node_id (last chain prev)
    = (node_id prev ++ Py.join "" (map node_label chain))%string.
Proof.
  induction chain as [|n chain IH]; intros prev; cbn [id_chain map].
  - intros _. cbn. now rewrite append_empty_r.
  - intros [Hid Hc]. rewrite concat_empty_cons.
    rewrite last_cons_default.
    now rewrite (IH n Hc), Hid, append_assoc.
Qed.

Lemma base_labels_written (path : list Node) :
  Forall written_label path ->
  map paren (base_labels_of path) = map node_label path.
Proof.
  unfold base_labels_of. induction 1 as [|n path [Hc Hn] _ IH];
    [reflexivity|].
  cbn [filter]. rewrite Hn. cbn [map]. rewrite IH. f_equal. exact Hc.
Qed.

(** The labels of a path from the root spell the identifier of its last
    node. *)
Lemma path_labels_spell (base_id : string) (root : Node) (rest : list Node) :
  node_id root = base_id -> node_label root = "" ->
  id_chain root rest -> Forall written_label rest ->
  target_of base_id (base_labels_of (root :: rest))
  = node_id (last rest root).
Proof.
  intros Hid Hl Hc Hw. unfold target_of.
  assert (Hb : base_labels_of (root :: rest) = base_labels_of rest).
  { unfold base_labels_of. cbn [filter]. now rewrite Hl. }
  rewrite Hb, base_labels_written, id_chain_spell, Hid by assumption.
  reflexivity.
Qed.

Lemma join_app (a b : list string) :
  Py.join "" (a ++ b) = (Py.join "" a ++ Py.join "" b)%string.
Proof.
  induction a as [|x a IH]; [reflexivity|].
  cbn [app]. now rewrite !concat_empty_cons, IH, append_assoc.
Qed.

(** X15.  On a path whose identifiers are derived from its labels, the target
    of a relative reference is the identifier of the node that the suffix
    labels lead to from the last node of the base path. *)
Theorem relative_target_follows_labels (base_id : string) (root : Node)
  (rest chain : list Node) (first : string) (others : list string)
  (noun : string) (predicate : string -> bool) :
  node_id root = base_id -> node_label root = ""%string ->
  id_chain root rest -> Forall written_label rest ->
  dict_get noun EXPECTED_LABEL_PREDICATES = Some predicate ->
  predicate first = true ->
  (forall init, base_labels_of (root :: rest) <> init ++ [first]) ->
  id_chain (last rest root) chain ->
  map node_label chain = map paren (first :: others) ->
  build_target_id base_id (root :: rest) (first :: others) noun
  = node_id (last chain (last rest root)).
Proof.
  intros Hid Hl Hc Hw Hd Hp Hdup Hchain Hlabels.
  destruct (build_target_id_cases base_id (root :: rest) first others noun
              predicate Hd) as [_ [_ H]].
  rewrite (H Hp Hdup). unfold target_of.
  rewrite map_app, join_app, <- append_assoc.
  change (base_id ++ Py.join "" (map paren (base_labels_of (root :: rest))))%string
    with (target_of base_id (base_labels_of (root :: rest))).
  rewrite (path_labels_spell base_id root rest Hid Hl Hc Hw).
  now rewrite (id_chain_spell chain _ Hchain), Hlabels.
Qed.

Lemma relative_target_follows_labels_witness :
  build_target_id "usc:26:162" [sec_162; sec_162_a] ["2"] "paragraph"
  = node_id sec_162_a_2.
Proof.
  apply (relative_target_follows_labels "usc:26:162" sec_162 [sec_162_a]
           [sec_162_a_2] "2" [] "paragraph" Py.isdigit);
    try reflexivity.
  - cbn. auto.
  - repeat constructor.
  - intros init H. vm_compute in H.
    destruct init as [|x [|y init]]; discriminate.
  - cbn. auto.
Defined.

End RelativeTargets.

Section LabelledTargets.
Import Re ParseStatute ResolveLinks Spec MarkupProps.
Local Open Scope list_scope.

Lemma spelled_join (labels : list string) :
  Py.join "" (map paren labels) = spelled labels.
Proof.
  induction labels as [|l labels IH]; [reflexivity|].
  cbn [map spelled]. rewrite concat_empty_cons, IH. unfold paren.
  now rewrite !append_assoc.
Qed.

Lemma drop_while_all (p : ascii -> bool) (w s : string) :
  Py.all_chars p w = true -> Py.drop_while p (w ++ s) = Py.drop_while p s.
Proof.
  induction w as [|c w IH]; cbn; [reflexivity|].
  intros H. apply andb_true_iff in H. destruct H as [Hc Hw].
  rewrite Hc. now apply IH.
Qed.

(** [strip("()")] takes the parentheses before and after a label away and
    nothing else. *)
Lemma strip_parens_core (lp l rp : string) :
  parens lp -> parens rp -> l = ""%string \/ bare l ->
  Py.strip_parens (lp ++ l ++ rp) = l.
Proof.
  unfold parens. intros Hlp Hrp Hl. unfold Py.strip_parens, Py.strip_by.
  rewrite (drop_while_all _ lp _ Hlp).
  destruct Hl as [->|[Hh Ht]].
  - cbn [append]. rewrite <- (append_empty_r rp).
    rewrite (drop_while_all _ rp ""%string Hrp). reflexivity.
  - rewrite (drop_while_stop Py.is_paren (l ++ rp)).
    + rewrite srev_append, drop_while_all by (now rewrite all_chars_srev).
      rewrite drop_while_stop; [apply srev_involutive|].
      destruct (Py.srev l); [destruct Ht | exact Ht].
    + destruct l; [destruct Hh | exact Hh].
Qed.

(** The base labels of a path are the labels that its nodes carry. *)
Lemma base_labels_carried (base_path : list Node) (labels : list string) :
  path_labels base_path labels -> base_labels_of base_path = labels.
Proof.
  unfold base_labels_of.
  induction 1 as [|n path labels Hn _ IH
                  |n path lp l rp labels Hn Hne Hlp Hrp Hl _ IH];
    cbn [filter map].
  - reflexivity.
  - rewrite Hn. cbn [Py.nonempty]. exact IH.
  - assert (Ht : Py.nonempty (node_label n) = true)
      by (destruct (node_label n); [contradiction | reflexivity]).
    rewrite Ht. cbn [map]. rewrite IH, Hn. f_equal.
    now apply strip_parens_core.
Qed.

(** Every label is a label proper, or nothing, between parentheses. *)
Lemma label_decomposes (s : string) :
  exists lp l rp,
    s = (lp ++ l ++ rp)%string /\ parens lp /\ parens rp /\
    (l = ""%string \/ bare l).
Proof.
  destruct (drop_while_split Py.is_paren s) as [lp [Hs Hlp]].
  destruct (drop_while_split Py.is_paren
              (Py.srev (Py.drop_while Py.is_paren s))) as [w [Hu Hw]].
  destruct (strip_by_ends Py.is_paren s) as [Hh Ht].
  unfold Py.strip_by in Hh, Ht.
  set (u := Py.drop_while Py.is_paren s) in *.
  set (v := Py.drop_while Py.is_paren (Py.srev u)) in *.
  assert (Hu' : u = (Py.srev v ++ Py.srev w)%string).
  { rewrite <- (srev_involutive u), Hu. apply srev_append. }
  exists lp, (Py.srev v), (Py.srev w).
  split; [now rewrite <- Hu'|]. split; [exact Hlp|].
  split; [unfold parens; now rewrite all_chars_srev|].
  destruct (Py.srev v) as [|c r] eqn:E; [now left|]. right.
  split; [exact Hh|].
  destruct (Py.srev (String c r)) as [|c' r'] eqn:E'; [|exact Ht].
  rewrite srev_cons in E'. destruct (Py.srev r); discriminate.
Qed.

(** Every path carries labels. *)
Lemma path_labels_total (path : list Node) :
  exists labels, path_labels path labels.
Proof.
  induction path as [|n path [labels IH]]; [exists []; constructor|].
  destruct (label_decomposes (node_label n))
    as [lp [l [rp [Hs [Hlp [Hrp Hl]]]]]].
  destruct (node_label n) as [|c s] eqn:E.
  - exists labels. now apply path_labels_skip.
  - exists (l :: labels).
    apply (path_labels_take n path lp l rp); auto; rewrite E;
      [exact Hs | discriminate].
Qed.

(** C7.  For a relative reference to [noun] with suffix labels
    [first :: rest], on a base path whose nodes carry the labels [labels]:
    when [first] fails the predicate that [EXPECTED_LABEL_PREDICATES] has
    for [noun], the target is the base id with the suffix labels only, and
    no label of the path is in it; when it passes and [labels] ends in
    [first], that one label is dropped and the others are kept; when it
    passes and [labels] does not end in [first], all of them are kept. *)
Theorem build_target_id_rule (base_id : string) (base_path : list Node)
  (labels : list string) (first : string) (rest : list string)
  (noun : string) :
  In noun REL_NOUNS ->
  path_labels base_path labels ->
  exists predicate,
    dict_get noun EXPECTED_LABEL_PREDICATES = Some predicate /\
    (predicate first = false ->
     build_target_id base_id base_path (first :: rest) noun
       = (base_id ++ spelled (first :: rest))%string) /\
    (predicate first = true ->
     forall init, labels = init ++ [first] ->
     build_target_id base_id base_path (first :: rest) noun
       = (base_id ++ spelled (init ++ first :: rest))%string) /\
    (predicate first = true ->
     (forall init, labels <> init ++ [first]) ->
     build_target_id base_id base_path (first :: rest) noun
       = (base_id ++ spelled (labels ++ first :: rest))%string).
Proof.
  intros Hin Hl.
  assert (Hd : exists predicate,
             dict_get noun EXPECTED_LABEL_PREDICATES = Some predicate).
  { cbn in Hin.
    destruct Hin as [<-|[<-|[<-|[<-|[<-|[]]]]]]; eexists; reflexivity. }
  destruct Hd as [predicate Hd]. exists predicate.
  split; [exact Hd|].
  destruct (build_target_id_cases base_id base_path first rest noun
              predicate Hd) as [H1 [H2 H3]].
  rewrite (base_labels_carried base_path labels Hl) in H2, H3.
  unfold target_of in H1, H2, H3.
  repeat split.
  - intros Hp. rewrite (H1 Hp). now rewrite spelled_join.
  - intros Hp init Hi. rewrite (H2 Hp init Hi). now rewrite spelled_join.
  - intros Hp Hn. rewrite (H3 Hp Hn). now rewrite spelled_join.
Qed.

Lemma build_target_id_rule_witness :
  build_target_id "usc:26:162"
    [Scenario.root_162; Scenario.sub_162_a; Scenario.par_162_a_1]
    ["B"] "paragraph" = "usc:26:162(B)"%string /\
  build_target_id "usc:26:162"
    [Scenario.root_162; Scenario.sub_162_a; Scenario.par_162_a_1]
    ["1"; "A"] "paragraph" = "usc:26:162(a)(1)(A)"%string /\
  build_target_id "usc:26:162"
    [Scenario.root_162; Scenario.sub_162_a; Scenario.par_162_a_1]
    ["2"] "paragraph" = "usc:26:162(a)(1)(2)"%string.
Proof.
  assert (Hin : In "paragraph"%string REL_NOUNS) by (cbn; auto).
  assert (Hl : path_labels
                 [Scenario.root_162; Scenario.sub_162_a; Scenario.par_162_a_1]
                 ["a"; "1"]%string).
  { apply path_labels_skip; [reflexivity|].
    apply (path_labels_take _ _ "(" "a" ")");
      [reflexivity | discriminate | reflexivity | reflexivity
      | right; split; reflexivity |].
    apply (path_labels_take _ _ "(" "1" ")");
      [reflexivity | discriminate | reflexivity | reflexivity
      | right; split; reflexivity |].
    constructor. }
  assert (Hd : forall p,
             dict_get "paragraph" EXPECTED_LABEL_PREDICATES = Some p ->
             p = Py.isdigit) by (intros p [= <-]; reflexivity).
  split; [|split].
  - destruct (build_target_id_rule "usc:26:162"
                [Scenario.root_162; Scenario.sub_162_a; Scenario.par_162_a_1]
                ["a"; "1"]%string "B" [] "paragraph" Hin Hl)
      as [p [Hp [H1 _]]].
    apply H1. rewrite (Hd p Hp). reflexivity.
  - destruct (build_target_id_rule "usc:26:162"
                [Scenario.root_162; Scenario.sub_162_a; Scenario.par_162_a_1]
                ["a"; "1"]%string "1" ["A"]%string "paragraph" Hin Hl)
      as [p [Hp [_ [H2 _]]]].
    apply (H2 (eq_trans (f_equal (fun q => q "1"%string) (Hd p Hp)) eq_refl)
              ["a"%string] eq_refl).
  - destruct (build_target_id_rule "usc:26:162"
                [Scenario.root_162; Scenario.sub_162_a; Scenario.par_162_a_1]
                ["a"; "1"]%string "2" [] "paragraph" Hin Hl)
      as [p [Hp [_ [_ H3]]]].
    apply H3; [rewrite (Hd p Hp); reflexivity|].
    intros [|x [|y [|z init]]]; discriminate.
Defined.

End LabelledTargets.

Section ThisReferences.
Import Re ParseStatute ResolveLinks Spec LinkProps PathProps ThisRefProps.
Local Open Scope list_scope.

Lemma nearest_ancestor_in (path : list Node) (level : string) (a : Node) :
  nearest_ancestor_of_level path level = Some a -> In a path.
Proof.
  unfold nearest_ancestor_of_level.
  destruct (find _ (rev path)) as [n|] eqn:E.
  - intros [= <-]. apply find_some in E. apply in_rev. tauto.
  - clear E. induction path as [|x [|y path] IH]; cbn [map last].
    + discriminate.
    + intros [= <-]. now left.
    + intros H. right. apply IH. exact H.
Qed.

Lemma flatten_child (parent child x : Node) :
  In child (node_children parent) -> In x (flatten_nodes child) ->
  In x (flatten_nodes parent).
Proof.
  destruct parent as [i l lv h t cs]. cbn [node_children flatten_nodes].
  intros Hc Hx. right. apply in_flat_map. eauto.
Qed.

Lemma flatten_self (n : Node) : In n (flatten_nodes n).
Proof. destruct n. now left. Qed.

Lemma descends_in_flatten (p : list Node) :
  forall r, hd_error p = Some r -> descends p ->
            forall x, In x p -> In x (flatten_nodes r).
Proof.
  induction p as [|a p IH]; intros r Hhd Hd x Hx; [destruct Hx|].
  injection Hhd as ->. destruct Hx as [<-|Hx]; [apply flatten_self|].
  destruct p as [|b p]; [destruct Hx|].
  destruct Hd as [Hb Hd].
  apply (flatten_child r b x Hb). now apply (IH b eq_refl Hd).
Qed.

(** The nodes of every path that [build_paths] stores are nodes of the
    tree. *)
Lemma paths_get_in_tree (root : Node) (key : string) (x : Node) :
  In x (paths_get (build_paths root) key) -> In x (flatten_nodes root).
Proof.
  unfold paths_get, build_paths.
  destruct (dict_get key (walk_paths root [])) as [p|] eqn:E; [|intros []].
  apply dict_get_in in E.
  destruct (walk_paths_entries root [] _ _ E)
    as [mid [c [-> [_ [_ [Hhd Hd]]]]]].
  cbn [app]. now apply descends_in_flatten.
Qed.

Lemma node_matches_this (ctx : Context) (node : Node)
  (lr : Link * Replacement) :
  In lr (node_matches ctx node) -> lk_confidence (fst lr) = 9 # 10 ->
  exists target,
    In target (paths_get (paths ctx) (node_id node)) /\
    lk_source (fst lr) = node_id node /\
    lk_target (fst lr) = node_id target /\
    lk_scope (fst lr) = "intra-section"%string.
Proof.
  unfold node_matches. rewrite !in_app_iff. intros [H|[H|H]].
  - apply in_map_iff in H. destruct H as [m [<- _]]. discriminate.
  - apply in_somes, in_map_iff in H. destruct H as [m [He _]].
    unfold this_ref_link in He.
    destruct (nearest_ancestor_of_level _ _) as [a|] eqn:Ea; [|discriminate].
    injection He as <-. intros _. exists a. cbn.
    apply nearest_ancestor_in in Ea. auto.
  - apply in_map_iff in H. destruct H as [m [<- _]]. discriminate.
Qed.

(** X16.  A link of confidence 0.9 that [resolve] returns is a link for a
    [this <level>] phrase: it stays inside the section, its source is a node
    of the tree, and its target is the identifier of a node on the path that
    [build_paths] stores for the source, itself a node of the tree. *)
Theorem this_links_target_path (d : Document) (root : Node)
  (others : list Node) (links : list Link) (l : Link) :
  doc_nodes d = Some (root :: others) ->
  doc_links (resolve d) = Some links -> In l links ->
  lk_confidence l = 9 # 10 ->
  exists source target,
    In source (flatten_nodes root) /\ lk_source l = node_id source /\
    In target (paths_get (build_paths root) (node_id source)) /\
    In target (flatten_nodes root) /\ lk_target l = node_id target /\
    lk_scope l = "intra-section"%string.
Proof.
  intros Hn Hl Hin Hc.
  destruct (resolve_links_in d root others links l Hn Hl Hin)
    as [node [lr [Hnode [_ [Hlr ->]]]]].
  destruct (node_matches_this _ _ _ Hlr Hc) as [target [Ht [Hs [Hid Hsc]]]].
  exists node, target. cbn [paths make_context] in Ht.
  repeat split; auto. eapply paths_get_in_tree, Ht.
Qed.

Lemma this_links_target_path_witness :
  doc_nodes this_doc = Some [this_root] /\
  doc_links (resolve this_doc) = Some [this_link] /\
  exists source target,
    In source (flatten_nodes this_root) /\
    lk_source this_link = node_id source /\
    In target (paths_get (build_paths this_root) (node_id source)) /\
    In target (flatten_nodes this_root) /\
    lk_target this_link = node_id target /\
    lk_scope this_link = "intra-section"%string.
Proof.
  split; [reflexivity|]. split; [vm_compute; reflexivity|].
  apply (this_links_target_path this_doc this_root [] [this_link] this_link);
    [reflexivity | vm_compute; reflexivity | now left | reflexivity].
Defined.

End ThisReferences.

Section DirectText.
Import Re ParseStatute MarkupProps DirectTextProps.
Local Open Scope list_scope.

Lemma prune_tag (e : Element) : elem_tag (prune e) = elem_tag e.
Proof. now destruct e. Qed.

Lemma prune_tail (e : Element) : elem_tail (prune e) = elem_tail e.
Proof. now destruct e. Qed.

Lemma is_level_tag (a b : Element) :
  elem_tag a = elem_tag b -> is_level a = is_level b.
Proof. unfold is_level. now intros ->. Qed.

Lemma extract_text_prune (n : nat) :
  forall e, elem_size e <= n -> extract_text (prune e) = extract_text e.
Proof.
  induction n as [|n IH]; intros e Hsize.
  - destruct e; cbn in Hsize; lia.
  - destruct e as [tag text tail children].
    assert (Hc : forall c, In c children ->
                           extract_text (prune c) = extract_text c).
    { intros c Hin. apply IH.
      apply (elem_size_child (mkElement tag text tail children)) in Hin.
      lia. }
    cbn [prune extract_text]. f_equal. f_equal.
    clear Hsize. induction children as [|c cs IHcs]; [reflexivity|].
    cbn [map flat_map]. rewrite IHcs by (intros; apply Hc; now right).
    f_equal. destruct (is_level c) eqn:E.
    + rewrite (is_level_tag (emptied c) c eq_refl), E. reflexivity.
    + rewrite (is_level_tag (prune c) c (prune_tag c)), E.
      rewrite prune_tail, Hc by now left. reflexivity.
Qed.

(** X17.  The text and the children of a level element never enter the direct
    text of an element above it, at any depth: only its tail does. *)
Theorem direct_text_ignores_levels (element : option Element) :
  extract_direct_text (option_map prune element)
  = extract_direct_text element.
Proof.
  destruct element as [e|]; [|reflexivity].
  apply (extract_text_prune (elem_size e)). lia.
Qed.

End DirectText.

Section WorkAgreement.
Import Re ParseStatute Spec WorkProps.

Lemma hint_fallback_work (hint source_type id type : string)
  (source : Source) (heading : option string) :
  hint_fallback hint source_type = Some (id, type, source, heading) ->
  same_work id type source.
Proof.
  unfold hint_fallback, same_work.
  destruct (String.eqb (Py.upper source_type) "USC");
    intros [= <- <- <- _]; eexists; cbn; eauto.
Qed.

Lemma hint_usc_work (hint source_type id type : string)
  (source : Source) (heading : option string) :
  hint_usc hint source_type = Some (id, type, source, heading) ->
  same_work id type source.
Proof.
  unfold hint_usc. destruct (search HEADER_USC hint) as [m|];
    [|apply hint_fallback_work].
  destruct (Py.int _); [|discriminate].
  intros [= <- <- <- _]. eexists. cbn. eauto.
Qed.

Lemma hint_header_work (hint source_type id type : string)
  (source : Source) (heading : option string) :
  hint_header hint source_type = Some (id, type, source, heading) ->
  same_work id type source.
Proof.
  unfold hint_header.
  destruct (String.eqb (Py.upper source_type) "CFR");
    [|apply hint_usc_work].
  destruct (search HEADER_CFR hint) as [m|]; [|apply hint_usc_work].
  destruct (Py.int _); [|discriminate].
  intros [= <- <- <- _]. eexists. cbn. eauto.
Qed.

Lemma metadata_from_hint_work (citation_hint source_type id type : string)
  (source : Source) (heading : option string) :
  metadata_from_hint citation_hint source_type
    = Some (id, type, source, heading) ->
  same_work id type source.
Proof.
  unfold metadata_from_hint.
  destruct (if Py.nonempty _ then _ else [])
    as [|first [|title_part [|x rest]]]; try apply hint_header_work.
  destruct (String.eqb (Py.lower first) "usc") eqn:Eu.
  - apply String.eqb_eq in Eu. rewrite Eu. cbn [orb].
    destruct (if Py.isdigit title_part then _ else _); [|discriminate].
    intros [= <- <- <- _]. eexists. left. cbn. eauto.
  - destruct (String.eqb (Py.lower first) "cfr") eqn:Ec;
      [|apply hint_header_work].
    apply String.eqb_eq in Ec. rewrite Ec. cbn [orb].
    destruct (if Py.isdigit title_part then _ else _); [|discriminate].
    intros [= <- <- <- _]. eexists. right. cbn. eauto.
Qed.

Lemma build_text_fields (text base_id type : string) (source : Source)
  (heading : option string) (header_line : string) (r : ParseResult) :
  build_text text base_id type source heading header_line = Some r ->
  doc_id (document r) = Some base_id /\
  doc_type (document r) = Some type /\
  doc_source (document r) = Some source.
Proof.
  unfold build_text. destruct (run_lines _ _ _ _) as [[|top below]|];
    try discriminate.
  intros [= <-]. cbn. auto.
Qed.

(** X18.  A result of [parse] that does not ask for manual assistance, in
    either mode, names one body of law throughout: the work is USC, the type
    statute and the identifier starts with [usc:], or the work is CFR, the
    type regulation and the identifier starts with [cfr:]. *)
Theorem parse_work_agrees (fromstring : string -> option Element)
  (source_text source_type citation_hint input_format : string)
  (r : ParseResult) :
  parse fromstring source_text source_type citation_hint input_format
    = Some r ->
  needs_llm_assist r = false ->
  work_agrees (document r).
Proof.
  unfold parse, work_agrees.
  destruct (String.eqb (Py.lower input_format) "uslm").
  - unfold parse_uslm.
    destruct (fromstring source_text) as [root|];
      [|intros [= <-]; discriminate].
    destruct (if negb _ then find_section root else Some root) as [section|];
      [|intros [= <-]; discriminate].
    destruct (metadata_from_hint citation_hint source_type)
      as [[[[base_id type] source] heading_hint]|] eqn:E; [|discriminate].
    intros [= <-] _. apply metadata_from_hint_work in E.
    exists base_id, type, source. cbn. auto.
  - unfold parse_text.
    destruct (m_cfr source_type (normalize source_text)) as [m|].
    + destruct (Py.int _); [|discriminate].
      intros H _. apply build_text_fields in H. destruct H as [H1 [H2 H3]].
      do 3 eexists. repeat split; eauto. eexists. right. cbn. eauto.
    + destruct (m_usc source_type (normalize source_text)) as [m|].
      * destruct (Py.int _); [|discriminate].
        intros H _. apply build_text_fields in H. destruct H as [H1 [H2 H3]].
        do 3 eexists. repeat split; eauto. eexists. left. cbn. eauto.
      * intros [= <-]. discriminate.
Qed.

Lemma parse_work_agrees_witness :
  exists r,
    parse (fun _ => Some Scenario.uslm_snippet) "" "Treaty" "cfr:29:1910.2"
          "USLM" = Some r /\
    needs_llm_assist r = false /\ work_agrees (document r).
Proof.
  eexists. split; [vm_compute; reflexivity|]. split; [reflexivity|].
  apply (parse_work_agrees (fun _ => Some Scenario.uslm_snippet) ""
           "Treaty" "cfr:29:1910.2" "USLM");
    [vm_compute; reflexivity | reflexivity].
Defined.

End WorkAgreement.

Section Normalize.
Import Re ParseStatute Spec MatchProps LabelProps MarkupProps NormalizeProps.

Lemma drop_app_le (n : nat) (a b : string) :
  n <= String.length a -> Py.drop n (a ++ b) = Py.drop n a ++ b.
Proof.
  revert a. induction n as [|n IH]; intros a H.
  - now destruct a.
  - destruct a as [|c a]; cbn in H; [lia|]. cbn. apply IH. lia.
Qed.

Lemma drop_ge (n : nat) (a : string) :
  String.length a <= n -> Py.drop n a = "".
Proof.
  revert a. induction n as [|n IH]; intros [|c a] H; cbn in *;
    try reflexivity; try lia.
  apply IH. lia.
Qed.

Lemma take_drop_pre (n : nat) (pre rest : string) :
  n <= String.length pre ->
  Py.take (String.length pre - n) (Py.drop n (pre ++ rest)) = Py.drop n pre.
Proof.
  intros H. rewrite drop_app_le by exact H.
  rewrite <- (drop_length n pre). apply take_app_length.
Qed.

Lemma scan_skip_cons (r : regex) (repl : string) (prev : option ascii)
  (c : ascii) (rest : string) (pos skip : nat) :
  scan r repl prev (String c rest) pos (S skip)
  = scan r repl (Some c) rest (S pos) skip.
Proof. reflexivity. Qed.

Lemma scan_here (r : regex) (repl : string) (prev : option ascii)
  (rest : string) (pos : nat) :
  scan r repl prev rest pos 0
  = match match_here r prev rest pos with
    | Some m =>
        repl ++ match rest with
                | EmptyString => ""
                | String c rest' =>
                    scan r repl (Some c) rest' (S pos) (pred (m_end m - pos))
                end
    | None =>
        match rest with
        | EmptyString => ""
        | String c rest' => String c (scan r repl (Some c) rest' (S pos) 0)
        end
    end.
Proof. destruct rest; reflexivity. Qed.

(** [sub_pieces] over the matches of [finditer_from] writes what [scan]
    writes, after the characters before the cursor that are still to be
    copied. *)
Lemma sub_pieces_scan (r : regex) (repl : string) :
  advances r ->
  forall rest pre prev skip from,
    (skip = 0 /\ from <= String.length pre)
    \/ (from = String.length pre + skip /\ skip <= String.length rest) ->
    sub_pieces repl (finditer_from r prev rest (String.length pre) skip)
               (pre ++ rest) from
    = Py.drop from pre ++ scan r repl prev rest (String.length pre) skip.
Proof.
  intros Hadv. induction rest as [|c rest IH]; intros pre prev skip from Hc.
  - assert (skip = 0 /\ from <= String.length pre) as [-> Hfrom]
        by (cbn in Hc; lia).
    rewrite scan_here. cbn [finditer_from].
    destruct (match_here r prev "" (String.length pre)) as [m|] eqn:E.
    + exfalso. pose proof (Hadv _ _ _ _ E) as Hlt.
      apply match_here_text in E.
      destruct E as [xs [rest' [Hx [_ [He _]]]]].
      destruct xs; [cbn in He; lia | discriminate].
    + cbn [sub_pieces]. now rewrite drop_app_le.
  - destruct skip as [|skip].
    + assert (Hfrom : from <= String.length pre) by lia.
      rewrite scan_here. cbn [finditer_from].
      destruct (match_here r prev (String c rest) (String.length pre))
        as [m|] eqn:E.
      * pose proof (Hadv _ _ _ _ E) as Hlt.
        apply match_here_text in E.
        destruct E as [xs [rest' [Hx [Hs [He _]]]]].
        assert (Hlen : String.length xs <= S (String.length rest)).
        { change (S (String.length rest))
            with (String.length (String c rest)).
          rewrite Hx, length_append. lia. }
        cbn [sub_pieces]. rewrite Hs, take_drop_pre by exact Hfrom.
        f_equal. f_equal.
        rewrite <- (snoc_append pre c rest), <- (snoc_length pre c).
        rewrite IH by (right; rewrite snoc_length; lia).
        rewrite drop_ge by (rewrite snoc_length; lia).
        reflexivity.
      * cbn [sub_pieces].
        rewrite <- (snoc_append pre c rest), <- (snoc_length pre c).
        rewrite IH by (left; rewrite snoc_length; lia).
        rewrite drop_app_le by exact Hfrom.
        now rewrite append_assoc.
    + assert (Hfrom : from = String.length pre + S skip) by lia.
      assert (Hskip : skip <= String.length rest) by (cbn in Hc; lia).
      cbn [finditer_from]. rewrite scan_skip_cons.
      rewrite <- (snoc_append pre c rest), <- (snoc_length pre c).
      rewrite IH by (right; rewrite snoc_length; lia).
      rewrite !drop_ge by (rewrite ?snoc_length; lia).
      reflexivity.
Qed.

Lemma sub_scan (r : regex) (repl s : string) :
  advances r -> sub r repl s = scan r repl None s 0 0.
Proof.
  intros Hadv. unfold sub, finditer.
  apply (sub_pieces_scan r repl Hadv s "" None 0 0). left. cbn. lia.
Qed.


Lemma rmatch_grp_cat (g : nat) (r1 r2 : regex) (st : mstate)
  (k : mstate -> option mstate) :
  rmatch (Grp g (Cat r1 r2)) st k
  = rmatch r1 st (fun st1 => rmatch r2 st1 (fun st' => k (set_cap g st st'))).
Proof. reflexivity. Qed.

Lemma advances_first (p : ascii -> bool) (r : regex) :
  advances (Cat (Chr p) r).
Proof.
  intros prev rest pos m. unfold match_here.
  destruct (rmatch _ _ _) as [res|] eqn:H; [|discriminate].
  intros [= <-]. cbn [m_end]. rewrite rmatch_grp_cat in H.
  apply rmatch_chr_inv in H. destruct H as [c [rest' [_ [_ H]]]].
  apply (rmatch_consumes _ _ (class_ok_any r)) in H.
  destruct H as [st' [[= <-] [xs [_ [_ Hpos]]]]].
  cbn [ms_pos set_cap] in *. lia.
Qed.

Lemma advances_last (r : regex) (p : ascii -> bool) :
  advances (Cat r (Chr p)).
Proof.
  intros prev rest pos m. unfold match_here.
  destruct (rmatch _ _ _) as [res|] eqn:H; [|discriminate].
  intros [= <-]. cbn [m_end]. rewrite rmatch_grp_cat in H.
  apply (rmatch_consumes _ _ (class_ok_any r)) in H.
  destruct H as [st' [H [xs [_ [_ Hpos]]]]].
  apply rmatch_chr_inv in H. destruct H as [c [rest' [_ [_ [= <-]]]]].
  cbn [ms_pos set_cap] in *. lia.
Qed.

Lemma sub_pieces_chars (q : ascii -> bool) (repl s : string) :
  Py.all_chars q repl = true -> Py.all_chars q s = true ->
  forall ms from, Py.all_chars q (sub_pieces repl ms s from) = true.
Proof.
  intros Hrepl Hs.
  assert (Hdrop : forall n t, Py.all_chars q t = true ->
                              Py.all_chars q (Py.drop n t) = true).
  { induction n as [|n IH]; intros [|c t] H; cbn in *; auto.
    apply andb_true_iff in H. now apply IH. }
  assert (Htake : forall n t, Py.all_chars q t = true ->
                              Py.all_chars q (Py.take n t) = true).
  { induction n as [|n IH]; intros [|c t] H; cbn in *; auto.
    apply andb_true_iff in H. destruct H as [Hc Ht].
    now rewrite Hc, IH. }
  induction ms as [|m ms IH]; intros from; cbn [sub_pieces].
  - now apply Hdrop.
  - rewrite !all_chars_app, Hrepl, IH, Htake; auto.
Qed.

(** [re.sub] writes only characters of the text and of the replacement. *)
Lemma sub_chars (q : ascii -> bool) (r : regex) (repl s : string) :
  Py.all_chars q repl = true -> Py.all_chars q s = true ->
  Py.all_chars q (sub r repl s) = true.
Proof. intros Hrepl Hs. now apply sub_pieces_chars. Qed.

(** The longest run of [p] at the start of a text. *)
Lemma longest_run (p : ascii -> bool) (s : string) :
  exists xs tail,
    s = xs ++ tail /\ Py.all_chars p xs = true /\ head_free p tail.
Proof.
  destruct (drop_while_split p s) as [w [Hs Hw]].
  exists w, (Py.drop_while p s). repeat split; auto.
  apply drop_while_head.
Qed.

Lemma control_run_found (prev : option ascii) (c : ascii) (rest : string)
  (pos : nat) :
  is_control c = true ->
  match_here CONTROL_RUN prev (String c rest) pos <> None.
Proof.
  intros Hc.
  destruct (longest_run is_control rest) as [xs [tail [-> [Hall Htail]]]].
  unfold match_here. cbn [rmatch].
  rewrite (plus_chr_greedy is_control (String c xs) tail
             (mkState prev (String c (xs ++ tail)) pos [])
             (set_cap 0 (mkState prev (String c (xs ++ tail)) pos [])
                      (after (mkState prev (String c (xs ++ tail)) pos [])
                             (String c xs) tail))).
  - discriminate.
  - exact Htail.
  - reflexivity.
  - cbn. now rewrite Hc, Hall.
  - reflexivity.
  - reflexivity.
Qed.

(** After the first substitution of [normalize] no tab, form feed or
    carriage return is left. *)
Lemma scan_control_free :
  forall rest prev pos skip,
    Py.all_chars not_control (scan CONTROL_RUN " " prev rest pos skip) = true.
Proof.
  induction rest as [|c rest IH]; intros prev pos skip.
  - destruct skip; [|reflexivity]. rewrite scan_here.
    destruct (match_here _ _ _ _); reflexivity.
  - destruct skip as [|skip]; [|rewrite scan_skip_cons; apply IH].
    rewrite scan_here.
    destruct (match_here CONTROL_RUN prev (String c rest) pos) eqn:E.
    + cbn [append Py.all_chars]. rewrite IH. reflexivity.
    + cbn [Py.all_chars]. rewrite IH, andb_true_r.
      unfold not_control. destruct (is_control c) eqn:Hc; [|reflexivity].
      exfalso. now apply (control_run_found prev c rest pos).
Qed.


Lemma not_control_cr (c : ascii) :
  not_control c = true -> Ascii.eqb cr c = false.
Proof.
  unfold not_control, is_control. rewrite negb_true_iff, !orb_false_iff.
  intros [_ H]. now rewrite Ascii.eqb_sym.
Qed.

Lemma line_end_here (prev : option ascii) (c : ascii) (rest : string)
  (pos : nat) :
  Ascii.eqb cr c = false ->
  match_here LINE_END prev (String c rest) pos
  = if Ascii.eqb newline c
    then Some (mkMatch pos (S pos)
                 [(0, (pos, Py.take (S pos - pos) (String c rest)))])
    else None.
Proof.
  intros Hc. unfold match_here, LINE_END, opt, chr.
  rewrite rmatch_grp_cat.
  change (rmatch (Alt (Chr (Ascii.eqb cr)) Eps) ?st ?k)
    with (match rmatch (Chr (Ascii.eqb cr)) st k with
          | Some res => Some res
          | None => k st
          end).
  rewrite !rmatch_chr. cbn [ms_rest]. rewrite Hc.
  destruct (Ascii.eqb newline c); reflexivity.
Qed.

(** The last substitution of [normalize] changes nothing in a text without
    carriage returns. *)
Lemma scan_line_end :
  forall rest prev pos,
    Py.all_chars not_control rest = true ->
    scan LINE_END nl prev rest pos 0 = rest.
Proof.
  induction rest as [|c rest IH]; intros prev pos Hall; [reflexivity|].
  cbn [Py.all_chars] in Hall. apply andb_true_iff in Hall.
  destruct Hall as [Hc Hall]. rewrite scan_here.
  rewrite (line_end_here prev c rest pos (not_control_cr c Hc)).
  destruct (Ascii.eqb newline c) eqn:E.
  - apply Ascii.eqb_eq in E. subst c. cbn [m_end].
    replace (pred (S pos - pos)) with 0 by lia.
    rewrite IH by exact Hall. reflexivity.
  - now rewrite IH.
Qed.


Lemma rmatch_cat (r1 r2 : regex) (st : mstate) (k : mstate -> option mstate) :
  rmatch (Cat r1 r2) st k = rmatch r1 st (fun st' => rmatch r2 st' k).
Proof. reflexivity. Qed.

Lemma space_run_none_head (prev : option ascii) (rest : string) (pos : nat) :
  head_free (Ascii.eqb " ") rest ->
  match_here SPACE_RUN prev rest pos = None.
Proof.
  intros H. unfold match_here, SPACE_RUN, chr. cbn [seq].
  rewrite rmatch_grp_cat, rmatch_chr. cbn [ms_rest].
  destruct rest as [|c rest]; [reflexivity|].
  unfold head_free in H. now rewrite H.
Qed.

Lemma space_run_none_single (prev : option ascii) (c : ascii) (tail : string)
  (pos : nat) :
  Ascii.eqb " " c = true -> head_free (Ascii.eqb " ") tail ->
  match_here SPACE_RUN prev (String c tail) pos = None.
Proof.
  intros Hc H. unfold match_here, SPACE_RUN, chr. cbn [seq].
  rewrite rmatch_grp_cat, rmatch_chr. cbn [ms_rest]. rewrite Hc.
  rewrite rmatch_cat, rmatch_chr. cbn [ms_rest].
  destruct tail as [|d tail]; [reflexivity|].
  unfold head_free in H. now rewrite H.
Qed.

Lemma space_run_found (prev : option ascii) (c d : ascii) (xs tail : string)
  (pos : nat) :
  Ascii.eqb " " c = true -> Ascii.eqb " " d = true ->
  Py.all_chars (Ascii.eqb " ") xs = true ->
  head_free (Ascii.eqb " ") tail ->
  exists m,
    match_here SPACE_RUN prev (String c (String d (xs ++ tail))) pos = Some m
    /\ m_end m = pos + 2 + String.length xs.
Proof.
  intros Hc Hd Hall Htail. unfold match_here, SPACE_RUN, chr. cbn [seq].
  rewrite rmatch_grp_cat, rmatch_chr. cbn [ms_rest]. rewrite Hc.
  rewrite rmatch_cat, rmatch_chr. cbn [ms_rest]. rewrite Hd.
  cbn [ms_pos ms_caps].
  change (rmatch (Star (Chr (Ascii.eqb " "))) ?st ?k)
    with (star_loop (rmatch (Chr (Ascii.eqb " ")))
                    (String.length (ms_rest st)) st k).
  cbn [ms_rest].
  erewrite (star_chr_greedy (Ascii.eqb " ") tail _ Htail xs);
    [ | exact Hall | reflexivity | rewrite length_append; lia | reflexivity].
  eexists. split; [reflexivity|]. cbn. lia.
Qed.

Lemma scan_skip_run (r : regex) (repl : string) (xs : string) :
  forall prev tail pos,
    scan r repl prev (xs ++ tail) pos (String.length xs)
    = scan r repl (last_char prev xs) tail (pos + String.length xs) 0.
Proof.
  induction xs as [|c xs IH]; intros prev tail pos.
  - cbn [append String.length last_char]. now rewrite Nat.add_0_r.
  - cbn [append String.length last_char]. rewrite scan_skip_cons, IH.
    f_equal. lia.
Qed.

Lemma single_spaced_cons (c : ascii) (out : string) :
  single_spaced out = true ->
  Ascii.eqb " " c = false \/ head_free (Ascii.eqb " ") out ->
  single_spaced (String c out) = true.
Proof.
  intros Hs H. cbn [single_spaced]. rewrite Hs, andb_true_r.
  destruct out as [|b out]; [reflexivity|].
  destruct H as [H|H]; [now rewrite H|].
  unfold head_free in H. rewrite H. now rewrite andb_false_r.
Qed.

(** After the second substitution of [normalize] no two spaces are next to
    each other. *)
Lemma scan_space_run (n : nat) :
  forall rest prev pos,
    String.length rest <= n ->
    single_spaced (scan SPACE_RUN " " prev rest pos 0) = true /\
    (head_free (Ascii.eqb " ") rest ->
     head_free (Ascii.eqb " ") (scan SPACE_RUN " " prev rest pos 0)).
Proof.
  induction n as [|n IH]; intros rest prev pos Hlen.
  - destruct rest; [|cbn in Hlen; lia].
    rewrite scan_here, space_run_none_head by exact I. now split.
  - destruct rest as [|c rest].
    { rewrite scan_here, space_run_none_head by exact I. now split. }
    cbn [String.length] in Hlen.
    destruct (Ascii.eqb " " c) eqn:Hc.
    + destruct (longest_run (Ascii.eqb " ") rest)
        as [xs [tail [-> [Hall Htail]]]].
      rewrite length_append in Hlen.
      destruct (IH tail (last_char (Some c) xs)
                   (S pos + String.length xs)) as [H1 H2]; [lia|].
      split; [|intros Hf; unfold head_free in Hf; congruence].
      destruct xs as [|d xs].
      * cbn [append]. rewrite scan_here, space_run_none_single by assumption.
        cbn [last_char String.length] in H1, H2.
        rewrite Nat.add_0_r in H1, H2.
        apply single_spaced_cons; [exact H1 | right; now apply H2].
      * cbn [Py.all_chars] in Hall. apply andb_true_iff in Hall.
        destruct Hall as [Hd Hall].
        destruct (space_run_found prev c d xs tail pos Hc Hd Hall Htail)
          as [m [E Hend]].
        rewrite scan_here. cbn [append]. rewrite E, Hend.
        replace (pred (pos + 2 + String.length xs - pos))
          with (String.length (String d xs)) by (cbn; lia).
        change (String d (xs ++ tail)) with (String d xs ++ tail).
        rewrite scan_skip_run.
        change (" " ++ ?x) with (String " " x).
        apply single_spaced_cons; [exact H1 | right; now apply H2].
    + rewrite scan_here, space_run_none_head by exact Hc.
      destruct (IH rest (Some c) (S pos)) as [H1 H2]; [lia|].
      split; [|intros _; exact Hc].
      apply single_spaced_cons; [exact H1 | now left].
Qed.

Lemma strip_by_middle (p : ascii -> bool) (s : string) :
  exists a b, s = a ++ Py.strip_by p s ++ b.
Proof.
  unfold Py.strip_by.
  destruct (drop_while_split p s) as [w [Hs _]].
  destruct (drop_while_split p (Py.srev (Py.drop_while p s))) as [w' [Hu _]].
  exists w, (Py.srev w').
  rewrite <- srev_append, <- Hu, srev_involutive. exact Hs.
Qed.

Lemma single_spaced_app (a b : string) :
  single_spaced (a ++ b) = true ->
  single_spaced a = true /\ single_spaced b = true.
Proof.
  induction a as [|x a IH]; [now split|].
  cbn [append single_spaced]. rewrite !andb_true_iff. intros [Hx H].
  destruct (IH H) as [Ha Hb]. repeat split; auto.
  destruct a; [reflexivity | exact Hx].
Qed.

Lemma strip_single_spaced (s : string) :
  single_spaced s = true -> single_spaced (Py.strip s) = true.
Proof.
  intros H. destruct (strip_by_middle Py.is_space s) as [a [b Hs]].
  rewrite Hs in H. apply single_spaced_app in H. destruct H as [_ H].
  apply single_spaced_app in H. apply H.
Qed.

Lemma strip_chars (q : ascii -> bool) (s : string) :
  Py.all_chars q s = true -> Py.all_chars q (Py.strip s) = true.
Proof.
  intros H. destruct (strip_by_middle Py.is_space s) as [a [b Hs]].
  rewrite Hs, !all_chars_app, !andb_true_iff in H. apply H.
Qed.

Lemma control_free_step (s : string) :
  Py.all_chars not_control (sub CONTROL_RUN " " s) = true.
Proof.
  rewrite sub_scan by apply advances_first. apply scan_control_free.
Qed.

Lemma normalize_steps (text : string) :
  normalize text
  = Py.strip
      (sub LINE_END nl
         (sub SPACE_RUN " "
            (sub CONTROL_RUN " "
               (Py.replace2 "194"%char "160"%char " " text)))).
Proof. reflexivity. Qed.

(** X19.  The last substitution of [normalize], of a line end with or without
    a carriage return by a line feed, never changes the text: every carriage
    return has become a space before, so that a line that ended in a carriage
    return and a line feed ends in a space and a line feed. *)
Theorem normalize_line_end_idle (text : string) :
  normalize text
  = Py.strip
      (sub SPACE_RUN " "
         (sub CONTROL_RUN " " (Py.replace2 "194"%char "160"%char " " text))).
Proof.
  rewrite normalize_steps. f_equal.
  rewrite (sub_scan LINE_END) by apply advances_last.
  apply scan_line_end, sub_chars; [reflexivity|]. apply control_free_step.
Qed.

(** X20.  What [normalize] returns has no tab, form feed or carriage return,
    has no two spaces next to each other, and neither starts nor ends with a
    whitespace character. *)
Theorem normalize_shape (text : string) :
  Py.all_chars not_control (normalize text) = true /\
  single_spaced (normalize text) = true /\
  head_free Py.is_space (normalize text) /\
  head_free Py.is_space (Py.srev (normalize text)).
Proof.
  split; [|split].
  - rewrite normalize_steps.
    apply strip_chars, sub_chars; [reflexivity|].
    apply sub_chars; [reflexivity|]. apply control_free_step.
  - rewrite normalize_steps.
    rewrite (sub_scan LINE_END) by apply advances_last.
    rewrite scan_line_end
      by (apply sub_chars; [reflexivity | apply control_free_step]).
    apply strip_single_spaced.
    rewrite (sub_scan SPACE_RUN) by apply advances_first.
    apply (scan_space_run _ _ None 0 (le_n _)).
  - rewrite normalize_steps. apply strip_by_ends.
Qed.

End Normalize.
